(** * geodata-br: the territorial data tree, its exporters and the binary
      packing utility, embedded in Rocq.

    Sources embedded here:
    - [src/geodatabr/core/types.py]       classes [Bytes], [List], [Map]
                                          and [String]             (Python 3)
    - [src/dtb/core/entities.py]          [TerritorialData], [TerritorialBase] (Python 2)
    - [src/lib/geodatabr/encoders/xml.py] [XmlEncoder.encode]      (Python 3)
    - [src/lib/places/exporters/msgpack.py] [MessagePackExporter.export]

    Python exceptions are modelled by the [result] type; code that mutates an
    object threads that object explicitly. *)

From Stdlib Require Import ZArith Lia Floats.SpecFloat.
From Stdlib Require Import Strings.Byte Strings.Ascii.
From stdpp Require Import gmap strings list fin_maps pretty sorting.

Local Open Scope Z_scope.

(** ** Python exceptions and results *)

Inductive exn : Type :=
  | KeyError (key : string)
  | TypeError
  | ValueError
  | OverflowError
  | StructError            (* struct.error *)
  | UnicodeEncodeError
  | UnicodeDecodeError
  | AttributeError
  | IOError
  | Exception (msg : string).

Inductive result (A : Type) : Type :=
  | Ok (a : A)
  | Raise (e : exn).
Arguments Ok {A} a.
Arguments Raise {A} e.

#[global] Instance result_ret : MRet result := fun A a => Ok a.
#[global] Instance result_bind : MBind result := fun A B k r =>
  match r with
  | Ok a => k a
  | Raise e => Raise e
  end.
#[global] Instance result_fmap : FMap result := fun A B f r =>
  match r with
  | Ok a => Ok (f a)
  | Raise e => Raise e
  end.

Definition succeeds {A} (r : result A) : Prop := exists a, r = Ok a.

(** ** Bytes and machine words *)

Definition byte_of_Z (z : Z) : byte :=
  default Byte.x00 (Byte.of_N (Z.to_N (z mod 256))).

Definition Z_of_byte (b : byte) : Z := Z.of_N (Byte.to_N b).

(** The four bytes of a 32-bit word, most significant first; a negative
    word is taken modulo [2^32] (two's complement). *)
Definition be32 (w : Z) : list byte :=
  [byte_of_Z (w / 2 ^ 24); byte_of_Z (w / 2 ^ 16);
   byte_of_Z (w / 2 ^ 8); byte_of_Z w].

(** The unsigned value of a byte sequence read most significant first. *)
Definition be_value (bs : list byte) : Z :=
  fold_left (fun acc b => acc * 256 + Z_of_byte b) bs 0.

(** The signed reading of an unsigned 32-bit word. *)
Definition signed32 (w : Z) : Z :=
  if w <? 2 ^ 31 then w else w - 2 ^ 32.

(** ** [geodatabr/core/types.py]: class [Bytes] *)

Module Types.

(** *** Python 3 values handled by [Bytes] *)

(** A Python 3 [str] is a sequence of code points; [bytes] a sequence of
    bytes; a [float] is an IEEE-754 binary64 number, kept as a [spec_float]
    with precision 53 and maximal exponent 1024. *)
Inductive pyval : Type :=
  | VInt (z : Z)
  | VFloat (x : spec_float)
  | VStr (s : list Z)
  | VBytes (b : list byte).

(** [chr(i)]: [OverflowError] beyond a C [int], [ValueError] outside
    [range(0x110000)]. *)
Definition chr (i : Z) : result (list Z) :=
  if (i <? - 2 ^ 31) || (2 ^ 31 <=? i) then Raise OverflowError
  else if (0 <=? i) && (i <? 1114112) then Ok [i]
  else Raise ValueError.

(** UTF-8 encoding of one code point; lone surrogates cannot be encoded. *)
Definition utf8_encode_char (c : Z) : result (list byte) :=
  if c <? 128 then Ok [byte_of_Z c]
  else if c <? 2048 then
    Ok [byte_of_Z (Z.lor 192 (Z.shiftr c 6));
        byte_of_Z (Z.lor 128 (Z.land c 63))]
  else if c <? 65536 then
    if (55296 <=? c) && (c <=? 57343) then Raise UnicodeEncodeError
    else
      Ok [byte_of_Z (Z.lor 224 (Z.shiftr c 12));
          byte_of_Z (Z.lor 128 (Z.land (Z.shiftr c 6) 63));
          byte_of_Z (Z.lor 128 (Z.land c 63))]
  else
    Ok [byte_of_Z (Z.lor 240 (Z.shiftr c 18));
        byte_of_Z (Z.lor 128 (Z.land (Z.shiftr c 12) 63));
        byte_of_Z (Z.lor 128 (Z.land (Z.shiftr c 6) 63));
        byte_of_Z (Z.lor 128 (Z.land c 63))].

(** [s.encode('utf-8')] *)
Fixpoint utf8_encode (s : list Z) : result (list byte) :=
  match s with
  | [] => Ok []
  | c :: s' =>
      bs ← utf8_encode_char c;
      rest ← utf8_encode s';
      Ok (bs ++ rest)
  end.

(** [ord(x)] for a one-element [bytes] or [str]. *)
Definition ord (v : pyval) : result Z :=
  match v with
  | VBytes [b] => Ok (Z_of_byte b)
  | VStr [c] => Ok c
  | _ => Raise TypeError
  end.

(** [len(x)] *)
Definition len (v : pyval) : result Z :=
  match v with
  | VStr s => Ok (Z.of_nat (length s))
  | VBytes b => Ok (Z.of_nat (length b))
  | _ => Raise TypeError
  end.

(** *** Single-precision floats as [struct] packs them *)

(** Conversion of a double to the nearest single (round to nearest even), the
    C cast [(float)x]. *)
Definition to_single (x : spec_float) : spec_float :=
  match x with
  | S754_finite s m e => binary_round 24 128 s m e
  | _ => x
  end.

(** Exact conversion of a single to a double. *)
Definition to_double (x : spec_float) : spec_float :=
  match x with
  | S754_finite s m e => binary_round 53 1024 s m e
  | _ => x
  end.

Definition is_infinity (x : spec_float) : bool :=
  match x with S754_infinity _ => true | _ => false end.

Definition sign_bit (s : bool) : Z := if s then 2 ^ 31 else 0.

(** The IEEE-754 binary32 word of a single: the sign at bit 31, then 8 bits
    of biased exponent, then 23 bits of fraction.  A finite single is
    [m * 2^e] with [m < 2^24] and [-149 <= e]; it is subnormal, with biased
    exponent 0, when [m < 2^23].  [spec_float] has one NaN, with no sign and
    no payload: it stands for the NaN of [float('nan')], whose word is
    [0x7fc00000].  [struct] keeps the sign and the payload of any other NaN
    (the word of [-float('nan')] is [0xffc00000]); such a NaN is not a value
    of this model. *)
Definition bits_of_single (x : spec_float) : Z :=
  match x with
  | S754_zero s => sign_bit s
  | S754_infinity s => sign_bit s + 255 * 2 ^ 23
  | S754_nan => 255 * 2 ^ 23 + 2 ^ 22
  | S754_finite s m e =>
      if Z.pos m <? 2 ^ 23 then sign_bit s + Z.pos m
      else sign_bit s + (e + 150) * 2 ^ 23 + (Z.pos m - 2 ^ 23)
  end.

(** The single that a binary32 word stands for.  Every NaN word gives the
    one NaN of [spec_float]: the sign and the payload, which Python keeps,
    are lost here. *)
Definition single_of_bits (w : Z) : spec_float :=
  let s := 2 ^ 31 <=? w in
  let ex := (w / 2 ^ 23) mod 256 in
  let frac := w mod 2 ^ 23 in
  if ex =? 0 then
    match frac with
    | Z.pos m => S754_finite s m (-149)
    | _ => S754_zero s
    end
  else if ex =? 255 then
    if frac =? 0 then S754_infinity s else S754_nan
  else
    match frac + 2 ^ 23 with
    | Z.pos m => S754_finite s m (ex - 150)
    | _ => S754_nan
    end.

(** *** [io.BytesIO]: a byte buffer with one cursor *)

Record Bytes : Type := mkBytes { getvalue : list byte; tell : nat }.

Definition empty : Bytes := mkBytes [] 0.

(** A method of [Bytes]: it returns or raises, and leaves the object in a
    new state either way. *)
Definition M (A : Type) : Type := Bytes -> result A * Bytes.

#[global] Instance M_ret : MRet M := fun A a self => (Ok a, self).
#[global] Instance M_bind : MBind M := fun A B k c self =>
  match c self with
  | (Ok a, self') => k a self'
  | (Raise e, self') => (Raise e, self')
  end.

Definition lift {A} (r : result A) : M A := fun self => (r, self).

(** [self.write(data)]: overwrites from the cursor on and extends the buffer
    as needed (with zero bytes up to a cursor beyond the end). *)
Definition write (data : list byte) : M unit := fun self =>
  match data with
  | [] => (Ok tt, self)
  | _ =>
      let pos := tell self in
      let buf := getvalue self in
      let padded := buf ++ replicate (pos - length buf)%nat Byte.x00 in
      (Ok tt,
       mkBytes (take pos padded ++ data ++ drop (pos + length data)%nat buf)
               (pos + length data)%nat)
  end.

(** [self.read(size)]: at most [size] bytes from the cursor on, all of them
    for a negative [size]. *)
Definition read (size : Z) : M (list byte) := fun self =>
  let rest := drop (tell self) (getvalue self) in
  let data := if size <? 0 then rest else take (Z.to_nat size) rest in
  (Ok data, mkBytes (getvalue self) (tell self + length data)%nat).

(** [self.seek(pos)] *)
Definition seek (pos : nat) : M unit := fun self =>
  (Ok tt, mkBytes (getvalue self) pos).

(** *** The [struct] module, for the formats [Bytes] uses *)

Inductive byte_order : Type := BigEndian | LittleEndian.

(** A parsed format string: ['c'], ['i'] and ['!i'], ['f'] and ['!f'], and
    ['<n>s'] as built by ['{:d}s'.format(n)], which is not a format when [n]
    is negative. *)
Inductive format : Type :=
  | Fmt_c
  | Fmt_i (network : bool)
  | Fmt_f (network : bool)
  | Fmt_s (n : Z).

Section Platform.

(** The byte order of the platform, used by formats without the ['!']
    prefix.  A native [int] has four bytes. *)
Variable native : byte_order.

Definition order_of (network : bool) : byte_order :=
  if network then BigEndian else native.

Definition in_order (o : byte_order) (bs : list byte) : list byte :=
  match o with
  | BigEndian => bs
  | LittleEndian => rev bs
  end.

Definition calcsize (f : format) : Z :=
  match f with
  | Fmt_c => 1
  | Fmt_i _ => 4
  | Fmt_f _ => 4
  | Fmt_s n => n
  end.

(** [float(v)] as [struct] applies it to the argument of ['f']; an integer
    beyond the range of a double is reported as [struct.error] ("required
    argument is not a float"). *)
Definition as_double (v : pyval) : result spec_float :=
  match v with
  | VFloat x => Ok x
  | VInt z =>
      let x := binary_normalize 53 1024 z 0 false in
      if is_infinity x then Raise StructError else Ok x
  | _ => Raise StructError
  end.

(** [struct.pack(f, v)].  A float beyond the range of a single raises
    [OverflowError]; for an integer argument [struct] turns that error into
    [struct.error] ("int too large to convert"). *)
Definition struct_pack (f : format) (v : pyval) : result (list byte) :=
  match f with
  | Fmt_c =>
      match v with
      | VBytes [b] => Ok [b]
      | _ => Raise StructError
      end
  | Fmt_i network =>
      match v with
      | VInt z =>
          if (- 2 ^ 31 <=? z) && (z <? 2 ^ 31)
          then Ok (in_order (order_of network) (be32 z))
          else Raise StructError
      | _ => Raise StructError
      end
  | Fmt_f network =>
      x ← as_double v;
      let y := to_single x in
      if is_infinity y && negb (is_infinity x)
      then Raise (match v with VInt _ => StructError | _ => OverflowError end)
      else Ok (in_order (order_of network) (be32 (bits_of_single y)))
  | Fmt_s n =>
      if n <? 0 then Raise StructError
      else
        match v with
        | VBytes b =>
            let k := Z.to_nat n in
            Ok (take k b ++ replicate (k - length b)%nat Byte.x00)
        | _ => Raise StructError
        end
  end.

(** [struct.unpack(f, data)[0]] *)
Definition struct_unpack (f : format) (data : list byte) : result pyval :=
  if (calcsize f <? 0) || negb (Z.of_nat (length data) =? calcsize f)
  then Raise StructError
  else
    match f with
    | Fmt_c => Ok (VBytes data)
    | Fmt_i network =>
        Ok (VInt (signed32 (be_value (in_order (order_of network) data))))
    | Fmt_f network =>
        Ok (VFloat (to_double (single_of_bits
              (be_value (in_order (order_of network) data)))))
    | Fmt_s _ => Ok (VBytes data)
    end.

(** *** The methods of [Bytes] *)

Definition _pack (_format : format) (value : pyval) : M unit :=
  data ← lift (struct_pack _format value);
  write data.

Definition _unpack (_format : format) (size : Z) : M pyval :=
  data ← read size;
  lift (struct_unpack _format data).

Definition readByte : M Z :=
  c ← _unpack Fmt_c 1;
  lift (ord c).

Definition readBoolean : M bool :=
  b ← readByte;
  mret (b =? 1).

Definition readInt : M pyval := _unpack (Fmt_i true) 4.

Definition readFloat : M pyval := _unpack (Fmt_f true) 4.

Definition readString : M pyval :=
  length ← _unpack (Fmt_i false) 4;
  match length with
  | VInt n => _unpack (Fmt_s n) n
  | _ => lift (Raise TypeError)
  end.

Definition writeByte (value : Z) : M unit :=
  c ← lift (chr value);
  b ← lift (utf8_encode c);
  _pack Fmt_c (VBytes b).

Definition writeBoolean (value : bool) : M unit :=
  writeByte (if value then 1 else 0).

Definition writeInt (value : pyval) : M unit := _pack (Fmt_i true) value.

Definition writeFloat (value : pyval) : M unit := _pack (Fmt_f true) value.

Definition writeString (value : pyval) : M unit :=
  length ← lift (len value);
  _ ← _pack (Fmt_i false) (VInt length);
  _pack (Fmt_s length) value.

(** The float [3.5] and the strings ["sp"] and [b"sp"]. *)
Definition float_3_5 : spec_float := S754_finite false 7881299347898368 (-51).
Definition str_sp : pyval := VStr [115; 112].
Definition bytes_sp : pyval := VBytes [Byte.x73; Byte.x70].

(** The scenario of the specification: four writes, [seek(0)], four reads. *)
Definition write_then_read (s : pyval) : M (bool * pyval * pyval * pyval) :=
  _ ← writeBoolean true;
  _ ← writeInt (VInt (-42));
  _ ← writeFloat (VFloat float_3_5);
  _ ← writeString s;
  _ ← seek 0;
  b ← readBoolean;
  i ← readInt;
  f ← readFloat;
  t ← readString;
  mret (b, i, f, t).

End Platform.

End Types.

(** ** [dtb/core/entities.py]: the territorial data tree *)

Module Entities.

(** *** Python 2 values and ordered dictionaries *)

(** The values of a row: [None], an [int] or [long], a byte string ([str]
    in Python 2) and a [unicode] string, a sequence of code points. *)
Inductive pyval : Type :=
  | PNone
  | PInt (z : Z)
  | PStr (s : string)
  | PUnicode (u : list Z).

Definition code_of (c : ascii) : Z := Z.of_N (N_of_ascii c).
Definition char_of (z : Z) : ascii := ascii_of_N (Z.to_N z).

Definition codes (s : string) : list Z := map code_of (String.list_ascii_of_string s).

Definition is_ascii (u : list Z) : bool :=
  forallb (fun z => (0 <=? z) && (z <? 128)) u.

(** [unicode(v)]: a byte string is decoded with the default ASCII codec. *)
Definition unicode (v : pyval) : result pyval :=
  match v with
  | PNone => Ok (PUnicode (codes "None"))
  | PInt z => Ok (PUnicode (codes (pretty z)))
  | PStr s => if is_ascii (codes s) then Ok (PUnicode (codes s))
              else Raise UnicodeDecodeError
  | PUnicode u => Ok (PUnicode u)
  end.

(** [str(v)]: a [unicode] string is encoded with the default ASCII codec. *)
Definition str (v : pyval) : result pyval :=
  match v with
  | PNone => Ok (PStr "None")
  | PInt z => Ok (PStr (pretty z))
  | PStr s => Ok (PStr s)
  | PUnicode u => if is_ascii u
                  then Ok (PStr (String.string_of_list_ascii (map char_of u)))
                  else Raise UnicodeEncodeError
  end.

(** [isinstance(v, str)] *)
Definition isinstance_str (v : pyval) : bool :=
  match v with PStr _ => true | _ => false end.

(** Equality of dictionary keys, Python's [==]: a byte string equals a
    [unicode] string when it is ASCII and has the same characters. *)
Definition py_eqb (a b : pyval) : bool :=
  match a, b with
  | PNone, PNone => true
  | PInt x, PInt y => x =? y
  | PStr x, PStr y => bool_decide (x = y)
  | PUnicode x, PUnicode y => bool_decide (x = y)
  | PStr x, PUnicode y | PUnicode y, PStr x =>
      is_ascii (codes x) && bool_decide (codes x = y)
  | _, _ => false
  end.

(** An [OrderedDict]: the items in insertion order. *)
Definition odict (K V : Type) : Type := list (K * V).

Section OrderedDict.

Context {K V : Type} (eqb : K -> K -> bool).

(** [d[k]], [None] standing for [KeyError] *)
Fixpoint od_get (k : K) (d : odict K V) : option V :=
  match d with
  | [] => None
  | (k', v') :: d' => if eqb k' k then Some v' else od_get k d'
  end.

(** [d[k] = v]: a known key keeps its place, a new key goes last. *)
Fixpoint od_set (k : K) (v : V) (d : odict K V) : odict K V :=
  match d with
  | [] => [(k, v)]
  | (k', v') :: d' =>
      if eqb k' k then (k', v) :: d' else (k', v') :: od_set k v d'
  end.

(** [del d[k]], [None] standing for [KeyError] *)
Fixpoint od_del (k : K) (d : odict K V) : option (odict K V) :=
  match d with
  | [] => None
  | (k', v') :: d' =>
      if eqb k' k then Some d'
      else match od_del k d' with
           | Some d'' => Some ((k', v') :: d'')
           | None => None
           end
  end.

End OrderedDict.

Definition keys {K V} (d : odict K V) : list K := map fst d.
Definition values {K V} (d : odict K V) : list V := map snd d.

(** A [for] loop whose body may raise. *)
Fixpoint for_each {A S} (body : S -> A -> result S) (l : list A) (s : S)
  : result S :=
  match l with
  | [] => Ok s
  | a :: l' => s' ← body s a; for_each body l' s'
  end.

Definition str_eqb (a b : string) : bool := bool_decide (a = b).

Definition key_error {A} (k : string) (o : option A) : result A :=
  match o with
  | Some a => Ok a
  | None => Raise (KeyError k)
  end.

(** *** The entity schema *)

(** What [toDict] reads of an entity class: its [table] and [columns]. *)
Record Entity : Type := mkEntity { table : string; columns : list string }.

#[global] Instance Entity_eq_dec : EqDecision Entity.
Proof. solve_decision. Defined.

Definition Uf : Entity := mkEntity "uf" ["id"; "nome"].
Definition Mesorregiao : Entity :=
  mkEntity "mesorregiao" ["id"; "id_uf"; "nome"].
Definition Microrregiao : Entity :=
  mkEntity "microrregiao" ["id"; "id_mesorregiao"; "id_uf"; "nome"].
Definition Municipio : Entity :=
  mkEntity "municipio"
    ["id"; "id_microrregiao"; "id_mesorregiao"; "id_uf"; "nome"].
Definition Distrito : Entity :=
  mkEntity "distrito"
    ["id"; "id_municipio"; "id_microrregiao"; "id_mesorregiao"; "id_uf";
     "nome"].
Definition Subdistrito : Entity :=
  mkEntity "subdistrito"
    ["id"; "id_distrito"; "id_municipio"; "id_microrregiao";
     "id_mesorregiao"; "id_uf"; "nome"].

(** *** [TerritorialData] *)

(** The database description handed to the constructor. *)
Record Struct : Type := mkStruct {
  year : Z;
  archive : option string;
  file : string;
  format : string;
  sheet : option string
}.

(** A row as the parser stores it: a mapping from column names to values. *)
Abbreviation Row := (gmap string pyval).

Record TerritorialData : Type := mkTerritorialData {
  _base : Struct;
  _name : string;
  _cols : list string;
  _rows : list Row;
  _dict : gmap string (list Row);
  _rawdata : option string
}.

Definition entities : list Entity :=
  [Uf; Mesorregiao; Microrregiao; Municipio; Distrito; Subdistrito].

(** [TerritorialData.__init__] *)
Definition __init__ (base : Struct) : TerritorialData :=
  {| _base := base;
     _name := "dtb_" +:+ pretty (year base);
     _cols := [];
     _rows := [];
     _dict := ∅;
     _rawdata := None |}.

(** [TerritorialData.load] *)
Definition load (self : TerritorialData) (rawdata : string)
  : TerritorialData :=
  {| _base := _base self;
     _name := _name self;
     _cols := _cols self;
     _rows := _rows self;
     _dict := _dict self;
     _rawdata := Some rawdata |}.

(** The type of the result of [toDict]: table name, then row key, then
    column name. *)
Abbreviation RowData := (odict string pyval).
Abbreviation TableData := (odict pyval (odict string pyval)).
Abbreviation DictData := (odict string (odict pyval (odict string pyval))).

Section ToDict.

Variables strKeys forceUnicode includeKey : bool.

(** The loop over [entity.columns], which fills [row_data]. *)
Definition column_step (row : Row) (row_data : RowData) (column : string)
  : result RowData :=
  value ← key_error column (row !! column);
  value ← (if forceUnicode && isinstance_str value
           then unicode value else Ok value);
  Ok (od_set str_eqb column value row_data).

(** The body of the loop over the rows of a table, up to the key and the
    field map it stores. *)
Definition row_item (entity : Entity) (row : Row) : result (pyval * RowData) :=
  row_data ← for_each (column_step row) (columns entity) [];
  id ← key_error "id" (od_get str_eqb "id" row_data);
  row_id ← (if strKeys then str id else Ok id);
  row_data ← (if negb includeKey
              then key_error "id" (od_del str_eqb "id" row_data)
              else Ok row_data);
  Ok (row_id, row_data).

(** [_dict[entity.table][row_id] = row_data] *)
Definition row_step (entity : Entity) (table_dict : TableData) (row : Row)
  : result TableData :=
  item ← row_item entity row;
  Ok (od_set py_eqb item.1 item.2 table_dict).

(** The body of the loop over [self.entities]. *)
Definition entity_step (self : TerritorialData) (_dict' : DictData)
    (entity : Entity) : result DictData :=
  rows ← key_error (table entity) (_dict self !! table entity);
  match rows with
  | [] => Ok _dict'
  | _ =>
      let _dict' := od_set str_eqb (table entity) [] _dict' in
      table_dict ← for_each (row_step entity) rows [];
      Ok (od_set str_eqb (table entity) table_dict _dict')
  end.

(** [TerritorialData.toDict] *)
Definition toDict (self : TerritorialData) : result DictData :=
  for_each (entity_step self) entities [].

End ToDict.

(** *** [TerritorialBase] *)

(** An entry of the registry [exporters.FORMATS] (a class of the package
    [dtb.exporters]): the attributes [export] reads, and the [data]
    property of an instance built from the territorial data and the
    [minified] flag, which returns the exported content or raises. *)
Record Exporter : Type := mkExporter {
  exporter_format : string;
  extension : string;
  binary_format : bool;
  exporter_data : TerritorialData -> bool -> result pyval
}.

Record TerritorialBase : Type := mkTerritorialBase {
  _info : Struct;
  _data : TerritorialData
}.

Inductive log_level : Type := INFO | DEBUG.

(** What [export] can read and change: the database object itself, the
    messages handed to its logger, the files and the standard output. *)
Record World : Type := mkWorld {
  self : TerritorialBase;
  _logger : list (log_level * string);
  files : gmap string pyval;
  stdout : list pyval
}.

Definition IO (A : Type) : Type := World -> result A * World.

#[global] Instance IO_ret : MRet IO := fun A a w => (Ok a, w).
#[global] Instance IO_bind : MBind IO := fun A B k c w =>
  match c w with
  | (Ok a, w') => k a w'
  | (Raise e, w') => (Raise e, w')
  end.

Definition raise {A} (e : exn) : IO A := fun w => (Raise e, w).
Definition lift {A} (r : result A) : IO A := fun w => (r, w).
Definition get_self : IO TerritorialBase := fun w => (Ok (self w), w).

Definition logger (level : log_level) (msg : string) : IO unit := fun w =>
  (Ok tt, mkWorld (self w) (_logger w ++ [(level, msg)]) (files w) (stdout w)).

Definition isinstance_unicode (v : pyval) : bool :=
  match v with PUnicode _ => true | _ => false end.

(** [if filename:] holds for a non-empty string. *)
Definition truthy (filename : option string) : bool :=
  match filename with
  | Some f => negb (str_eqb f "")
  | None => false
  end.

(** The two kinds of stream that [export] writes text to: a file opened in
    text mode by [io.open], and [sys.stdout]. *)
Inductive stream : Type := TextFile | StandardOutput.

Section Exporting.

(** The registry [exporters.FORMATS]. *)
Variable FORMATS : gmap string Exporter.

(** The UTF-8 codec behind [data.decode('utf-8')]. *)
Variable utf8_decode : string -> result (list Z).

(** The file names that [open] can open for writing. *)
Variable writable : string -> bool.

(** The texts that the encoding of a stream can write: for a file opened in
    text mode the preferred encoding of the locale, for [sys.stdout] its
    [encoding], ASCII when it has none. *)
Variable encodes : stream -> list Z -> bool.

(** [unicode(data.decode('utf-8'))] *)
Definition decode_utf8 (data : pyval) : result pyval :=
  match data with
  | PStr s => u ← utf8_decode s; Ok (PUnicode u)
  | PUnicode u =>
      (* the text is first encoded with the ASCII codec, then decoded *)
      if is_ascii u then Ok (PUnicode u) else Raise UnicodeEncodeError
  | _ => Raise AttributeError
  end.

(** [with open(filename, mode) as export_file: export_file.write(data)]:
    opening creates or empties the file; a text file takes [unicode], which
    it encodes as a whole with the encoding of the locale, a binary file
    takes a byte string.  When the write raises, the file that was opened
    is closed empty. *)
Definition open_write (filename : string) (binary : bool) (data : pyval)
  : IO unit := fun w =>
  if negb (writable filename) then (Raise IOError, w)
  else
    let put content :=
      mkWorld (self w) (_logger w) (<[filename := content]> (files w))
              (stdout w) in
    match binary, data with
    | false, PUnicode u =>
        if encodes TextFile u then (Ok tt, put data)
        else (Raise UnicodeEncodeError, put (PUnicode []))
    | true, PStr _ => (Ok tt, put data)
    | false, _ => (Raise TypeError, put (PUnicode []))
    | true, _ => (Raise TypeError, put (PStr ""))
    end.

(** [sys.stdout.write(data)]: a byte string is written as it is, a
    [unicode] is encoded first, with the encoding of the standard
    output. *)
Definition stdout_write (data : pyval) : IO unit := fun w =>
  let put :=
    mkWorld (self w) (_logger w) (files w) (stdout w ++ [data]) in
  match data with
  | PStr _ => (Ok tt, put)
  | PUnicode u =>
      if encodes StandardOutput u then (Ok tt, put)
      else (Raise UnicodeEncodeError, w)
  | _ => (Raise TypeError, w)
  end.

(** [TerritorialBase.export] *)
Definition export (format : string) (minified : bool)
    (filename : option string) : IO unit :=
  match FORMATS !! format with
  | None => raise (Exception "Unsupported output format.")
  | Some exporter =>
      _ ← (if minified
           then logger INFO ("Exporting database to minified "
                             +:+ exporter_format exporter +:+ " format...")
           else logger INFO ("Exporting database to "
                             +:+ exporter_format exporter +:+ " format..."));
      this ← get_self;
      data ← lift (exporter_data exporter (_data this) minified);
      let binary_data := binary_format exporter in
      data ← (if negb binary_data && negb (isinstance_unicode data)
              then lift (decode_utf8 data) else mret data);
      _ ← logger DEBUG "Done.";
      if truthy filename then
        let filename :=
          if str_eqb (default "" filename) "auto"
          then "dtb" +:+ extension exporter
          else default "" filename in
        open_write filename binary_data data
      else stdout_write data
  end.

End Exporting.

End Entities.

(** ** [geodatabr/encoders/xml.py]: the XML encoder *)

Module Serializers.
Import Entities.


End Serializers.

Module Xml.
Import Entities.

(** An [lxml.etree] node: an element with tag, attributes, text and
    children, or a comment.  Strings are sequences of code points. *)
#[local] Set Warnings "-register-all".
Inductive node : Type :=
  | Element (tag : string) (attrib : list (string * list Z))
            (text : option (list Z)) (children : list node)
  | Comment (text : list Z).


(** [parent.append(child)] *)
Definition append (child parent : node) : node :=
  match parent with
  | Element tag attrib text children =>
      Element tag attrib text (children ++ [child])
  | Comment _ => parent
  end.

(** [SubElement(parent, tag, **attrib)]: the new element becomes the last
    child of [parent]. *)
Definition SubElement (parent : node) (tag : string)
    (attrib : list (string * list Z)) : node :=
  append (Element tag attrib None []) parent.

(** The code keeps a reference to the element that [SubElement] returned
    and changes it in place; in the tree that element is the last child of
    its parent while this happens. *)
Definition on_last (change : node -> result node) (parent : node)
  : result node :=
  match parent with
  | Element tag attrib text children =>
      match last children with
      | Some child =>
          child' ← change child;
          Ok (Element tag attrib text (removelast children ++ [child']))
      | None => Ok parent
      end
  | Comment _ => Ok parent
  end.

(** Code points that XML can carry, as [lxml] checks every string: no
    control character but tab, line feed and carriage return, no surrogate,
    neither [U+FFFE] nor [U+FFFF]. *)
Definition xml_char (c : Z) : bool :=
  (c =? 9) || (c =? 10) || (c =? 13)
  || ((32 <=? c) && (c <=? 55295))
  || ((57344 <=? c) && (c <=? 65533))
  || ((65536 <=? c) && (c <=? 1114111)).

Definition xml_compatible (u : list Z) : bool := forallb xml_char u.

(** A string handed to [lxml]: text (a [str] of Python 3), which may hold
    any character that XML can carry, or a byte string, which has to be
    ASCII. *)
Definition xml_string (v : pyval) : result (list Z) :=
  match v with
  | PUnicode u => if xml_compatible u then Ok u else Raise ValueError
  | PStr s => if is_ascii (codes s) && xml_compatible (codes s)
              then Ok (codes s) else Raise ValueError
  | _ => Raise TypeError
  end.

(** [element.text = value] *)
Definition set_text (value : pyval) (element : node) : result node :=
  match element with
  | Element tag attrib _ children =>
      match value with
      | PNone => Ok (Element tag attrib None children)
      | _ => u ← xml_string value; Ok (Element tag attrib (Some u) children)
      end
  | Comment _ =>
      match value with
      | PNone => Ok (Comment [])
      | _ => u ← xml_string value; Ok (Comment u)
      end
  end.

Fixpoint has_double_dash (u : list Z) : bool :=
  match u with
  | 45 :: ((45 :: _) as u') => true
  | _ :: u' => has_double_dash u'
  | [] => false
  end.

(** [Comment(text)]: the text may not contain ['--'] nor end with ['-']. *)
Definition make_comment (text : pyval) : result node :=
  u ← xml_string text;
  if has_double_dash u || bool_decide (last u = Some 45)
  then Raise ValueError else Ok (Comment u).

Section Encoder.

(** The translation [_('dataset_name')]. *)
Variable dataset_name : list Z.

(** The coercion of row keys by the serializer. *)
Variable strKeys : bool.

(** The names of the tables and of the columns are keys of the serialized
    data, [str] objects of Python 3: a name of the model stands for the text
    whose characters are its [codes]. *)
Definition text_of (name : string) : pyval := PUnicode (codes name).

(** The loop over the items of a row. *)
Definition field_step (row : node) (item : string * pyval) : result node :=
  let '(column_name, column_value) := item in
  name ← xml_string (text_of column_name);
  let row := SubElement row "field" [("name", name)] in
  on_last (set_text column_value) row.

(** The loop over the rows of a table. *)
Definition row_step (table : node) (row_data : RowData) : result node :=
  let table := SubElement table "row" [] in
  on_last (for_each field_step row_data) table.

(** The loop over the tables. *)
Definition table_step (database : node) (item : string * TableData)
  : result node :=
  let '(table_name, rows) := item in
  comment ← make_comment (text_of (" Table " +:+ table_name +:+ " "));
  let database := append comment database in
  name ← xml_string (text_of table_name);
  let database := SubElement database "table" [("name", name)] in
  on_last (for_each row_step (values rows)) database.

(** The tree built from the serialized data. *)
Definition build (data : DictData) : result node :=
  name ← xml_string (PUnicode dataset_name);
  let database := Element "database" [("name", name)] None [] in
  for_each table_step data database.


End Encoder.

End Xml.

(** ** [places/exporters/msgpack.py]: the MessagePack exporter *)

Module Msgpack.
Import Entities.

(** *** Python objects handed to [msgpack] *)

(** The plain containers and scalars that [normalize] produces: [None],
    [bool], [int], [str] (code points), [bytes], [list] and [dict] (its
    items in insertion order). *)
#[local] Set Warnings "-register-all".
Inductive pyobj : Type :=
  | ONone
  | OBool (b : bool)
  | OInt (z : Z)
  | OStr (u : list Z)
  | OBytes (b : list byte)
  | OList (l : list pyobj)
  | ODict (items : list (pyobj * pyobj)).

Definition bytes_of_string (s : string) : list byte :=
  String.list_byte_of_string s.

(** A field value or row key as a plain object. *)
Definition obj_of_value (v : pyval) : pyobj :=
  match v with
  | PNone => ONone
  | PInt z => OInt z
  | PStr s => OBytes (bytes_of_string s)
  | PUnicode u => OStr u
  end.

(** Modelled from the spec: the method [normalize] of the exporter's data
    object, whose class is not among the sources.  The specification has it
    collapse the ordered-mapping tree (table name, then row key, then field
    name) into plain nested containers: each ordered mapping becomes a
    [dict] with the same items in the same order. *)
Definition normalize (data : DictData) : pyobj :=
  ODict (map (fun table : string * TableData =>
    (OStr (codes table.1),
     ODict (map (fun row : pyval * RowData =>
       (obj_of_value row.1,
        ODict (map (fun field : string * pyval =>
                      (OStr (codes field.1), obj_of_value field.2))
                   row.2)))
       table.2)))
    data).

(** *** The MessagePack format *)

(** [n] bytes of [z], most significant first. *)
Fixpoint be_bytes (n : nat) (z : Z) : list byte :=
  match n with
  | O => []
  | S n' => be_bytes n' (z / 256) ++ [byte_of_Z z]
  end.

Definition tag (t : Z) : list byte := [byte_of_Z t].

(** The integer formats, the shortest one that fits. *)
Definition pack_int (z : Z) : result (list byte) :=
  if (0 <=? z) && (z <? 128) then Ok (tag z)
  else if (-32 <=? z) && (z <? 0) then Ok (tag (z + 256))
  else if (128 <=? z) && (z <=? 255) then Ok (tag 204 ++ be_bytes 1 z)
  else if (-128 <=? z) && (z <? 0) then Ok (tag 208 ++ be_bytes 1 z)
  else if (255 <? z) && (z <=? 65535) then Ok (tag 205 ++ be_bytes 2 z)
  else if (-32768 <=? z) && (z <? -128) then Ok (tag 209 ++ be_bytes 2 z)
  else if (65535 <? z) && (z <=? 4294967295)
       then Ok (tag 206 ++ be_bytes 4 z)
  else if (-2147483648 <=? z) && (z <? -32768)
       then Ok (tag 210 ++ be_bytes 4 z)
  else if (4294967295 <? z) && (z <=? 18446744073709551615)
       then Ok (tag 207 ++ be_bytes 8 z)
  else if (-9223372036854775808 <=? z) && (z <? -2147483648)
       then Ok (tag 211 ++ be_bytes 8 z)
  else Raise OverflowError.

(** The header of a raw string of [n] bytes, without the [str 8] format,
    which [use_bin_type=False] leaves out. *)
Definition raw_header (n : Z) : result (list byte) :=
  if n <=? 31 then Ok (tag (160 + n))
  else if n <=? 65535 then Ok (tag 218 ++ be_bytes 2 n)
  else if n <=? 4294967295 then Ok (tag 219 ++ be_bytes 4 n)
  else Raise ValueError.

Definition array_header (n : Z) : result (list byte) :=
  if n <=? 15 then Ok (tag (144 + n))
  else if n <=? 65535 then Ok (tag 220 ++ be_bytes 2 n)
  else if n <=? 4294967295 then Ok (tag 221 ++ be_bytes 4 n)
  else Raise ValueError.

Definition map_header (n : Z) : result (list byte) :=
  if n <=? 15 then Ok (tag (128 + n))
  else if n <=? 65535 then Ok (tag 222 ++ be_bytes 2 n)
  else if n <=? 4294967295 then Ok (tag 223 ++ be_bytes 4 n)
  else Raise ValueError.

Definition pack_raw (b : list byte) : result (list byte) :=
  header ← raw_header (Z.of_nat (length b));
  Ok (header ++ b).

Section Containers.

(** The packer of one object, for the objects nested in a container. *)
Variable pack : pyobj -> result (list byte).

Fixpoint pack_all (l : list pyobj) : result (list byte) :=
  match l with
  | [] => Ok []
  | x :: l' => bx ← pack x; rest ← pack_all l'; Ok (bx ++ rest)
  end.

Fixpoint pack_items (l : list (pyobj * pyobj)) : result (list byte) :=
  match l with
  | [] => Ok []
  | kv :: l' =>
      bk ← pack kv.1; bv ← pack kv.2; rest ← pack_items l';
      Ok (bk ++ bv ++ rest)
  end.

End Containers.

(** [msgpack.packb(o, use_bin_type=False)]: text is written in UTF-8, and
    [bytes] as a raw string like text. *)
Fixpoint packb (o : pyobj) : result (list byte) :=
  match o with
  | ONone => Ok (tag 192)
  | OBool b => Ok (tag (if b then 195 else 194))
  | OInt z => pack_int z
  | OStr u => b ← Types.utf8_encode u; pack_raw b
  | OBytes b => pack_raw b
  | OList l =>
      header ← array_header (Z.of_nat (length l));
      body ← pack_all packb l;
      Ok (header ++ body)
  | ODict items =>
      header ← map_header (Z.of_nat (length items));
      body ← pack_items packb items;
      Ok (header ++ body)
  end.

(** [MessagePackExporter.export], on the structure that the exporter's data
    object holds: the packed bytes in a fresh [io.BytesIO]. *)
Definition export (data : DictData) : result Types.Bytes :=
  let unpacked := normalize data in
  packed ← packb unpacked;
  Ok (Types.mkBytes packed 0).

(** *** A MessagePack decoder *)

(** The values of the MessagePack type system that the decoder rebuilds:
    nil, booleans, integers, raw strings, arrays and maps (the pairs in the
    order of the stream). *)
Inductive msg : Type :=
  | MNil
  | MBool (b : bool)
  | MInt (z : Z)
  | MRaw (b : list byte)
  | MArray (l : list msg)
  | MMap (items : list (msg * msg)).

(** The signed reading of an unsigned word of [n] bytes. *)
Definition signed (n : nat) (w : Z) : Z :=
  if w <? 2 ^ (8 * Z.of_nat n - 1) then w else w - 2 ^ (8 * Z.of_nat n).

(** The next [n] bytes of the stream. *)
Definition take_bytes (n : nat) (bs : list byte)
  : result (list byte * list byte) :=
  if (n <=? length bs)%nat then Ok (take n bs, drop n bs)
  else Raise ValueError.

Definition read_uint (n : nat) (bs : list byte) : result (Z * list byte) :=
  r ← take_bytes n bs; Ok (be_value r.1, r.2).

Section Decoder.

(** The decoder of one value, for the values nested in a container. *)
Variable decode_value : list byte -> result (msg * list byte).

Fixpoint decode_array (n : nat) (bs : list byte)
  : result (list msg * list byte) :=
  match n with
  | O => Ok ([], bs)
  | S n' =>
      x ← decode_value bs;
      r ← decode_array n' x.2;
      Ok (x.1 :: r.1, r.2)
  end.

Fixpoint decode_map (n : nat) (bs : list byte)
  : result (list (msg * msg) * list byte) :=
  match n with
  | O => Ok ([], bs)
  | S n' =>
      k ← decode_value bs;
      v ← decode_value k.2;
      r ← decode_map n' v.2;
      Ok ((k.1, v.1) :: r.1, r.2)
  end.

End Decoder.

Definition decode_raw (n : Z) (bs : list byte) : result (msg * list byte) :=
  r ← take_bytes (Z.to_nat n) bs; Ok (MRaw r.1, r.2).

Definition decode_uint (n : nat) (bs : list byte)
  : result (msg * list byte) :=
  r ← read_uint n bs; Ok (MInt r.1, r.2).

Definition decode_int (n : nat) (bs : list byte)
  : result (msg * list byte) :=
  r ← read_uint n bs; Ok (MInt (signed n r.1), r.2).

(** The value announced by the first byte [t], read from the bytes after
    it.  The float, bin and ext formats are not part of this model. *)
Definition decode_body (decode_value : list byte -> result (msg * list byte))
    (t : Z) (rest : list byte) : result (msg * list byte) :=
  let array n :=
    r ← decode_array decode_value (Z.to_nat n) rest; Ok (MArray r.1, r.2) in
  let map n :=
    r ← decode_map decode_value (Z.to_nat n) rest; Ok (MMap r.1, r.2) in
  if t <? 128 then Ok (MInt t, rest)
  else if t <? 144 then map (t - 128)
  else if t <? 160 then array (t - 144)
  else if t <? 192 then decode_raw (t - 160) rest
  else if t =? 192 then Ok (MNil, rest)
  else if t =? 194 then Ok (MBool false, rest)
  else if t =? 195 then Ok (MBool true, rest)
  else if t =? 204 then decode_uint 1 rest
  else if t =? 205 then decode_uint 2 rest
  else if t =? 206 then decode_uint 4 rest
  else if t =? 207 then decode_uint 8 rest
  else if t =? 208 then decode_int 1 rest
  else if t =? 209 then decode_int 2 rest
  else if t =? 210 then decode_int 4 rest
  else if t =? 211 then decode_int 8 rest
  else if t =? 217 then r ← read_uint 1 rest; decode_raw r.1 r.2
  else if t =? 218 then r ← read_uint 2 rest; decode_raw r.1 r.2
  else if t =? 219 then r ← read_uint 4 rest; decode_raw r.1 r.2
  else if t =? 220 then
    r ← read_uint 2 rest;
    r' ← decode_array decode_value (Z.to_nat r.1) r.2; Ok (MArray r'.1, r'.2)
  else if t =? 221 then
    r ← read_uint 4 rest;
    r' ← decode_array decode_value (Z.to_nat r.1) r.2; Ok (MArray r'.1, r'.2)
  else if t =? 222 then
    r ← read_uint 2 rest;
    r' ← decode_map decode_value (Z.to_nat r.1) r.2; Ok (MMap r'.1, r'.2)
  else if t =? 223 then
    r ← read_uint 4 rest;
    r' ← decode_map decode_value (Z.to_nat r.1) r.2; Ok (MMap r'.1, r'.2)
  else if 224 <=? t then Ok (MInt (t - 256), rest)
  else Raise ValueError.

(** One value from the front of the stream and the rest of the stream;
    [fuel] bounds the nesting of containers. *)
Fixpoint decode (fuel : nat) (bs : list byte) : result (msg * list byte) :=
  match fuel with
  | O => Raise ValueError
  | S fuel' =>
      match bs with
      | [] => Raise ValueError
      | b :: rest => decode_body (decode fuel') (Z_of_byte b) rest
      end
  end.

(** The value that a whole stream holds; bytes left over are an error. *)
Definition unpack (bs : list byte) : result msg :=
  r ← decode (S (length bs)) bs;
  match r.2 with
  | [] => Ok r.1
  | _ => Raise ValueError
  end.

End Msgpack.

(** ** Notions used to state the properties of the tree *)

Module EntitiesSpec.
Import Entities.

Definition map_values {K V W} (f : V -> W) (d : odict K V) : odict K W :=
  map (fun kv => (kv.1, f kv.2)) d.

(** The field map without its ['id'] entry. *)
Definition strip (row_data : RowData) : RowData :=
  filter (fun kv => kv.1 <> "id") row_data.

(** A field map as [toDict] builds it: no column twice, and an ['id']. *)
Definition row_wf (row_data : RowData) : Prop :=
  NoDup (keys row_data) /\ "id" ∈ keys row_data.

(** The whole result with the ['id'] entry dropped from every field map. *)
Definition strip_key (d : DictData) : DictData :=
  map_values (map_values strip) d.

(** The entity has at least one row in the tree. *)
Definition has_rows (self : TerritorialData) (e : Entity) : bool :=
  match _dict self !! table e with
  | Some (_ :: _) => true
  | _ => false
  end.

End EntitiesSpec.

(** ** The shape of the XML tree, as the specification words it *)

Module XmlSpec.
Import Entities Xml.

(** The text of a field: the value itself when it is a string. *)
Definition text_value (value : pyval) : option (list Z) :=
  match value with
  | PUnicode u => Some u
  | PStr s => Some (codes s)
  | _ => None
  end.

Definition field_node (item : string * pyval) : node :=
  Element "field" [("name", codes item.1)] (text_value item.2) [].

Definition row_node (row_data : RowData) : node :=
  Element "row" [] None (map field_node row_data).

Definition table_nodes (item : string * TableData) : list node :=
  [Comment (codes (" Table " +:+ item.1 +:+ " "));
   Element "table" [("name", codes item.1)] None
           (map row_node (values item.2))].

(** What [lxml] must accept for the tree to be built.  A field value is
    [None], text that XML can carry, or an ASCII byte string that XML can
    carry; it is no integer. *)
Definition value_accepted (value : pyval) : bool :=
  match value with
  | PNone => true
  | PInt _ => false
  | PStr s => is_ascii (codes s) && xml_compatible (codes s)
  | PUnicode u => xml_compatible u
  end.

(** The name of a field is text that XML can carry. *)
Definition field_accepted (item : string * pyval) : Prop :=
  xml_compatible (codes item.1) = true /\ value_accepted item.2 = true.

(** So is the name of a table, which goes into a comment too and may
    therefore not contain ['--']. *)
Definition table_accepted (item : string * TableData) : Prop :=
  xml_compatible (codes item.1) = true
  /\ has_double_dash (codes item.1) = false
  /\ Forall (Forall field_accepted) (values item.2).





Definition is_comment (n : node) : bool :=
  match n with
  | Comment _ => true
  | Element _ _ _ _ => false
  end.

End XmlSpec.

(** ** The structure on the wire, and the limits of the format *)

Module MsgpackSpec.
Import Entities Msgpack.

Section Wire.

Variable wire : pyobj -> result msg.

Fixpoint wire_all (l : list pyobj) : result (list msg) :=
  match l with
  | [] => Ok []
  | x :: l' => m ← wire x; ms ← wire_all l'; Ok (m :: ms)
  end.

Fixpoint wire_items (l : list (pyobj * pyobj)) : result (list (msg * msg)) :=
  match l with
  | [] => Ok []
  | kv :: l' =>
      k ← wire kv.1; v ← wire kv.2; ms ← wire_items l'; Ok ((k, v) :: ms)
  end.

End Wire.

(** A Python object in the MessagePack type system, as it is packed with
    [use_bin_type=False]: the same nested values, a text being its UTF-8
    bytes and a raw string like [bytes]. *)
Fixpoint wire (o : pyobj) : result msg :=
  match o with
  | ONone => Ok MNil
  | OBool b => Ok (MBool b)
  | OInt z => Ok (MInt z)
  | OStr u => b ← Types.utf8_encode u; Ok (MRaw b)
  | OBytes b => Ok (MRaw b)
  | OList l => ms ← wire_all wire l; Ok (MArray ms)
  | ODict items => ms ← wire_items wire items; Ok (MMap ms)
  end.

(** What decoding the packed bytes of [o] gives, whatever follows them. *)
Definition decodes_back (o : pyobj) : Prop :=
  forall bs, packb o = Ok bs ->
    (1 <= length bs)%nat
    /\ exists m, wire o = Ok m
         /\ forall fuel rest, (length bs <= fuel)%nat ->
              decode fuel (bs ++ rest) = Ok (m, rest).

Fixpoint mapM {A B} (f : A -> result B) (l : list A) : result (list B) :=
  match l with
  | [] => Ok []
  | a :: l' => b ← f a; bs ← mapM f l'; Ok (b :: bs)
  end.

(** A table or field name: its text in UTF-8. *)
Definition name_msg (s : string) : result msg :=
  b ← Types.utf8_encode (codes s); Ok (MRaw b).

(** A row key or field value; a text becomes its UTF-8 bytes. *)
Definition value_msg (v : pyval) : result msg :=
  match v with
  | PNone => Ok MNil
  | PInt z => Ok (MInt z)
  | PStr s => Ok (MRaw (bytes_of_string s))
  | PUnicode u => b ← Types.utf8_encode u; Ok (MRaw b)
  end.

Definition field_msg (field : string * pyval) : result (msg * msg) :=
  k ← name_msg field.1; v ← value_msg field.2; Ok (k, v).

Definition row_msg (row : pyval * RowData) : result (msg * msg) :=
  k ← value_msg row.1;
  v ← (fields ← mapM field_msg row.2; Ok (MMap fields));
  Ok (k, v).

Definition table_msg (table : string * TableData) : result (msg * msg) :=
  k ← name_msg table.1;
  v ← (rows ← mapM row_msg table.2; Ok (MMap rows));
  Ok (k, v).

(** The nested table, row and field values of the structure, as a map of
    maps of maps with the same keys and values in the same order. *)
Definition msg_of_data (data : DictData) : result msg :=
  tables ← mapM table_msg data; Ok (MMap tables).

(** The limits of the format: integers of 64 bits, lengths of 32 bits. *)
Fixpoint fits (m : msg) : bool :=
  match m with
  | MNil | MBool _ => true
  | MInt z => (- 2 ^ 63 <=? z) && (z <? 2 ^ 64)
  | MRaw b => Z.of_nat (length b) <? 2 ^ 32
  | MArray l => (Z.of_nat (length l) <? 2 ^ 32) && forallb fits l
  | MMap items =>
      (Z.of_nat (length items) <? 2 ^ 32)
      && forallb (fun kv => fits kv.1 && fits kv.2) items
  end.

Definition packs (o : pyobj) : Prop :=
  forall m, wire o = Ok m -> fits m = true -> succeeds (packb o).

End MsgpackSpec.

(** ** Sample data for the closed instances *)

Module Samples.
Import Entities Xml Msgpack.

Definition float_1e40 : spec_float :=
  S754_finite false 8271806125530277 80.

Definition base_2014 : Struct :=
  mkStruct 2014 (Some "ftp://geoftp.ibge.gov.br/dtb_2014.zip")
           "DTB_2014_subdistrito.xls" "xls" None.

Definition sao_paulo : Row :=
  <["id" := PInt 35]> (<["nome" := PStr "Sao Paulo"]> ∅).

(** A tree with one state and no row in the other tables. *)
Definition one_state : TerritorialData :=
  {| _base := base_2014;
     _name := "dtb_2014";
     _cols := [];
     _rows := [];
     _dict := list_to_map
                [("uf", [sao_paulo]); ("mesorregiao", []);
                 ("microrregiao", []); ("municipio", []); ("distrito", []);
                 ("subdistrito", [])];
     _rawdata := None |}.

Definition one_state_dict : DictData :=
  [("uf", [(PInt 35, [("id", PInt 35); ("nome", PStr "Sao Paulo")])])].

(** A registry with two formats, and an ASCII codec, which agrees with
    UTF-8 on the byte strings it accepts. *)
Definition csv : Exporter :=
  mkExporter "CSV" ".csv" false (fun _ _ => Ok (PStr "id,nome")).
Definition msgpack : Exporter :=
  mkExporter "MessagePack" ".msgpack" true (fun _ _ => Ok (PStr "packed")).
Definition registry : gmap string Exporter :=
  <["csv" := csv]> (<["msgpack" := msgpack]> ∅).
Definition ascii_decode (s : string) : result (list Z) :=
  if is_ascii (codes s) then Ok (codes s) else Raise UnicodeDecodeError.
Definition any_file (name : string) : bool := true.
(** Streams with the ASCII encoding, as in the C locale. *)
Definition ascii_streams (s : stream) (u : list Z) : bool := is_ascii u.

Definition world : World :=
  mkWorld (mkTerritorialBase base_2014 one_state) [] ∅ [].



Definition one_state_msg : msg :=
  MMap [(MRaw (bytes_of_string "uf"),
         MMap [(MInt 35,
                MMap [(MRaw (bytes_of_string "id"), MInt 35);
                      (MRaw (bytes_of_string "nome"),
                       MRaw (bytes_of_string "Sao Paulo"))])])].

End Samples.

(** ** Notions used to state the properties of [Bytes] *)

Module TypesSpec.
Import Types.

(** The bytes from the cursor to the end of the buffer. *)
Definition remaining (self : Bytes) : list byte :=
  drop (tell self) (getvalue self).

(** The object with its cursor moved by [n] bytes. *)
Definition advanced (n : nat) (self : Bytes) : Bytes :=
  mkBytes (getvalue self) (tell self + n).

End TypesSpec.

(** ** Notions used to state when and how [toDict] converts a row *)

Module ToDictSpec.
Import Entities.

(** The value stored for a field: with [forceUnicode] a byte string is
    replaced by its ASCII decoding. *)
Definition converted (forceUnicode : bool) (v : pyval) : pyval :=
  match v with
  | PStr s => if forceUnicode then PUnicode (codes s) else v
  | _ => v
  end.

(** The field can be stored: with [forceUnicode] a byte string has to be
    ASCII. *)
Definition convertible (forceUnicode : bool) (v : pyval) : bool :=
  match v with
  | PStr s => negb forceUnicode || is_ascii (codes s)
  | _ => true
  end.

(** The row holds every column of the entity with a value that can be
    stored, and with [strKeys] an ['id'] that [str] accepts. *)
Definition row_ok (strKeys forceUnicode : bool) (e : Entity) (row : Row)
  : Prop :=
  (forall c, c ∈ columns e ->
     exists v, row !! c = Some v /\ convertible forceUnicode v = true)
  /\ (strKeys = true ->
      exists v, row !! "id" = Some v
                /\ succeeds (str (converted forceUnicode v))).

End ToDictSpec.

(** ** A tree with two rows of the same ['id'] *)

Module ToDictSamples.
Import Entities Samples.

(** A state row with an entry that is no column of [Uf]. *)
Definition sp_sigla : Row :=
  <["id" := PInt 35]> (<["nome" := PStr "SP"]> (<["sigla" := PStr "SP"]> ∅)).

Definition same_id : TerritorialData :=
  {| _base := base_2014;
     _name := "dtb_2014";
     _cols := [];
     _rows := [];
     _dict := list_to_map
                [("uf", [sao_paulo; sp_sigla]); ("mesorregiao", []);
                 ("microrregiao", []); ("municipio", []); ("distrito", []);
                 ("subdistrito", [])];
     _rawdata := None |}.

Definition same_id_dict : DictData :=
  [("uf", [(PInt 35, [("id", PInt 35); ("nome", PStr "SP")])])].

End ToDictSamples.

(** ** [dtb/core/entities.py]: building and parsing a [TerritorialBase] *)

Module Bases.
Import Entities.

(** Byte strings as [sorted] compares them. *)
Definition str_le (a b : string) : Prop := String.leb a b = true.

#[global] Instance str_le_dec (a b : string) : Decision (str_le a b).
Proof. unfold str_le. apply _. Defined.

Section BaseList.

(** The databases listed in [data/bases.yaml], in the order of the file. *)
Variable databases : list Struct.

(** [dict((str(database['year']), database) for database in ...)]: a later
    database of the same year replaces an earlier one. *)
Definition base_list : odict pyval Struct :=
  fold_left (fun d database =>
               od_set py_eqb (PStr (pretty (year database))) database d)
            databases [].

(** The byte string of a key; every key of [base_list] is one. *)
Definition key_str (k : pyval) : string :=
  match k with PStr s => s | _ => "" end.

(** [tuple(reversed(sorted(base_list.keys())))] *)
Definition bases : list pyval :=
  map PStr (reverse (merge_sort str_le (map key_str (keys base_list)))).

(** [year in self.bases] *)
Definition available (year : pyval) : bool :=
  existsb (fun b => py_eqb b year) bases.

Definition not_available : exn :=
  Exception "This base is not available to download.".

(** [TerritorialBase.__init__]; the logger is kept in the [World].  A year
    that is in [bases] is a key of [base_list], so that [get] finds it. *)
Definition __init__ (year : pyval) : result TerritorialBase :=
  if negb (available year) then Raise not_available
  else
    match od_get py_eqb year base_list with
    | Some info => Ok (mkTerritorialBase info (Entities.__init__ info))
    | None => Raise TypeError
    end.

End BaseList.

(** The property [year]: [str(self._info.year)] *)
Definition year_of (this : TerritorialBase) : pyval :=
  PStr (pretty (year (_info this))).

(** An entry of the registry [parsers.FORMATS] (a class of the package
    [dtb.parsers]): [run] builds an instance from the territorial data and
    the logger and calls its [parse], which returns the parsed data or
    raises.  The parser holds the caller's data object and logger: [run]
    also gives what they have become. *)
Record Parser : Type := mkParser {
  run : TerritorialData -> list (log_level * string) ->
        result TerritorialData * TerritorialData * list (log_level * string)
}.

Section Parsing.

(** The registry [parsers.FORMATS]. *)
Variable FORMATS : gmap string Parser.

Definition parse_failed : exn :=
  Exception "Failed to parse data using the given parser".

(** [TerritorialBase.parse]: [FORMATS.get] gives [None] for a format that
    is not registered, and calling [None] raises inside the [try].  The
    method returns [self], which the [World] holds. *)
Definition parse : IO unit := fun w =>
  let this := self w in
  match FORMATS !! format (_info this) with
  | None => (Raise parse_failed, w)
  | Some parser =>
      match run parser (_data this) (_logger w) with
      | (Ok parsed, _, log) =>
          (Ok tt,
           mkWorld (mkTerritorialBase (_info this) parsed) log
                   (files w) (stdout w))
      | (Raise _, data, log) =>
          (Raise parse_failed,
           mkWorld (mkTerritorialBase (_info this) data) log
                   (files w) (stdout w))
      end
  end.

End Parsing.

End Bases.

(** ** Notions used to state the properties of [TerritorialBase] *)

Module BasesSpec.
Import Entities Bases.

(** Every entry of the dictionary is one of the databases, under the text
    of its year. *)
Definition entries_ok (databases : list Struct) (d : odict pyval Struct)
  : Prop :=
  forall k db, (k, db) ∈ d ->
    db ∈ databases /\ k = PStr (pretty (year db)).

End BasesSpec.

(** ** A binary format whose exporter gives text *)

Module ExportSamples.
Import Entities Samples.

Definition text_msgpack : Exporter :=
  mkExporter "MessagePack" ".msgpack" true
             (fun _ _ => Ok (PUnicode (codes "packed"))).

Definition text_registry : gmap string Exporter :=
  <["msgpack" := text_msgpack]> ∅.

(** A text exporter whose data has a letter outside ASCII: ['São'] as
    [unicode]. *)
Definition accent_csv : Exporter :=
  mkExporter "CSV" ".csv" false (fun _ _ => Ok (PUnicode [83; 227; 111])).

Definition accent_registry : gmap string Exporter :=
  <["csv" := accent_csv]> ∅.

End ExportSamples.

(** ** Python's sequences: indexing, slicing and [range] *)

Module Python.

(** The exceptions raised by the classes [List], [Map] and [String]. *)
Inductive error : Type :=
  | IndexError
  | ValueError
  | TypeError
  | AttributeError (name : string).

Inductive outcome (A : Type) : Type :=
  | Return (a : A)
  | Throw (e : error).
Arguments Return {A} a.
Arguments Throw {A} e.

#[global] Instance outcome_ret : MRet outcome := fun A a => Return a.
#[global] Instance outcome_bind : MBind outcome := fun A B k r =>
  match r with
  | Return a => k a
  | Throw e => Throw e
  end.

Section Sequences.

Context {A : Type}.
Implicit Type l : list A.

(** [len(l)] *)
Definition len l : Z := Z.of_nat (length l).

(** A bound of a slice of step 1, brought into [0 .. n]: a negative bound
    counts from the end. *)
Definition adjust (n i : Z) : Z :=
  if i <? 0 then Z.max (i + n) 0 else Z.min i n.

Definition lower (start : option Z) l : Z :=
  match start with
  | Some i => adjust (len l) i
  | None => 0
  end.

Definition upper (stop : option Z) l : Z :=
  match stop with
  | Some i => adjust (len l) i
  | None => len l
  end.

(** [l[start:stop]] *)
Definition slice (start stop : option Z) l : list A :=
  take (Z.to_nat (upper stop l - lower start l))
       (drop (Z.to_nat (lower start l)) l).

(** What [del l[start:stop]] leaves. *)
Definition del_slice (start stop : option Z) l : list A :=
  take (Z.to_nat (lower start l)) l
  ++ drop (Z.to_nat (Z.max (lower start l) (upper stop l))) l.

(** [l[i]] *)
Definition getitem (i : Z) l : outcome A :=
  let j := if i <? 0 then i + len l else i in
  if j <? 0 then Throw IndexError
  else match l !! Z.to_nat j with
       | Some x => Return x
       | None => Throw IndexError
       end.

(** [len(range(start, stop, step))], for a step that is not zero. *)
Definition range_length (start stop step : Z) : Z :=
  if 0 <? step
  then if start <? stop then (stop - start - 1) / step + 1 else 0
  else if stop <? start then (start - stop - 1) / (- step) + 1 else 0.

(** [range(start, stop, step)] *)
Definition range (start stop step : Z) : list Z :=
  map (fun i => start + Z.of_nat i * step)
      (seq 0 (Z.to_nat (range_length start stop step))).

(** A bound of a slice with a step: it is brought into [0 .. n] for a
    positive step and into [-1 .. n - 1] for a negative one. *)
Definition adjust_step (n step i : Z) : Z :=
  if i <? 0 then
    if i + n <? 0 then (if step <? 0 then -1 else 0) else i + n
  else if n <=? i then (if step <? 0 then n - 1 else n)
  else i.

(** [l[start:stop:step]] *)
Definition slice_step (start stop : option Z) (step : Z) l
  : outcome (list A) :=
  if step =? 0 then Throw ValueError
  else
    let n := len l in
    let a := match start with
             | Some i => adjust_step n step i
             | None => if step <? 0 then n - 1 else 0
             end in
    let b := match stop with
             | Some i => adjust_step n step i
             | None => if step <? 0 then -1 else n
             end in
    Return (omap (fun i => l !! Z.to_nat i) (range a b step)).

End Sequences.

(** *** The values held by a list *)

(** [None], integers, strings, lists and tuples: on these [==] is
    structural, and a list never equals a tuple. *)
#[local] Set Warnings "-register-all".
Inductive obj : Type :=
  | ONone
  | OInt (z : Z)
  | OStr (s : string)
  | OList (items : list obj)
  | OTuple (items : list obj).

(** [a == b] *)
Fixpoint obj_eqb (a b : obj) : bool :=
  match a, b with
  | ONone, ONone => true
  | OInt x, OInt y => x =? y
  | OStr x, OStr y => bool_decide (x = y)
  | OList xs, OList ys | OTuple xs, OTuple ys =>
      (fix all_eqb (xs ys : list obj) : bool :=
         match xs, ys with
         | [], [] => true
         | x :: xs', y :: ys' => obj_eqb x y && all_eqb xs' ys'
         | _, _ => false
         end) xs ys
  | _, _ => false
  end.

(** [x in l] *)
Definition contains (x : obj) (l : list obj) : bool := existsb (obj_eqb x) l.

(** [l.index(x)], for an [x] that is in [l]. *)
Fixpoint index (x : obj) (l : list obj) : nat :=
  match l with
  | [] => 0
  | y :: l' => if obj_eqb y x then 0 else S (index x l')
  end.

(** [bool(v)] *)
Definition truthy (v : obj) : bool :=
  match v with
  | ONone => false
  | OInt z => negb (z =? 0)
  | OStr s => negb (bool_decide (s = ""))
  | OList items | OTuple items =>
      match items with [] => false | _ => true end
  end.

(** [hash(v)] is defined: a list has no hash, a tuple has one when its
    items have. *)
Fixpoint hashable (v : obj) : bool :=
  match v with
  | OList _ => false
  | OTuple items => forallb hashable items
  | _ => true
  end.

(** [isinstance(v, list)] *)
Definition is_list (v : obj) : bool :=
  match v with OList _ => true | _ => false end.

(** An argument that is expected to be a function of one argument:
    a function, which may raise, or some other object. *)
Inductive argument : Type :=
  | Callable (f : obj -> outcome obj)
  | Object (v : obj).

(** [callable(a)]: none of the values above can be called. *)
Definition callable (a : argument) : bool :=
  match a with Callable _ => true | Object _ => false end.

(** [bool(a)]: a function is true. *)
Definition argument_truthy (a : argument) : bool :=
  match a with Callable _ => true | Object v => truthy v end.

(** [set(l)] followed by an iteration: the distinct items of [l] in some
    order, here that of their last occurrence. *)
Fixpoint set_items (l : list obj) : list obj :=
  match l with
  | [] => []
  | x :: l' => if contains x l' then set_items l' else x :: set_items l'
  end.

(** [sorted(items, key=key)]: insertion sort, which is stable. *)
Definition insert_by (key : obj -> nat) (x : obj) : list obj -> list obj :=
  fix ins (sorted : list obj) : list obj :=
    match sorted with
    | [] => [x]
    | y :: sorted' =>
        if (key x <? key y)%nat then x :: sorted else y :: ins sorted'
    end.

Definition sorted_by (key : obj -> nat) (items : list obj) : list obj :=
  fold_right (insert_by key) [] items.

(** [zip] applied to the rows as its arguments: as many tuples as the
    shortest row has items. *)
Definition zip_star (rows : list (list obj)) : list obj :=
  match rows with
  | [] => []
  | row :: rows' =>
      let n := fold_right Nat.min (length row) (map length rows') in
      map (fun i => OTuple (omap (fun r => r !! i) rows)) (seq 0 n)
  end.

End Python.

(** ** [geodatabr/core/types.py]: class [List] *)

Module PyList.
Import Python.

(** A [List] holds values; the class adds methods to [list] and no state.
    A method that changes the list gives the new list beside its result. *)
Abbreviation List := (list obj).

Definition chunk (size : Z) (self : List) : outcome List :=
  if size <=? 0 then Throw ValueError
  else
    Return (map (fun idx => OList (slice (Some idx) (Some (idx + size)) self))
                (range 0 (len self) size)).

Definition difference (other : obj) (self : List) : outcome List :=
  match other with
  | OList other =>
      Return (List.filter (fun item => negb (contains item other)) self)
  | _ => Throw ValueError
  end.

(** The comprehension [item for item in self if test(item)], for a test
    that may raise. *)
Fixpoint select (test : obj -> outcome bool) (self : List) : outcome List :=
  match self with
  | [] => Return []
  | item :: rest =>
      keep ← test item;
      kept ← select test rest;
      Return (if (keep : bool) then item :: kept else kept)
  end.

Definition filter (predicate : argument) (self : List) : outcome List :=
  match predicate with
  | Callable f => select (fun item => v ← f item; Return (truthy v)) self
  | Object _ => Throw ValueError
  end.

(** [predicate] is [None] when it is not given. *)
Definition first (predicate : argument) (self : List) : outcome obj :=
  if argument_truthy predicate
  then filtered ← filter predicate self; getitem 0 filtered
  else getitem 0 self.

(** What [flatten] adds for one item.  The code opens every item that is
    an [Iterable] and neither [str] nor [bytes]
    ([collections.Iterable] is the name of the class up to Python 3.9).
    Among the values of the model, [None], integers, strings, lists and
    tuples, these are the lists and the tuples, which are flattened in
    their turn; a string is an [Iterable] that the code leaves closed.
    The other iterables that the code would open (a dict, through its
    keys, a set, a range, an iterator) are no values of the model. *)
Fixpoint flatten_item (item : obj) : List :=
  match item with
  | OList items | OTuple items => flat_map flatten_item items
  | _ => [item]
  end.

Definition flatten (self : List) : List := flat_map flatten_item self.

Definition intersection (other : obj) (self : List) : outcome List :=
  match other with
  | OList other => Return (List.filter (fun item => contains item other) self)
  | _ => Throw ValueError
  end.

Definition last (predicate : argument) (self : List) : outcome obj :=
  if argument_truthy predicate
  then filtered ← filter predicate self; getitem (-1) filtered
  else getitem (-1) self.

(** [offset] is [0] when it is not given. *)
Definition nth (step offset : Z) (self : List) : outcome List :=
  slice_step (Some offset) None step self.

Definition reject (predicate : argument) (self : List) : outcome List :=
  match predicate with
  | Callable f =>
      select (fun item => v ← f item; Return (negb (truthy v))) self
  | Object _ => Throw ValueError
  end.

Definition partition (predicate : argument) (self : List) : outcome List :=
  passed ← filter predicate self;
  failed ← reject predicate self;
  Return [OList passed; OList failed].

(** [self.insert(0, item)]; the result is the list afterwards. *)
Definition prepend (item : obj) (self : List) : List := item :: self.

Definition rotate (offset : Z) (self : List) : List :=
  slice (Some offset) None self ++ slice None (Some offset) self.

(** [self.pop(0)], with the list afterwards. *)
Definition shift (self : List) : outcome obj * List :=
  match self with
  | [] => (Throw IndexError, self)
  | item :: rest => (Return item, rest)
  end.

(** The slice that is returned, with the list afterwards; [size] is [None]
    when it is not given, and [if size:] also fails for [0]. *)
Definition splice (index : Z) (size : option Z) (self : List)
  : List * List :=
  match size with
  | Some size =>
      if negb (size =? 0)
      then (slice (Some index) (Some (index + size)) self,
            del_slice (Some index) (Some (index + size)) self)
      else (slice (Some index) None self, del_slice (Some index) None self)
  | None => (slice (Some index) None self, del_slice (Some index) None self)
  end.

(** The body of the loop of [split], on the pair of [split] and [self]. *)
Definition split_step (state : List * List) (idx : Z) : List * List :=
  let '(split, self) := state in
  let split_idx := len self / idx in
  (split ++ [OList (slice None (Some split_idx) self)],
   slice (Some split_idx) None self).

Definition split (count : Z) (self : List) : List :=
  fst (fold_left split_step (rev (range 1 (count + 1) 1)) ([], self)).

Definition take (count : Z) (self : List) : List :=
  if 0 <=? count then slice None (Some count) self
  else slice (Some count) None self.

(** The items of a list. *)
Definition items_of (v : obj) : list obj :=
  match v with
  | OList items | OTuple items => items
  | _ => []
  end.

Definition transpose (self : List) : outcome List :=
  if negb (forallb is_list self) then Throw ValueError
  else if negb (length (set_items
                          (map (fun item => OInt (len (items_of item))) self))
                =? 1)%nat
  then Throw ValueError
  else Return (zip_star (map items_of self)).

Definition unique (self : List) : outcome List :=
  if forallb hashable self
  then Return (sorted_by (fun item => index item self) (set_items self))
  else Throw TypeError.

Definition union (other : obj) (self : List) : outcome List :=
  match other with
  | OList other => unique (self ++ other)
  | _ => Throw ValueError
  end.

End PyList.

(** ** Notions used to state the properties of [List] *)

Module ListSpec.
Import Python.

(** A value of the model that [flatten] does not open: [None], an
    integer or a string. *)
Definition is_atom (v : obj) : bool :=
  match v with
  | OList _ | OTuple _ => false
  | _ => true
  end.

(** The items of a list without their later repetitions. *)
Fixpoint first_occurrences (l : list obj) : list obj :=
  match l with
  | [] => []
  | x :: l' =>
      x :: List.filter (fun y => negb (obj_eqb y x)) (first_occurrences l')
  end.

(** The predicate [f] returns on the item, with a true value. *)
Definition passes (f : obj -> outcome obj) (item : obj) : Prop :=
  exists v, f item = Return v /\ truthy v = true.

(** The predicate [f] returns on the item, with a false value. *)
Definition fails (f : obj -> outcome obj) (item : obj) : Prop :=
  exists v, f item = Return v /\ truthy v = false.

End ListSpec.

(** ** [geodatabr/core/types.py]: class [String] *)

Module PyString.
Import Python.

(** A [str] is a sequence of code points; the class adds methods to it. *)
Abbreviation String := (list Z).

(** [s.startswith(sep)] *)
Fixpoint startswith (sep s : String) : bool :=
  match sep, s with
  | [], _ => true
  | a :: sep', b :: s' => (a =? b) && startswith sep' s'
  | _ :: _, [] => false
  end.

(** [str.split(sep)] for a separator that is not empty: the string is cut
    at the separators found from left to right, [skip] being what is left
    to pass of a separator that was found and [piece] the piece read so
    far. *)
Fixpoint split_from (sep : String) (skip : nat) (piece s : String)
  : list String :=
  match s with
  | [] => [piece]
  | c :: s' =>
      match skip with
      | S skip' => split_from sep skip' piece s'
      | O =>
          if startswith sep s
          then piece :: split_from sep (length sep - 1) [] s'
          else split_from sep 0 (piece ++ [c]) s'
      end
  end.

Definition str_split (sep s : String) : list String := split_from sep 0 [] s.

Definition after (search : String) (self : String) : String :=
  match search with
  | [] => self
  | _ => List.last (str_split search self) []
  end.

Definition before (search : String) (self : String) : String :=
  match search with
  | [] => self
  | _ => List.hd [] (str_split search self)
  end.

(** [self * times] *)
Definition repeat (times : Z) (self : String) : String :=
  concat (replicate (Z.to_nat times) self).

(** [self[::-1]] *)
Definition reverse (self : String) : outcome String :=
  slice_step None None (-1) self.

Definition rotate (shift : Z) (self : String) : String :=
  let shift :=
    if (len self <? Z.abs shift) && (0 <? len self)
    then shift mod len self else shift in
  slice (Some (- shift)) None self ++ slice None (Some (- shift)) self.

End PyString.

(** ** Notions used to state the properties of [String] *)

Module StringSpec.
Import Python.

(** [sep.join(pieces)] *)
Fixpoint join (sep : list Z) (pieces : list (list Z)) : list Z :=
  match pieces with
  | [] => []
  | [piece] => piece
  | piece :: pieces' => piece ++ sep ++ join sep pieces'
  end.

(** The separator is found at position [k] of the string. *)
Definition occurs_at (sep s : list Z) (k : nat) : Prop :=
  PyString.startswith sep (drop k s) = true.

End StringSpec.

(** ** [geodatabr/core/types.py]: class [Map] *)

Module PyMap.
Import Python.

(** A [Map] is a [dict]; the keys reached as attributes are strings.  A
    method that changes the mapping gives the new mapping. *)
Abbreviation Map := (gmap string obj).

(** [Map.__getattr__], the method itself. *)
Definition __getattr__ (key : string) (self : Map) : outcome obj :=
  match self !! key with
  | Some value => Return value
  | None => Throw (AttributeError key)
  end.

(** [Map.__setattr__], which Python calls for every [self.key = value]. *)
Definition __setattr__ (key : string) (value : obj) (self : Map) : Map :=
  <[key := value]> self.

(** [Map.__delattr__], which Python calls for every [del self.key]. *)
Definition __delattr__ (key : string) (self : Map) : outcome unit * Map :=
  match self !! key with
  | Some _ => (Return tt, delete key self)
  | None => (Throw (AttributeError key), self)
  end.

(** What reading an attribute gives: a value of the mapping, or what the
    class defines under that name (a method of [dict], say). *)
Inductive attribute : Type :=
  | Item (value : obj)
  | ClassAttribute (name : string).

Section Attributes.

(** The names that normal attribute lookup finds on a [Map]: those that
    the classes [Map], [dict] and [object] define ([items], [keys],
    [copy], [__class__], ...), which depend on the version of Python.  The
    dictionary of the instance stays empty, as [__setattr__] stores every
    attribute in the mapping. *)
Variable defined : string -> bool.

(** [self.key], that is [getattr(self, key)]: Python calls [__getattr__]
    only when normal lookup has not found the name. *)
Definition getattr (key : string) (self : Map) : outcome attribute :=
  if defined key then Return (ClassAttribute key)
  else value ← __getattr__ key self; Return (Item value).

End Attributes.

End PyMap.

(** * Properties *)

(** ** Properties of the byte and word encodings *)

Lemma Z_of_byte_of_Z (z : Z) : Z_of_byte (byte_of_Z z) = z mod 256.
Proof.
  unfold Z_of_byte, byte_of_Z.
  assert (Hr : 0 <= z mod 256 < 256) by (apply Z.mod_pos_bound; lia).
  destruct (Byte.of_N (Z.to_N (z mod 256))) as [b|] eqn:Hb.
  - apply Byte.to_of_N in Hb. simpl. rewrite Hb. lia.
  - apply Byte.of_N_None_iff in Hb. lia.
Qed.

Lemma Z_of_byte_range (b : byte) : 0 <= Z_of_byte b < 256.
Proof.
  unfold Z_of_byte. pose proof (Byte.to_N_bounded b). lia.
Qed.

Lemma byte_of_Z_of_byte (b : byte) : byte_of_Z (Z_of_byte b) = b.
Proof.
  unfold byte_of_Z. pose proof (Z_of_byte_range b) as Hr.
  rewrite Z.mod_small by lia. unfold Z_of_byte.
  rewrite N2Z.id, Byte.of_to_N. reflexivity.
Qed.

Lemma be_value_be32 (w : Z) : be_value (be32 w) = w mod 2 ^ 32.
Proof.
  unfold be_value, be32. simpl fold_left.
  rewrite !Z_of_byte_of_Z.
  change (2 ^ 24) with (256 * 256 * 256).
  change (2 ^ 16) with (256 * 256).
  change (2 ^ 8) with 256. change (2 ^ 32) with (256 * 256 * 256 * 256).
  rewrite <- !Z.div_div by lia.
  Z.div_mod_to_equations. lia.
Qed.

Lemma signed32_wrap (z : Z) :
  - 2 ^ 31 <= z < 2 ^ 31 -> signed32 (z mod 2 ^ 32) = z.
Proof.
  intros Hz. unfold signed32.
  destruct (Z.ltb_spec (z mod 2 ^ 32) (2 ^ 31)) as [Hlt|Hge];
    Z.div_mod_to_equations; lia.
Qed.

Lemma be32_length (w : Z) : length (be32 w) = 4%nat.
Proof. reflexivity. Qed.

(** ** Properties of [Bytes] *)

Module TypesProps.
Import Types.

(** *** The binary32 word *)




Section Platform.

Variable native : byte_order.

Lemma in_order_involutive (o : byte_order) (bs : list byte) :
  in_order o (in_order o bs) = bs.
Proof. destruct o; simpl; [reflexivity | apply rev_involutive]. Qed.

Lemma in_order_length (o : byte_order) (bs : list byte) :
  length (in_order o bs) = length bs.
Proof. destruct o; simpl; [reflexivity | apply length_rev]. Qed.

(** A write with the cursor at the end of the buffer appends. *)
Lemma write_at_end (data : list byte) (self : Bytes) :
  tell self = length (getvalue self) ->
  write data self =
    (Ok tt, mkBytes (getvalue self ++ data) (tell self + length data)).
Proof.
  destruct self as [buf pos]. simpl. intros ->.
  destruct data as [|d data].
  - simpl. rewrite app_nil_r, Nat.add_0_r. reflexivity.
  - unfold write. simpl getvalue. simpl tell.
    rewrite Nat.sub_diag. simpl replicate. rewrite app_nil_r.
    rewrite firstn_all. rewrite drop_ge by lia.
    rewrite app_nil_r. reflexivity.
Qed.

(** A byte written at the cursor is the byte read from that position. *)
Lemma read_after_write (b : byte) (self : Bytes) :
  read 1 (mkBytes (getvalue (snd (write [b] self))) (tell self)) =
    (Ok [b], snd (write [b] self)).
Proof.
  destruct self as [buf pos]. unfold write, read. simpl.
  set (padded := buf ++ replicate (pos - length buf) Byte.x00).
  assert (Hlen : length (take pos padded) = pos).
  { rewrite length_take. unfold padded.
    rewrite length_app, length_replicate. lia. }
  rewrite drop_app_length' by (symmetry; exact Hlen).
  simpl. rewrite Nat.add_1_r. reflexivity.
Qed.

(** What [writeByte] does for every integer: one byte for an ASCII code
    point; otherwise [chr], the UTF-8 encoder or the one-byte pack raises,
    and the buffer is left as it was. *)
Lemma writeByte_cases (v : Z) (self : Bytes) :
  writeByte native v self =
    if (0 <=? v) && (v <=? 127) then write [byte_of_Z v] self
    else if (v <? - 2 ^ 31) || (2 ^ 31 <=? v)
         then (Raise OverflowError, self)
    else if (v <? 0) || (1114112 <=? v) then (Raise ValueError, self)
    else if (55296 <=? v) && (v <=? 57343)
         then (Raise UnicodeEncodeError, self)
         else (Raise StructError, self).
Proof.
  unfold writeByte, _pack, lift, chr.
  unfold mbind at 1 2, M_bind.
  change (- 2 ^ 31) with (-2147483648). change (2 ^ 31) with 2147483648.
  destruct (Z.ltb_spec v (-2147483648)), (Z.leb_spec 2147483648 v),
    (Z.leb_spec 0 v), (Z.ltb_spec v 1114112), (Z.ltb_spec v 0),
    (Z.leb_spec 1114112 v), (Z.leb_spec v 127); try lia;
    try reflexivity; cbn [andb orb utf8_encode mbind result_bind];
    unfold utf8_encode_char;
    destruct (Z.ltb_spec v 128), (Z.ltb_spec v 2048), (Z.ltb_spec v 65536),
      (Z.leb_spec 55296 v), (Z.leb_spec v 57343); try lia; reflexivity.
Qed.

(** C9. [writeByte(v)] returns exactly for [0 <= v <= 127]; it then writes
    the one byte [v] at the cursor (appending it when the cursor is at the
    end), and [readByte] from that position gives [v] back; for
    [128 <= v <= 255] it raises [struct.error], the UTF-8 encoding of
    [chr(v)] having two bytes, and writes nothing. *)
Theorem writeByte_range (v : Z) (self : Bytes) :
  ((exists self', writeByte native v self = (Ok tt, self'))
     <-> 0 <= v <= 127)
  /\ (0 <= v <= 127 ->
        writeByte native v self = write [byte_of_Z v] self
        /\ (tell self = length (getvalue self) ->
              snd (writeByte native v self) =
                mkBytes (getvalue self ++ [byte_of_Z v]) (tell self + 1))
        /\ fst ((_ ← writeByte native v;
                 _ ← seek (tell self);
                 readByte native) self) = Ok v)
  /\ (128 <= v <= 255 ->
        writeByte native v self = (Raise StructError, self)).
Proof.
  pose proof (writeByte_cases v self) as Hc.
  split; [|split].
  - split.
    + intros [self' Hw]. rewrite Hw in Hc.
      destruct (Z.leb_spec 0 v), (Z.leb_spec v 127); cbn [andb] in Hc;
        try lia;
        destruct ((v <? - 2 ^ 31) || (2 ^ 31 <=? v));
        destruct ((v <? 0) || (1114112 <=? v));
        destruct ((55296 <=? v) && (v <=? 57343)); discriminate.
    + intros Hv. rewrite Hc.
      destruct (Z.leb_spec 0 v), (Z.leb_spec v 127); try lia. simpl.
      eexists. reflexivity.
  - intros Hv.
    assert (Hw : writeByte native v self = write [byte_of_Z v] self).
    { rewrite Hc.
      destruct (Z.leb_spec 0 v), (Z.leb_spec v 127); try lia. reflexivity. }
    split; [exact Hw|]. split.
    + intros Hend. rewrite Hw, write_at_end by exact Hend. reflexivity.
    + unfold mbind at 1 2. unfold M_bind. rewrite Hw.
      destruct (write [byte_of_Z v] self) as [r self'] eqn:Hws.
      assert (Hr : r = Ok tt) by (unfold write in Hws; congruence).
      subst r. unfold seek at 1.
      unfold readByte, _unpack, mbind, M_bind.
      pose proof (read_after_write (byte_of_Z v) self) as Hread.
      rewrite Hws in Hread. simpl snd in Hread. rewrite Hread.
      unfold lift, struct_unpack, ord. simpl.
      rewrite Z_of_byte_of_Z. f_equal. apply Z.mod_small. lia.
  - intros Hv. rewrite Hc.
    change (- 2 ^ 31) with (-2147483648). change (2 ^ 31) with 2147483648.
    destruct (Z.leb_spec 0 v), (Z.leb_spec v 127), (Z.ltb_spec v 0),
      (Z.ltb_spec v (-2147483648)), (Z.leb_spec 2147483648 v),
      (Z.leb_spec 1114112 v), (Z.leb_spec 55296 v); try lia; reflexivity.
Qed.



(** C2 on the code.  The scenario with the [str] value ["sp"] does not
    return: the length header is written, then packing a [str] with the
    format ['2s'] raises [struct.error].  With the [bytes] value [b"sp"] it
    returns, and the string read back is that [bytes] value. *)
Theorem write_then_read_sp :
  write_then_read native str_sp empty =
    (Raise StructError,
     mkBytes ([Byte.x01] ++ be32 (-42) ++ be32 1080033280
              ++ in_order native (be32 2)) 13)
  /\ fst (write_then_read native bytes_sp empty) =
       Ok (true, VInt (-42), VFloat float_3_5, bytes_sp).
Proof.
  destruct native; split; vm_compute; reflexivity.
Qed.

End Platform.

End TypesProps.

(** ** Closed instances of the [Bytes] properties *)

Module TypesExamples.
Import Types TypesProps Samples.

Lemma writeByte_range_witness :
  fst ((_ ← writeByte LittleEndian 65;
        _ ← seek 0;
        readByte LittleEndian) empty) = Ok 65
  /\ writeByte LittleEndian 200 empty = (Raise StructError, empty).
Proof.
  pose proof (writeByte_range LittleEndian 65 empty) as [_ [H65 _]].
  pose proof (writeByte_range LittleEndian 200 empty) as [_ [_ H200]].
  split.
  - apply H65. lia.
  - apply H200. lia.
Defined.


(** C7 as stated fails: the float [1e40], beyond the single-precision
    range, is not written at all, and neither is the payload of a [str]. *)
(** An integer beyond the range of a single is refused by [struct] with
    its own error, a float with [OverflowError]. *)
Lemma writeFloat_large_integer :
  writeFloat BigEndian (VInt (10 ^ 40)) empty = (Raise StructError, empty)
  /\ writeFloat BigEndian (VFloat float_1e40) empty
     = (Raise OverflowError, empty).
Proof. split; vm_compute; reflexivity. Qed.


End TypesExamples.

(** ** Properties of [TerritorialData.toDict] *)

Module EntitiesProps.
Import Entities EntitiesSpec.

(** *** Ordered dictionaries *)

Lemma str_eqb_eq (a b : string) : str_eqb a b = true <-> a = b.
Proof. unfold str_eqb. apply bool_decide_eq_true. Qed.

Lemma str_eqb_refl (a : string) : str_eqb a a = true.
Proof. apply str_eqb_eq. reflexivity. Qed.

Lemma str_eqb_neq (a b : string) : str_eqb a b = false <-> a <> b.
Proof. unfold str_eqb. apply bool_decide_eq_false. Qed.

Section OdictFacts.

Context {K V : Type} (eqb : K -> K -> bool).

Lemma od_set_map_values {W} (f : V -> W) (k : K) (v : V) (d : odict K V) :
  od_set eqb k (f v) (map_values f d) = map_values f (od_set eqb k v d).
Proof.
  induction d as [|[k' v'] d IH]; simpl; [reflexivity|].
  destruct (eqb k' k); simpl; [reflexivity|]. rewrite IH. reflexivity.
Qed.

Lemma od_set_Forall (P : V -> Prop) (k : K) (v : V) (d : odict K V) :
  Forall P (values d) -> P v -> Forall P (values (od_set eqb k v d)).
Proof.
  unfold values. induction d as [|[k' v'] d IH]; simpl; intros Hd Hv.
  - constructor; [exact Hv | constructor].
  - inversion Hd; subst. destruct (eqb k' k); simpl.
    + constructor; assumption.
    + constructor; [assumption | apply IH; assumption].
Qed.

End OdictFacts.

Lemma keys_od_set_new {V} (k : string) (v : V) (d : odict string V) :
  k ∉ keys d -> keys (od_set str_eqb k v d) = keys d ++ [k].
Proof.
  unfold keys. induction d as [|[k' v'] d IH]; simpl; intros Hk.
  - reflexivity.
  - apply not_elem_of_cons in Hk as [Hne Hk].
    destruct (str_eqb k' k) eqn:E.
    + apply str_eqb_eq in E. congruence.
    + simpl. rewrite IH by exact Hk. reflexivity.
Qed.

Lemma keys_od_set_old {V} (k : string) (v : V) (d : odict string V) :
  k ∈ keys d -> keys (od_set str_eqb k v d) = keys d.
Proof.
  unfold keys. induction d as [|[k' v'] d IH]; simpl; intros Hk.
  - inversion Hk.
  - destruct (str_eqb k' k) eqn:E; simpl; [reflexivity|].
    apply str_eqb_neq in E. apply elem_of_cons in Hk as [Hk|Hk];
      [congruence|]. rewrite IH by exact Hk. reflexivity.
Qed.

Lemma od_set_twice {V} (k : string) (v w : V) (d : odict string V) :
  od_set str_eqb k w (od_set str_eqb k v d) = od_set str_eqb k w d.
Proof.
  induction d as [|[k' v'] d IH]; simpl.
  - rewrite str_eqb_refl. reflexivity.
  - destruct (str_eqb k' k) eqn:E; simpl; rewrite E; [reflexivity|].
    rewrite IH. reflexivity.
Qed.

Lemma od_set_NoDup {V} (k : string) (v : V) (d : odict string V) :
  NoDup (keys d) -> NoDup (keys (od_set str_eqb k v d)).
Proof.
  intros Hd. destruct (decide (k ∈ keys d)) as [Hin|Hnin].
  - rewrite keys_od_set_old by exact Hin. exact Hd.
  - rewrite keys_od_set_new by exact Hnin.
    apply NoDup_app. split; [exact Hd|]. split.
    + intros x Hx Hk. apply list_elem_of_singleton in Hk. congruence.
    + apply NoDup_singleton.
Qed.

Lemma od_get_elem_of {V} (k : string) (d : odict string V) :
  is_Some (od_get str_eqb k d) <-> k ∈ keys d.
Proof.
  unfold keys. induction d as [|[k' v'] d IH]; simpl.
  - split; [intros [? ?]; discriminate | inversion 1].
  - destruct (str_eqb k' k) eqn:E.
    + apply str_eqb_eq in E. subst. split; [intros _; left | eauto].
    + apply str_eqb_neq in E. rewrite IH. split.
      * intros H. right. exact H.
      * intros H. apply elem_of_cons in H as [H|H]; [congruence | exact H].
Qed.

(** *** Results *)

Lemma bind_Ok {A B} (r : result A) (k : A -> result B) (b : B) :
  r ≫= k = Ok b <-> exists a, r = Ok a /\ k a = Ok b.
Proof.
  destruct r as [a|e]; simpl; split.
  - intros H. exists a. split; [reflexivity | exact H].
  - intros (a' & [= <-] & H). exact H.
  - discriminate.
  - intros (a' & [=] & _).
Qed.

Lemma key_error_Ok {A} (k : string) (o : option A) (a : A) :
  key_error k o = Ok a <-> o = Some a.
Proof. destruct o; simpl; split; congruence. Qed.

Lemma for_each_succeeds {A S} (body : S -> A -> result S) (l : list A) :
  (forall a s, a ∈ l -> succeeds (body s a)) ->
  forall s, succeeds (for_each body l s).
Proof.
  induction l as [|a l IH]; simpl; intros Hl s.
  - exists s. reflexivity.
  - destruct (Hl a s) as [s' Hs']; [left|]. rewrite Hs'. simpl.
    apply IH. intros a' s'' Ha'. apply Hl. right. exact Ha'.
Qed.

Lemma for_each_invariant {A S} (P : S -> Prop) (body : S -> A -> result S)
    (l : list A) :
  (forall a s s', a ∈ l -> P s -> body s a = Ok s' -> P s') ->
  forall s s', P s -> for_each body l s = Ok s' -> P s'.
Proof.
  induction l as [|a l IH]; simpl; intros Hl s s' Hs Hrun.
  - congruence.
  - apply bind_Ok in Hrun as (s1 & Hs1 & Hrun).
    apply (IH (fun a' t t' Ha' => Hl a' t t' (list_elem_of_further _ _ _ Ha'))
             s1 s'); [|exact Hrun].
    apply (Hl a s s1); [left | exact Hs | exact Hs1].
Qed.

(** *** The field map of a row *)

Lemma strip_cons_id (v : pyval) (rd : RowData) :
  strip (("id", v) :: rd) = strip rd.
Proof. unfold strip. apply filter_cons_False. simpl. tauto. Qed.

Lemma strip_cons_other (k : string) (v : pyval) (rd : RowData) :
  k <> "id" -> strip ((k, v) :: rd) = (k, v) :: strip rd.
Proof. intros Hk. unfold strip. apply filter_cons_True. exact Hk. Qed.

Lemma strip_absent (rd : RowData) : "id" ∉ keys rd -> strip rd = rd.
Proof.
  induction rd as [|[k v] rd IH]; intros Hk; [reflexivity|].
  apply not_elem_of_cons in Hk as [Hne Hk].
  rewrite strip_cons_other by (intros E; apply Hne; symmetry; exact E).
  rewrite IH by exact Hk.
  reflexivity.
Qed.

Lemma od_del_strip (rd : RowData) :
  row_wf rd -> od_del str_eqb "id" rd = Some (strip rd).
Proof.
  unfold row_wf. induction rd as [|[k v] rd IH]; intros [Hnd Hin].
  - inversion Hin.
  - apply NoDup_cons in Hnd as [Hk Hnd]. cbn [od_del].
    destruct (str_eqb k "id") eqn:E.
    + apply str_eqb_eq in E. subst k.
      rewrite strip_cons_id, strip_absent by exact Hk. reflexivity.
    + apply str_eqb_neq in E.
      apply elem_of_cons in Hin as [Hin|Hin]; [simpl in Hin; congruence|].
      rewrite IH by (split; assumption).
      rewrite strip_cons_other by exact E. reflexivity.
Qed.

Lemma strip_keys (rd : RowData) :
  keys (strip rd) = filter (fun k => k <> "id") (keys rd).
Proof.
  induction rd as [|[k v] rd IH]; [reflexivity|].
  change (keys ((k, v) :: rd)) with (k :: keys rd).
  destruct (decide (k = "id")) as [->|Hne].
  - rewrite strip_cons_id, filter_cons_False by tauto. exact IH.
  - rewrite strip_cons_other, filter_cons_True by exact Hne.
    change (keys ((k, v) :: strip rd)) with (k :: keys (strip rd)).
    rewrite IH. reflexivity.
Qed.

Lemma strip_length (rd : RowData) :
  row_wf rd -> length rd = S (length (strip rd)).
Proof.
  unfold row_wf. induction rd as [|[k v] rd IH]; intros [Hnd Hin].
  - inversion Hin.
  - apply NoDup_cons in Hnd as [Hk Hnd].
    destruct (decide (k = "id")) as [->|Hne].
    + rewrite strip_cons_id, strip_absent by exact Hk. reflexivity.
    + apply elem_of_cons in Hin as [Hin|Hin]; [simpl in Hin; congruence|].
      rewrite strip_cons_other by exact Hne.
      simpl. f_equal. apply IH. split; assumption.
Qed.

Lemma column_step_keys (fu : bool) (row : Row) (rd rd' : RowData)
    (column : string) :
  column_step fu row rd column = Ok rd' ->
  exists v, rd' = od_set str_eqb column v rd.
Proof.
  unfold column_step. intros H.
  apply bind_Ok in H as (v & _ & H).
  apply bind_Ok in H as (v' & _ & H).
  exists v'. congruence.
Qed.

Lemma columns_NoDup (fu : bool) (row : Row) (cols : list string)
    (rd rd' : RowData) :
  NoDup (keys rd) ->
  for_each (column_step fu row) cols rd = Ok rd' -> NoDup (keys rd').
Proof.
  apply (for_each_invariant (fun d : RowData => NoDup (keys d))).
  intros c s s' _ Hs Hstep.
  apply column_step_keys in Hstep as [v ->]. apply od_set_NoDup, Hs.
Qed.

(** The item stored for a row when [includeKey] holds: its field map has
    the entity's columns once each, ['id'] among them. *)
Lemma row_item_wf (sk fu : bool) (e : Entity) (row : Row) (k : pyval)
    (rd : RowData) :
  row_item sk fu true e row = Ok (k, rd) -> row_wf rd.
Proof.
  unfold row_item. intros H.
  apply bind_Ok in H as (rd0 & Hcols & H).
  apply bind_Ok in H as (id & Hid & H).
  apply bind_Ok in H as (row_id & _ & H).
  simpl in H. injection H as _ <-.
  split.
  - eapply columns_NoDup; [|exact Hcols]. constructor.
  - apply od_get_elem_of. apply key_error_Ok in Hid. rewrite Hid. eauto.
Qed.

(** Without [includeKey] the same row gives the same key, and the same field
    map less its ['id'] entry; it raises exactly when the other does. *)
Lemma row_item_includeKey (sk fu : bool) (e : Entity) (row : Row) :
  row_item sk fu false e row =
    (fun item => (item.1, strip item.2)) <$> row_item sk fu true e row.
Proof.
  destruct (row_item sk fu true e row) as [[k rd]|err] eqn:Htrue.
  - pose proof (row_item_wf _ _ _ _ _ _ Htrue) as Hwf.
    unfold row_item in *.
    destruct (for_each (column_step fu row) (columns e) []) as [rd0|];
      [|discriminate]. cbn [mbind result_bind] in *.
    destruct (key_error "id" (od_get str_eqb "id" rd0)) as [id|];
      [|discriminate]. cbn [mbind result_bind] in *.
    destruct (if sk then str id else Ok id) as [row_id|]; [|discriminate].
    cbn [mbind result_bind negb] in *. injection Htrue as <- <-.
    rewrite od_del_strip by exact Hwf. reflexivity.
  - unfold row_item in *.
    destruct (for_each (column_step fu row) (columns e) []) as [rd0|];
      [|exact Htrue]. cbn [mbind result_bind] in *.
    destruct (key_error "id" (od_get str_eqb "id" rd0)) as [id|];
      [|exact Htrue]. cbn [mbind result_bind] in *.
    destruct (if sk then str id else Ok id) as [row_id|]; [|exact Htrue].
    discriminate.
Qed.

Lemma row_step_includeKey (sk fu : bool) (e : Entity) (tbl : TableData)
    (row : Row) :
  row_step sk fu false e (map_values strip tbl) row =
    map_values strip <$> row_step sk fu true e tbl row.
Proof.
  unfold row_step. rewrite row_item_includeKey.
  destruct (row_item sk fu true e row) as [[k rd]|err]; [|reflexivity].
  cbn [fmap result_fmap mbind result_bind fst snd].
  rewrite od_set_map_values. reflexivity.
Qed.

Lemma rows_includeKey (sk fu : bool) (e : Entity) (rows : list Row) :
  forall tbl : TableData,
    for_each (row_step sk fu false e) rows (map_values strip tbl) =
      map_values strip <$> for_each (row_step sk fu true e) rows tbl.
Proof.
  induction rows as [|row rows IH]; intros tbl; [reflexivity|].
  cbn [for_each]. rewrite row_step_includeKey.
  destruct (row_step sk fu true e tbl row) as [tbl'|err]; [|reflexivity].
  cbn [fmap result_fmap mbind result_bind]. apply IH.
Qed.

Lemma entity_step_includeKey (sk fu : bool) (self : TerritorialData)
    (d : DictData) (e : Entity) :
  entity_step sk fu false self (strip_key d) e =
    strip_key <$> entity_step sk fu true self d e.
Proof.
  unfold entity_step.
  destruct (key_error (table e) (_dict self !! table e)) as [rows|err];
    [|reflexivity]. cbn [mbind result_bind].
  destruct rows as [|row rows]; [reflexivity|].
  pose proof (rows_includeKey sk fu e (row :: rows) []) as Hrows.
  change (map_values strip []) with (@nil (pyval * RowData)) in Hrows.
  rewrite Hrows.
  destruct (for_each (row_step sk fu true e) (row :: rows) []) as [tbl|err];
    [|reflexivity].
  cbn [fmap result_fmap mbind result_bind].
  unfold strip_key.
  rewrite <- !od_set_map_values. reflexivity.
Qed.

Lemma entities_includeKey (sk fu : bool) (self : TerritorialData)
    (es : list Entity) :
  forall d : DictData,
    for_each (entity_step sk fu false self) es (strip_key d) =
      strip_key <$> for_each (entity_step sk fu true self) es d.
Proof.
  induction es as [|e es IH]; intros d; [reflexivity|].
  cbn [for_each]. rewrite entity_step_includeKey.
  destruct (entity_step sk fu true self d e) as [d'|err]; [|reflexivity].
  cbn [fmap result_fmap mbind result_bind]. apply IH.
Qed.

Lemma toDict_rows_wf (sk fu : bool) (self : TerritorialData) (d : DictData) :
  toDict sk fu true self = Ok d ->
  Forall (fun tbl : TableData => Forall row_wf (values tbl)) (values d).
Proof.
  unfold toDict.
  apply (for_each_invariant
    (fun d : DictData =>
       Forall (fun tbl : TableData => Forall row_wf (values tbl)) (values d)));
    [|constructor].
  intros e d0 d1 _ Hd0 Hstep. unfold entity_step in Hstep.
  apply bind_Ok in Hstep as (rows & _ & Hstep).
  destruct rows as [|row rows]; [congruence|].
  apply bind_Ok in Hstep as (tbl & Htbl & Hstep).
  injection Hstep as <-.
  apply od_set_Forall; [apply od_set_Forall; [exact Hd0 | constructor]|].
  revert Htbl.
  apply (for_each_invariant
    (fun tbl : TableData => Forall row_wf (values tbl))); [|constructor].
  intros r t t' _ Ht Hrow. unfold row_step in Hrow.
  apply bind_Ok in Hrow as ([k rd] & Hitem & Hrow).
  injection Hrow as <-. apply od_set_Forall; [exact Ht|].
  eapply row_item_wf, Hitem.
Qed.

(** C1. For every tree and both values of the other flags: [toDict] with
    [includeKey=False] raises exactly when it does with [includeKey=True],
    and otherwise returns the same tables, row keys and field maps in the
    same order, each field map less its ['id'] entry and nothing else; this
    holds row by row, for every row of every entity; with [includeKey=True]
    every field map has exactly one ['id'] entry. *)
Theorem toDict_includeKey (sk fu : bool) (self : TerritorialData) :
  toDict sk fu false self = strip_key <$> toDict sk fu true self
  /\ (forall (e : Entity) (row : Row),
        row_item sk fu false e row =
          (fun item => (item.1, strip item.2)) <$> row_item sk fu true e row)
  /\ forall d : DictData, toDict sk fu true self = Ok d ->
       Forall (fun tbl : TableData =>
                 Forall (fun rd : RowData =>
                           NoDup (keys rd) /\ ("id" ∈ keys rd)
                           /\ ("id" ∉ keys (strip rd))
                           /\ keys (strip rd) =
                                filter (fun k => k <> "id") (keys rd)
                           /\ length rd = S (length (strip rd)))
                        (values tbl))
              (values d).
Proof.
  split; [|split].
  - unfold toDict. apply (entities_includeKey sk fu self entities []).
  - intros e row. apply row_item_includeKey.
  - intros d Hd. apply toDict_rows_wf in Hd.
    eapply Forall_impl; [exact Hd|]. intros tbl Htbl. simpl.
    eapply Forall_impl; [exact Htbl|]. intros rd Hwf. simpl.
    destruct Hwf as [Hnd Hin]. repeat split; try assumption.
    + rewrite strip_keys. intros H. apply list_elem_of_filter in H as [H _].
      apply H. reflexivity.
    + apply strip_keys.
    + apply strip_length. split; assumption.
Qed.

(** *** The tables of the result *)

Lemma entities_tables_NoDup : NoDup (map table entities).
Proof. apply (bool_decide_unpack _). vm_compute. exact I. Qed.

Lemma od_set_nonempty {K V} (eqb : K -> K -> bool) (k : K) (v : V)
    (d : odict K V) : od_set eqb k v d <> [].
Proof. destruct d as [|[k' v'] d]; simpl; [|destruct (eqb k' k)]; discriminate. Qed.

Lemma rows_nonempty (sk fu ik : bool) (e : Entity) (rows : list Row)
    (row : Row) (tbl : TableData) :
  for_each (row_step sk fu ik e) (row :: rows) [] = Ok tbl -> tbl <> [].
Proof.
  cbn [for_each]. intros H. apply bind_Ok in H as (t1 & Hrow & H).
  revert H. apply (for_each_invariant (fun t : TableData => t <> [])).
  - intros r t t' _ _ Hstep. unfold row_step in Hstep.
    apply bind_Ok in Hstep as (item & _ & Hstep). injection Hstep as <-.
    apply od_set_nonempty.
  - unfold row_step in Hrow.
    apply bind_Ok in Hrow as (item & _ & Hrow). injection Hrow as <-.
    discriminate.
Qed.

Lemma entity_step_inv (sk fu ik : bool) (self : TerritorialData)
    (d d' : DictData) (e : Entity) :
  entity_step sk fu ik self d e = Ok d' ->
  (_dict self !! table e = Some [] /\ d' = d)
  \/ (exists tbl, has_rows self e = true /\ tbl <> []
                  /\ d' = od_set str_eqb (table e) tbl d).
Proof.
  unfold entity_step, has_rows. intros H.
  apply bind_Ok in H as (rows & Hrows & H). apply key_error_Ok in Hrows.
  rewrite Hrows. destruct rows as [|row rows].
  - left. split; congruence.
  - right. apply bind_Ok in H as (tbl & Htbl & H). exists tbl.
    split; [reflexivity|]. split; [eapply rows_nonempty, Htbl|].
    rewrite od_set_twice in H. congruence.
Qed.

Lemma entities_keys (sk fu ik : bool) (self : TerritorialData)
    (es : list Entity) :
  forall d d' : DictData,
    NoDup (map table es) ->
    (forall e, e ∈ es -> table e ∉ keys d) ->
    for_each (entity_step sk fu ik self) es d = Ok d' ->
    keys d' =
      keys d ++ map table (filter (fun e => has_rows self e = true) es).
Proof.
  induction es as [|e es IH]; intros d d' Hnd Hfresh Hrun.
  - simpl in Hrun. injection Hrun as <-. simpl. rewrite app_nil_r.
    reflexivity.
  - cbn [for_each] in Hrun. apply bind_Ok in Hrun as (d1 & Hstep & Hrun).
    cbn [map] in Hnd. apply NoDup_cons in Hnd as [He Hnd].
    apply entity_step_inv in Hstep as [[Hempty ->]|(tbl & Hrows & _ & ->)].
    + rewrite filter_cons_False.
      * apply (IH d d' Hnd); [|exact Hrun].
        intros e' He'. apply Hfresh. right. exact He'.
      * unfold has_rows. rewrite Hempty. discriminate.
    + rewrite filter_cons_True by exact Hrows. cbn [map].
      assert (Hk : keys (od_set str_eqb (table e) tbl d) =
                   keys d ++ [table e])
        by (apply keys_od_set_new, Hfresh; left).
      etransitivity;
        [apply (IH (od_set str_eqb (table e) tbl d) d' Hnd); [|exact Hrun]|].
      * intros e' He' Hin.
        assert (Hin' : table e' ∈ keys d ++ [table e])
          by (rewrite <- Hk; exact Hin).
        apply elem_of_app in Hin' as [Hin'|Hin'].
        -- revert Hin'. apply Hfresh. right. exact He'.
        -- apply list_elem_of_singleton in Hin'. apply He. rewrite <- Hin'.
           apply list_elem_of_fmap_2. exact He'.
      * transitivity ((keys d ++ [table e]) ++
            map table (filter (fun e => has_rows self e = true) es));
          [f_equal; exact Hk | rewrite <- app_assoc; reflexivity].
Qed.

Lemma toDict_tables_nonempty (sk fu ik : bool) (self : TerritorialData)
    (d : DictData) :
  toDict sk fu ik self = Ok d ->
  Forall (fun tbl : TableData => tbl <> []) (values d).
Proof.
  unfold toDict.
  apply (for_each_invariant
    (fun d : DictData => Forall (fun tbl : TableData => tbl <> [])
                                (values d))); [|constructor].
  intros e d0 d1 _ Hd0 Hstep.
  apply entity_step_inv in Hstep as [[_ ->]|(tbl & _ & Htbl & ->)];
    [exact Hd0|]. apply od_set_Forall; assumption.
Qed.

Lemma row_step_succeeds (sk fu ik : bool) (e : Entity) (row : Row)
    (tbl : TableData) :
  succeeds (row_item sk fu ik e row) -> succeeds (row_step sk fu ik e tbl row).
Proof.
  intros [item Hitem]. unfold row_step. rewrite Hitem. simpl. eexists.
  reflexivity.
Qed.

(** C4. For every tree holding the six tables and every combination of
    the flags: the keys of the result of [toDict] are the table names of the
    entities that have rows, in the order of [entities]; a table without
    rows has no entry, no entry is an empty table, and [toDict] returns
    whenever each row of the tree can be converted, as no condition bears on
    a table without rows. *)
Theorem toDict_omits_empty_tables (sk fu ik : bool) (self : TerritorialData) :
  (forall e, e ∈ entities -> is_Some (_dict self !! table e)) ->
  (forall d : DictData, toDict sk fu ik self = Ok d ->
     keys d = map table (filter (fun e => has_rows self e = true) entities)
     /\ (forall e, e ∈ entities -> _dict self !! table e = Some [] ->
          od_get str_eqb (table e) d = None)
     /\ Forall (fun tbl : TableData => tbl <> []) (values d))
  /\ ((forall e rows row,
         e ∈ entities -> _dict self !! table e = Some rows -> row ∈ rows ->
         succeeds (row_item sk fu ik e row)) ->
      succeeds (toDict sk fu ik self)).
Proof.
  intros Hloaded. split.
  - intros d Hd.
    assert (Hkeys : keys d =
              map table (filter (fun e => has_rows self e = true) entities)).
    { apply (entities_keys sk fu ik self entities [] d
               entities_tables_NoDup); [|exact Hd].
      intros e _ Hin. inversion Hin. }
    split; [exact Hkeys|]. split.
    + intros e He Hempty.
      destruct (od_get str_eqb (table e) d) as [tbl|] eqn:Hget;
        [|reflexivity].
      assert (Hin : table e ∈ keys d) by (apply od_get_elem_of; eauto).
      rewrite Hkeys in Hin. apply list_elem_of_fmap in Hin as (e' & Heq & He').
      apply list_elem_of_filter in He' as [Hrows He'].
      assert (e' = e) as ->.
      { revert Heq He He'. generalize entities_tables_NoDup.
        generalize entities. intros es Hnd Heq He He'.
        apply list_elem_of_lookup in He as [i Hi].
        apply list_elem_of_lookup in He' as [j Hj].
        assert (i = j) as ->.
        { eapply NoDup_lookup; [exact Hnd| |];
            rewrite list_lookup_fmap; [rewrite Hi|rewrite Hj]; simpl;
            [reflexivity | congruence]. }
        congruence. }
      unfold has_rows in Hrows. rewrite Hempty in Hrows. discriminate.
    + eapply toDict_tables_nonempty, Hd.
  - intros Hrows. unfold toDict. apply for_each_succeeds.
    intros e d He. unfold entity_step.
    destruct (Hloaded e He) as [rows Hlook]. rewrite Hlook.
    cbn [key_error mbind result_bind].
    destruct rows as [|row rows]; [eexists; reflexivity|].
    destruct (for_each_succeeds (row_step sk fu ik e) (row :: rows))
      with (s := @nil (pyval * RowData)) as [tbl Htbl].
    + intros r t Hr. apply row_step_succeeds. eapply Hrows; eassumption.
    + rewrite Htbl. eexists. reflexivity.
Qed.

(** C10. [toDict] returns only when the tree has an entry for each of the
    six table names; on a tree just constructed, and on one that has only
    been given raw data by [load], it raises [KeyError] at the first table
    instead of returning an empty mapping. *)
Theorem toDict_unloaded (sk fu ik : bool) (self : TerritorialData) :
  (succeeds (toDict sk fu ik self) ->
     forall e, e ∈ entities -> is_Some (_dict self !! table e))
  /\ (forall (base : Struct) (rawdata : string),
        toDict sk fu ik (__init__ base) = Raise (KeyError "uf")
        /\ toDict sk fu ik (load (__init__ base) rawdata) =
             Raise (KeyError "uf")).
Proof.
  split.
  - unfold toDict. generalize (@nil (string * TableData)).
    induction entities as [|e es IH]; intros d [d' Hd] e' He'.
    + inversion He'.
    + cbn [for_each] in Hd. apply bind_Ok in Hd as (d1 & Hstep & Hd).
      apply elem_of_cons in He' as [->|He'].
      * unfold entity_step in Hstep.
        apply bind_Ok in Hstep as (rows & Hrows & _).
        apply key_error_Ok in Hrows. eauto.
      * apply (IH d1); [eexists; exact Hd | exact He'].
  - intros base rawdata. split; reflexivity.
Qed.

(** *** [TerritorialBase.export] *)

Section ExportFacts.

Variable FORMATS : gmap string Exporter.
Variable utf8_decode : string -> result (list Z).
Variable writable : string -> bool.
Variable encodes : stream -> list Z -> bool.

Lemma logger_run (level : log_level) (msg : string) (w : World) :
  exists w', logger level msg w = (Ok tt, w')
             /\ self w' = self w /\ files w' = files w
             /\ stdout w' = stdout w.
Proof. eexists. split; [reflexivity|]. simpl. auto. Qed.

(** C3. For a format name that the registry does not have, [export] raises
    the exception ['Unsupported output format.'] and changes nothing: no
    file, no output, no log message, and the database object is as it
    was. *)
Theorem export_unsupported (format : string) (minified : bool)
    (filename : option string) (w : World) :
  FORMATS !! format = None ->
  export FORMATS utf8_decode writable encodes format minified filename w =
    (Raise (Exception "Unsupported output format."), w).
Proof. intros Hnone. unfold export. rewrite Hnone. reflexivity. Qed.

(** C8. When [export] returns, the format is registered and the exported
    content (the exporter's data, decoded to text for a text format) has
    gone to exactly one place: with a file name, to the file of that name,
    or to ['dtb' + extension] when the name is ['auto'], the standard
    output being untouched; without one, to the standard output, no file
    being touched. *)
Theorem export_destination (format : string) (minified : bool)
    (filename : option string) (w w' : World) :
  export FORMATS utf8_decode writable encodes format minified filename w
    = (Ok tt, w') ->
  exists (exporter : Exporter) (raw data : pyval),
    FORMATS !! format = Some exporter
    /\ exporter_data exporter (_data (self w)) minified = Ok raw
    /\ (if negb (binary_format exporter) && negb (isinstance_unicode raw)
        then decode_utf8 utf8_decode raw else Ok raw) = Ok data
    /\ self w' = self w
    /\ match filename with
       | Some f =>
           if decide (f = "") then
             files w' = files w /\ stdout w' = stdout w ++ [data]
           else if decide (f = "auto") then
             files w' = <["dtb" +:+ extension exporter := data]> (files w)
             /\ stdout w' = stdout w
           else
             files w' = <[f := data]> (files w) /\ stdout w' = stdout w
       | None => files w' = files w /\ stdout w' = stdout w ++ [data]
       end.
Proof.
  unfold export. destruct (FORMATS !! format) as [exporter|];
    [|discriminate].
  intros Hrun. exists exporter.
  set (msg := if minified then _ else _) in Hrun.
  unfold mbind at 1 in Hrun. unfold IO_bind in Hrun.
  assert (Hlog : exists w1, msg w = (Ok tt, w1) /\ self w1 = self w
             /\ files w1 = files w /\ stdout w1 = stdout w).
  { unfold msg. destruct minified; apply logger_run. }
  destruct Hlog as (w1 & Hw1 & Hs1 & Hf1 & Ho1). rewrite Hw1 in Hrun.
  unfold mbind at 1 in Hrun. unfold IO_bind, get_self in Hrun.
  unfold mbind at 1 in Hrun. unfold IO_bind, lift at 1 in Hrun.
  rewrite Hs1 in Hrun.
  destruct (exporter_data exporter (_data (self w)) minified) as [raw|];
    [|discriminate].
  exists raw.
  unfold mbind at 1 in Hrun. unfold IO_bind in Hrun.
  set (coerced := if negb (binary_format exporter)
                     && negb (isinstance_unicode raw)
                  then decode_utf8 utf8_decode raw else Ok raw).
  assert (Hco : (if negb (binary_format exporter)
                    && negb (isinstance_unicode raw)
                 then lift (decode_utf8 utf8_decode raw) else mret raw) w1
                = (coerced, w1)).
  { unfold coerced.
    destruct (negb (binary_format exporter) && negb (isinstance_unicode raw));
      reflexivity. }
  rewrite Hco in Hrun. destruct coerced as [data|] eqn:Hdata;
    [|discriminate].
  exists data. split; [reflexivity|]. split; [reflexivity|].
  split; [reflexivity|].
  unfold mbind in Hrun. unfold IO_bind in Hrun.
  destruct (logger_run DEBUG "Done." w1) as (w2 & Hw2 & Hs2 & Hf2 & Ho2).
  rewrite Hw2 in Hrun.
  assert (Hout : forall v, stdout_write encodes data w2 = (Ok tt, v) ->
            self v = self w /\ files v = files w
            /\ stdout v = stdout w ++ [data]).
  { intros v Hv. unfold stdout_write in Hv.
    destruct data as [| |s|u]; try discriminate;
      [|destruct (encodes StandardOutput u); [|discriminate]];
      injection Hv as <-; simpl;
      rewrite Hs2, Hs1, Hf2, Hf1, Ho2, Ho1; auto. }
  assert (Hfile : forall name v,
            open_write writable encodes name (binary_format exporter) data w2
              = (Ok tt, v) ->
            self v = self w /\ files v = <[name := data]> (files w)
            /\ stdout v = stdout w).
  { intros name v Hv. unfold open_write in Hv.
    destruct (writable name); [|discriminate]. simpl in Hv.
    destruct (binary_format exporter), data as [| |s|u]; try discriminate;
      [|destruct (encodes TextFile u); [|discriminate]];
      injection Hv as <-; simpl; rewrite Hs2, Hs1, Hf2, Hf1, Ho2, Ho1; auto. }
  destruct filename as [f|]; simpl in Hrun.
  - destruct (decide (f = "")) as [->|Hne].
    + simpl in Hrun. apply Hout in Hrun. tauto.
    + assert (Hb : str_eqb f "" = false) by (apply str_eqb_neq; exact Hne).
      rewrite Hb in Hrun. simpl in Hrun.
      destruct (decide (f = "auto")) as [->|Hna].
      * rewrite str_eqb_refl in Hrun. apply Hfile in Hrun. tauto.
      * assert (Hb' : str_eqb f "auto" = false)
          by (apply str_eqb_neq; exact Hna).
        rewrite Hb' in Hrun. apply Hfile in Hrun. tauto.
  - apply Hout in Hrun. tauto.
Qed.

End ExportFacts.

End EntitiesProps.

(** ** Closed instances of the tree and export properties *)

Module EntitiesExamples.
Import Entities EntitiesSpec EntitiesProps Samples.

Lemma toDict_one_state :
  toDict false false true one_state = Ok one_state_dict.
Proof. vm_compute. reflexivity. Qed.

Lemma toDict_includeKey_witness :
  toDict false false false one_state =
    Ok [("uf", [(PInt 35, [("nome", PStr "Sao Paulo")])])]
  /\ Forall (fun tbl : TableData =>
              Forall (fun rd : RowData =>
                        NoDup (keys rd) /\ ("id" ∈ keys rd)
                        /\ ("id" ∉ keys (strip rd))
                        /\ keys (strip rd) =
                             filter (fun k => k <> "id") (keys rd)
                        /\ length rd = S (length (strip rd)))
                     (values tbl))
            (values one_state_dict).
Proof.
  destruct (toDict_includeKey false false one_state) as (Hrel & _ & Hrows).
  split.
  - rewrite Hrel. vm_compute. reflexivity.
  - apply Hrows. vm_compute. reflexivity.
Defined.

Lemma one_state_loaded (e : Entity) :
  e ∈ entities -> is_Some (_dict one_state !! table e).
Proof.
  intros He. unfold entities in He.
  repeat (apply elem_of_cons in He as [->|He]);
    [vm_compute; eauto ..|inversion He].
Defined.

Lemma toDict_omits_empty_tables_witness :
  (forall d : DictData, toDict true true true one_state = Ok d ->
     keys d = ["uf"])
  /\ (forall e, e ∈ entities -> _dict one_state !! table e = Some [] ->
      od_get str_eqb (table e) one_state_dict = None).
Proof.
  destruct (toDict_omits_empty_tables true true true one_state
              one_state_loaded) as [Hkeys _].
  destruct (toDict_omits_empty_tables false false true one_state
              one_state_loaded) as [Hkeys' _].
  split.
  - intros d Hd. apply Hkeys in Hd as [Hd _]. exact Hd.
  - apply (Hkeys' one_state_dict). vm_compute. reflexivity.
Defined.

Lemma toDict_unloaded_witness :
  is_Some (_dict one_state !! "subdistrito")
  /\ toDict false false false (__init__ base_2014) = Raise (KeyError "uf").
Proof.
  destruct (toDict_unloaded false false true one_state) as [Hreq _].
  destruct (toDict_unloaded false false false one_state) as [_ Hnew].
  split.
  - apply (Hreq (ex_intro _ one_state_dict toDict_one_state) Subdistrito).
    unfold entities. repeat (first [left | right]).
  - apply (Hnew base_2014 ""). 
Defined.

Lemma export_unsupported_witness :
  export registry ascii_decode any_file ascii_streams "fictional-format" false
         (Some "auto") world
  = (Raise (Exception "Unsupported output format."), world).
Proof.
  apply export_unsupported. vm_compute. reflexivity.
Defined.

Lemma export_destination_witness :
  files (snd (export registry ascii_decode any_file ascii_streams "csv" false
                     (Some "auto") world)) !! "dtb.csv"
    = Some (PUnicode (codes "id,nome"))
  /\ stdout (snd (export registry ascii_decode any_file ascii_streams "csv" true
                        None world)) = [PUnicode (codes "id,nome")].
Proof.
  split.
  - destruct (export_destination registry ascii_decode any_file ascii_streams "csv" false
                (Some "auto") world
                (snd (export registry ascii_decode any_file ascii_streams "csv" false
                             (Some "auto") world)))
      as (exporter & raw & data & Hreg & Hraw & Hdata & _ & Hfiles).
    + vm_compute. reflexivity.
    + vm_compute in Hreg. injection Hreg as <-.
      simpl in Hraw. injection Hraw as <-.
      vm_compute in Hdata. injection Hdata as <-.
      simpl in Hfiles. destruct Hfiles as [Hfiles _].
      rewrite Hfiles. apply lookup_insert_eq.
  - destruct (export_destination registry ascii_decode any_file ascii_streams "csv" true
                None world
                (snd (export registry ascii_decode any_file ascii_streams "csv" true
                             None world)))
      as (exporter & raw & data & Hreg & Hraw & Hdata & _ & _ & Hout).
    + vm_compute. reflexivity.
    + vm_compute in Hreg. injection Hreg as <-.
      simpl in Hraw. injection Hraw as <-.
      vm_compute in Hdata. injection Hdata as <-.
      rewrite Hout. reflexivity.
Defined.

End EntitiesExamples.

(** ** Properties of the XML encoder *)

Module XmlProps.
Import Entities EntitiesSpec EntitiesProps Serializers Xml XmlSpec.

(** *** Strings, comments and names *)

Lemma codes_app (a b : string) : codes (a +:+ b) = codes a ++ codes b.
Proof.
  unfold codes. induction a as [|c a IH]; simpl; [reflexivity|].
  f_equal. exact IH.
Qed.

Lemma has_double_dash_eq (c : Z) (u : list Z) :
  has_double_dash (c :: u) =
    match u with
    | d :: _ => (c =? 45) && (d =? 45) || has_double_dash u
    | [] => false
    end.
Proof.
  destruct (Z.eqb_spec c 45) as [->|Hc].
  - destruct u as [|d u]; [reflexivity|].
    destruct (Z.eqb_spec d 45) as [->|Hd]; [reflexivity|].
    cbn [andb orb].
    destruct d as [|p|p]; try reflexivity.
    do 6 (try destruct p as [p|p|]); try reflexivity. congruence.
  - assert (H : has_double_dash (c :: u) = has_double_dash u).
    { destruct c as [|p|p]; try reflexivity.
      do 6 (try destruct p as [p|p|]); try reflexivity. congruence. }
    rewrite H. destruct u; reflexivity.
Qed.

Lemma has_double_dash_other (c : Z) (u : list Z) :
  c <> 45 -> has_double_dash (c :: u) = has_double_dash u.
Proof.
  intros Hc. rewrite has_double_dash_eq.
  destruct u as [|d u]; [reflexivity|].
  destruct (Z.eqb_spec c 45); [contradiction | reflexivity].
Qed.

Lemma has_double_dash_space (u : list Z) :
  has_double_dash (u ++ [32]) = has_double_dash u.
Proof.
  induction u as [|c u IH]; [reflexivity|].
  cbn [app]. rewrite !has_double_dash_eq.
  destruct u as [|d u].
  - cbn [app]. rewrite andb_false_r. reflexivity.
  - cbn [app] in *. rewrite IH. reflexivity.
Qed.

(** The text of the comment of a table is refused exactly when the name of
    the table is. *)
Lemma table_comment (name : string) :
  make_comment (text_of (" Table " +:+ name +:+ " ")) =
    if xml_compatible (codes name) && negb (has_double_dash (codes name))
    then Ok (Comment (codes (" Table " +:+ name +:+ " ")))
    else Raise ValueError.
Proof.
  unfold make_comment, text_of. cbn [xml_string].
  rewrite !codes_app.
  assert (Hx : xml_compatible (codes " Table " ++ codes name ++ codes " ")
               = xml_compatible (codes name)).
  { unfold xml_compatible. rewrite !forallb_app.
    change (forallb xml_char (codes " Table ")) with true.
    change (forallb xml_char (codes " ")) with true.
    rewrite andb_true_r. reflexivity. }
  assert (Hd : has_double_dash (codes " Table " ++ codes name ++ codes " ")
               = has_double_dash (codes name)).
  { change (codes " ") with [32]. change (codes " Table ")
      with [32; 84; 97; 98; 108; 101; 32]. cbn [app].
    rewrite !has_double_dash_other by discriminate.
    apply has_double_dash_space. }
  assert (Hl : last (codes " Table " ++ codes name ++ codes " ") = Some 32).
  { rewrite !app_assoc. change (codes " ") with [32]. apply last_snoc. }
  rewrite Hx. destruct (xml_compatible (codes name)); [|reflexivity].
  cbn [mbind result_bind andb]. rewrite Hd, Hl.
  rewrite bool_decide_eq_false_2 by discriminate.
  rewrite orb_false_r. destruct (has_double_dash (codes name)); reflexivity.
Qed.

Lemma xml_name (name : string) :
  xml_string (text_of name) =
    if xml_compatible (codes name) then Ok (codes name) else Raise ValueError.
Proof. reflexivity. Qed.

(** *** The shape of the tree, as the specification words it *)

Lemma xml_string_text_value (v : pyval) (u : list Z) :
  xml_string v = Ok u -> text_value v = Some u.
Proof.
  destruct v as [|z|s|w]; try discriminate; simpl.
  - destruct (is_ascii (codes s) && xml_compatible (codes s)); congruence.
  - destruct (xml_compatible w); congruence.
Qed.

(** Setting the text of a new element: done exactly for an accepted
    value. *)
Lemma set_text_new (value : pyval) (tag : string)
    (attrib : list (string * list Z)) :
  set_text value (Element tag attrib None []) =
    if value_accepted value
    then Ok (Element tag attrib (text_value value) [])
    else Raise (match value with PInt _ => TypeError | _ => ValueError end).
Proof.
  destruct value as [|z|s|w]; simpl; try reflexivity.
  - destruct (is_ascii (codes s) && xml_compatible (codes s)); reflexivity.
  - destruct (xml_compatible w); reflexivity.
Qed.

(** A change made through the reference that [SubElement] returned. *)
Lemma on_last_SubElement (change : node -> result node) (tag tag' : string)
    (attrib attrib' : list (string * list Z)) (text : option (list Z))
    (children : list node) :
  on_last change (SubElement (Element tag attrib text children) tag' attrib')
  = child ← change (Element tag' attrib' None []);
    Ok (Element tag attrib text (children ++ [child])).
Proof.
  unfold SubElement, append, on_last.
  rewrite last_snoc, removelast_last. reflexivity.
Qed.

(** One step of the loop over the fields: the element of the field is
    added exactly when its name and its value are accepted; an integer
    value under an accepted name raises [TypeError]. *)
Lemma field_step_eq (tag : string) (attrib : list (string * list Z))
    (text : option (list Z)) (children : list node)
    (item : string * pyval) :
  field_step (Element tag attrib text children) item =
    if xml_compatible (codes item.1) then
      if value_accepted item.2
      then Ok (Element tag attrib text (children ++ [field_node item]))
      else Raise (match item.2 with PInt _ => TypeError | _ => ValueError end)
    else Raise ValueError.
Proof.
  destruct item as [column_name column_value]. unfold field_step.
  rewrite xml_name. cbn [fst snd].
  destruct (xml_compatible (codes column_name)); [|reflexivity].
  cbn [mbind result_bind]. rewrite on_last_SubElement, set_text_new.
  destruct (value_accepted column_value); reflexivity.
Qed.

Lemma field_step_built (tag : string) (attrib : list (string * list Z))
    (text : option (list Z)) (children : list node)
    (item : string * pyval) (r : node) :
  field_step (Element tag attrib text children) item = Ok r ->
  r = Element tag attrib text (children ++ [field_node item]).
Proof.
  rewrite field_step_eq.
  destruct (xml_compatible (codes item.1)), (value_accepted item.2);
    congruence.
Qed.

Lemma fields_built (row_data : RowData) :
  forall tag attrib text children r,
    for_each field_step row_data (Element tag attrib text children) = Ok r ->
    r = Element tag attrib text (children ++ map field_node row_data).
Proof.
  induction row_data as [|item rd IH]; intros tag attrib text children r H.
  - simpl in H. injection H as <-. simpl. rewrite app_nil_r. reflexivity.
  - cbn [for_each] in H. apply bind_Ok in H as (r1 & Hstep & H).
    apply field_step_built in Hstep. subst r1.
    apply IH in H. rewrite <- app_assoc in H. exact H.
Qed.

Lemma row_step_built (tag : string) (attrib : list (string * list Z))
    (text : option (list Z)) (children : list node) (row_data : RowData)
    (r : node) :
  row_step (Element tag attrib text children) row_data = Ok r ->
  r = Element tag attrib text (children ++ [row_node row_data]).
Proof.
  unfold row_step. rewrite on_last_SubElement. intros H.
  apply bind_Ok in H as (row & Hrow & H). apply fields_built in Hrow.
  subst row. injection H as <-. reflexivity.
Qed.

Lemma rows_built (rows : list RowData) :
  forall tag attrib text children r,
    for_each row_step rows (Element tag attrib text children) = Ok r ->
    r = Element tag attrib text (children ++ map row_node rows).
Proof.
  induction rows as [|rd rows IH]; intros tag attrib text children r H.
  - simpl in H. injection H as <-. simpl. rewrite app_nil_r. reflexivity.
  - cbn [for_each] in H. apply bind_Ok in H as (r1 & Hstep & H).
    apply row_step_built in Hstep. subst r1.
    apply IH in H. rewrite <- app_assoc in H. exact H.
Qed.

Lemma table_step_built (tag : string) (attrib : list (string * list Z))
    (text : option (list Z)) (children : list node)
    (item : string * TableData) (r : node) :
  table_step (Element tag attrib text children) item = Ok r ->
  r = Element tag attrib text (children ++ table_nodes item).
Proof.
  destruct item as [table_name rows]. unfold table_step.
  rewrite table_comment, xml_name. intros H.
  destruct (xml_compatible (codes table_name)); [|discriminate].
  destruct (has_double_dash (codes table_name)); [discriminate|].
  cbn [andb negb mbind result_bind append] in H.
  rewrite on_last_SubElement in H.
  apply bind_Ok in H as (table & Htable & H).
  apply rows_built in Htable. subst table.
  injection H as <-. unfold table_nodes. simpl.
  rewrite <- app_assoc. reflexivity.
Qed.

Lemma tables_built (data : DictData) :
  forall tag attrib text children r,
    for_each table_step data (Element tag attrib text children) = Ok r ->
    r = Element tag attrib text (children ++ flat_map table_nodes data).
Proof.
  induction data as [|item data IH]; intros tag attrib text children r H.
  - simpl in H. injection H as <-. simpl. rewrite app_nil_r. reflexivity.
  - cbn [for_each] in H. apply bind_Ok in H as (r1 & Hstep & H).
    apply table_step_built in Hstep. subst r1.
    apply IH in H. rewrite <- app_assoc in H. exact H.
Qed.

(** *** When the tree is built *)

Lemma field_element_succeeds (row : node) (item : string * pyval) :
  field_accepted item -> succeeds (field_step row item).
Proof.
  intros [Hname Hvalue].
  destruct row as [tag attrib text children|u].
  - rewrite field_step_eq, Hname, Hvalue. eexists. reflexivity.
  - destruct item as [c v]. unfold field_step. rewrite xml_name.
    cbn [fst snd] in Hname. rewrite Hname. eexists. reflexivity.
Qed.

Lemma row_element_succeeds (table : node) (row_data : RowData) :
  Forall field_accepted row_data -> succeeds (row_step table row_data).
Proof.
  intros Hrd. unfold row_step.
  destruct table as [tag attrib text children|u]; [|eexists; reflexivity].
  rewrite on_last_SubElement.
  destruct (for_each_succeeds field_step row_data) with
    (s := Element "row" [] None []) as [row ->].
  - intros item s Hitem. apply field_element_succeeds.
    rewrite Forall_forall in Hrd. apply Hrd, Hitem.
  - eexists. reflexivity.
Qed.

Lemma table_element_succeeds (database : node) (item : string * TableData) :
  table_accepted item -> succeeds (table_step database item).
Proof.
  destruct item as [table_name rows].
  intros (Hname & Hdash & Hrows). unfold table_step.
  cbn [fst snd] in Hname, Hdash, Hrows.
  rewrite table_comment, xml_name, Hname, Hdash.
  cbn [andb negb mbind result_bind].
  destruct database as [tag attrib text children|u]; [|eexists; reflexivity].
  cbn [append]. rewrite on_last_SubElement.
  destruct (for_each_succeeds row_step (values rows)) with
    (s := Element "table" [("name", codes table_name)] None [])
    as [table ->].
  - intros rd s Hrd. apply row_element_succeeds.
    rewrite Forall_forall in Hrows. apply Hrows, Hrd.
  - eexists. reflexivity.
Qed.

(** *** Only then is it built *)

Lemma for_each_parts {A S} (P : S -> Prop) (body : S -> A -> result S)
    (l : list A) :
  (forall s a s', P s -> body s a = Ok s' -> P s') ->
  forall s, P s -> succeeds (for_each body l s) ->
    forall a, a ∈ l -> exists s0, P s0 /\ succeeds (body s0 a).
Proof.
  intros Hkeep. induction l as [|x l IH]; intros s Hs [s' Hloop] a Ha.
  - inversion Ha.
  - simpl in Hloop. apply bind_Ok in Hloop as (s1 & Hx & Hrest).
    apply elem_of_cons in Ha as [->|Ha].
    + exists s. split; [exact Hs | exists s1; exact Hx].
    + apply (IH s1); [apply (Hkeep s x), Hx; exact Hs | | exact Ha].
      exists s'. exact Hrest.
Qed.

Lemma field_step_accepted (tag : string) (attrib : list (string * list Z))
    (text : option (list Z)) (children : list node) (item : string * pyval) :
  succeeds (field_step (Element tag attrib text children) item) ->
  field_accepted item.
Proof.
  intros [r Hr]. rewrite field_step_eq in Hr. unfold field_accepted.
  destruct (xml_compatible (codes item.1)), (value_accepted item.2);
    try discriminate. split; reflexivity.
Qed.

Lemma row_step_accepted (tag : string) (attrib : list (string * list Z))
    (text : option (list Z)) (children : list node) (row_data : RowData) :
  succeeds (row_step (Element tag attrib text children) row_data) ->
  Forall field_accepted row_data.
Proof.
  intros [r Hr]. unfold row_step in Hr. rewrite on_last_SubElement in Hr.
  apply bind_Ok in Hr as (child & Hloop & _).
  apply Forall_forall. intros item Hitem.
  destruct (for_each_parts (fun n => is_comment n = false) field_step
              row_data) with (s := Element "row" [] None []) (a := item)
    as (s0 & Hs0 & Hstep); try reflexivity; try exact Hitem.
  - intros s a s' Hs Hstep. destruct s; [|discriminate].
    apply field_step_built in Hstep. subst s'. reflexivity.
  - exists child. exact Hloop.
  - destruct s0; [|discriminate]. apply (field_step_accepted _ _ _ _ _ Hstep).
Qed.

Lemma table_step_accepted (tag : string) (attrib : list (string * list Z))
    (text : option (list Z)) (children : list node)
    (item : string * TableData) :
  succeeds (table_step (Element tag attrib text children) item) ->
  table_accepted item.
Proof.
  destruct item as [name rows]. intros [r Hr]. unfold table_step in Hr.
  rewrite table_comment, xml_name in Hr. unfold table_accepted.
  cbn [fst snd].
  destruct (xml_compatible (codes name)); [|discriminate].
  destruct (has_double_dash (codes name)); [discriminate|].
  cbn [andb negb mbind result_bind append] in Hr.
  rewrite on_last_SubElement in Hr.
  apply bind_Ok in Hr as (child & Hloop & _).
  split; [reflexivity|]. split; [reflexivity|].
  apply Forall_forall. intros row_data Hrow.
  destruct (for_each_parts (fun n => is_comment n = false) row_step
              (values rows))
    with (s := Element "table" [("name", codes name)] None [])
         (a := row_data)
    as (s0 & Hs0 & Hstep); try reflexivity; try exact Hrow.
  - intros s a s' Hs Hstep. destruct s; [|discriminate].
    apply row_step_built in Hstep. subst s'. reflexivity.
  - exists child. exact Hloop.
  - destruct s0; [|discriminate]. apply (row_step_accepted _ _ _ _ _ Hstep).
Qed.

(** The tree is built exactly from accepted data, and then it is the tree
    of the specification. *)
Lemma build_cases (dataset_name : list Z) (data : DictData)
    (database : node) :
  build dataset_name data = Ok database <->
  xml_compatible dataset_name = true
  /\ Forall table_accepted data
  /\ database = Element "database" [("name", dataset_name)] None
                        (flat_map table_nodes data).
Proof.
  unfold build. cbn [xml_string]. split.
  - intros Hbuild.
    destruct (xml_compatible dataset_name); [|discriminate].
    cbn [mbind result_bind] in Hbuild. split; [reflexivity|]. split.
    + apply Forall_forall. intros item Hitem.
      destruct (for_each_parts (fun n => is_comment n = false) table_step
                  data)
        with (s := Element "database" [("name", dataset_name)] None [])
             (a := item)
        as (s0 & Hs0 & Hstep); try reflexivity; try exact Hitem.
      * intros s a s' Hs Hstep. destruct s; [|discriminate].
        apply table_step_built in Hstep. subst s'. reflexivity.
      * exists database. exact Hbuild.
      * destruct s0; [|discriminate].
        apply (table_step_accepted _ _ _ _ _ Hstep).
    + apply tables_built in Hbuild. exact Hbuild.
  - intros (Hname & Hall & ->). rewrite Hname. cbn [mbind result_bind].
    destruct (for_each_succeeds table_step data) with
      (s := Element "database" [("name", dataset_name)] None [])
      as [database Hloop].
    + intros item s Hitem. apply table_element_succeeds.
      exact (proj1 (Forall_forall _ _) Hall item Hitem).
    + rewrite Hloop. f_equal. apply tables_built in Hloop. exact Hloop.
Qed.

(** *** The encoder *)





End XmlProps.

(** ** Closed instances of the XML encoder *)

Module XmlExamples.
Import Entities EntitiesSpec EntitiesProps Serializers Xml XmlSpec XmlProps Samples.




(** A name outside ASCII is text like any other: the tree of a table
    whose name starts with the letter [U+00ED] is built. *)
Lemma build_accented_name :
  build (codes "dtb")
        [(String.String (ascii_of_nat 237) "ndice", [])]
  = Ok (Element "database" [("name", codes "dtb")] None
          [Comment ([32; 84; 97; 98; 108; 101; 32; 237; 110; 100; 105; 99;
                     101; 32]);
           Element "table" [("name", [237; 110; 100; 105; 99; 101])]
                   None []]).
Proof. vm_compute. reflexivity. Qed.

End XmlExamples.

(** ** Properties of the MessagePack exporter *)

Module MsgpackProps.
Import Entities EntitiesProps Msgpack MsgpackSpec.

(** *** Words *)

Lemma Z_of_byte_tag (t : Z) : 0 <= t < 256 -> Z_of_byte (byte_of_Z t) = t.
Proof. intros Ht. rewrite Z_of_byte_of_Z. apply Z.mod_small, Ht. Qed.

Lemma be_value_snoc (bs : list byte) (b : byte) :
  be_value (bs ++ [b]) = be_value bs * 256 + Z_of_byte b.
Proof. unfold be_value. rewrite fold_left_app. reflexivity. Qed.

Lemma be_bytes_length (n : nat) (z : Z) : length (be_bytes n z) = n.
Proof.
  revert z. induction n as [|n IH]; intros z; [reflexivity|].
  simpl. rewrite length_app, IH. simpl. lia.
Qed.

Lemma be_value_be_bytes (n : nat) (z : Z) :
  be_value (be_bytes n z) = z mod 2 ^ (8 * Z.of_nat n).
Proof.
  revert z. induction n as [|n IH]; intros z.
  - simpl. rewrite Z.mod_1_r. reflexivity.
  - cbn [be_bytes]. rewrite be_value_snoc, IH, Z_of_byte_of_Z.
    replace (8 * Z.of_nat (S n)) with (8 + 8 * Z.of_nat n) by lia.
    rewrite Z.pow_add_r by lia. change (2 ^ 8) with 256.
    assert (Hpos : 0 < 2 ^ (8 * Z.of_nat n)) by (apply Z.pow_pos_nonneg; lia).
    rewrite Z.rem_mul_r by lia. ring.
Qed.

Lemma take_bytes_app (bs rest : list byte) :
  take_bytes (length bs) (bs ++ rest) = Ok (bs, rest).
Proof.
  unfold take_bytes. rewrite length_app.
  destruct (Nat.leb_spec (length bs) (length bs + length rest)); [|lia].
  rewrite take_app_length, drop_app_length. reflexivity.
Qed.

Lemma read_uint_be_bytes (n : nat) (z : Z) (rest : list byte) :
  0 <= z < 2 ^ (8 * Z.of_nat n) ->
  read_uint n (be_bytes n z ++ rest) = Ok (z, rest).
Proof.
  intros Hz. unfold read_uint.
  rewrite <- (be_bytes_length n z) at 1. rewrite take_bytes_app.
  simpl. rewrite be_value_be_bytes, Z.mod_small by exact Hz. reflexivity.
Qed.

Lemma read_int_be_bytes (n : nat) (z : Z) (rest : list byte) :
  (0 < n)%nat ->
  - 2 ^ (8 * Z.of_nat n - 1) <= z < 2 ^ (8 * Z.of_nat n - 1) ->
  decode_int n (be_bytes n z ++ rest) = Ok (MInt z, rest).
Proof.
  intros Hn Hz. unfold decode_int, read_uint.
  rewrite <- (be_bytes_length n z) at 1. rewrite take_bytes_app.
  simpl. rewrite be_value_be_bytes. do 2 f_equal. unfold signed.
  assert (Hp : 2 ^ (8 * Z.of_nat n) = 2 * 2 ^ (8 * Z.of_nat n - 1)).
  { rewrite <- Z.pow_succ_r by lia. f_equal. lia. }
  assert (Hpos : 0 < 2 ^ (8 * Z.of_nat n - 1)) by (apply Z.pow_pos_nonneg; lia).
  rewrite Hp. generalize dependent (2 ^ (8 * Z.of_nat n - 1)).
  intros M Hz _ HM. f_equal. destruct (Z.leb_spec 0 z) as [Hnn|Hneg].
  - rewrite Z.mod_small by lia. destruct (Z.ltb_spec z M); lia.
  - assert (Hm : z mod (2 * M) = z + 2 * M).
    { rewrite <- (Z.mod_add z 1 (2 * M)) by lia.
      rewrite Z.mod_small by lia. lia. }
    rewrite Hm. destruct (Z.ltb_spec (z + 2 * M) M); lia.
Qed.

(** *** Decoding what the packer writes *)

Ltac ztest :=
  repeat match goal with
    | |- context [?a <? ?b] => destruct (Z.ltb_spec a b); try lia
    | |- context [?a <=? ?b] => destruct (Z.leb_spec a b); try lia
    | |- context [?a =? ?b] => destruct (Z.eqb_spec a b); try lia
    end.

Ltac pow2 :=
  repeat match goal with
    | |- context [2 ^ ?e] =>
        let v := eval vm_compute in (2 ^ e) in change (2 ^ e) with v
    end.

Lemma decode_tag (fuel : nat) (t : Z) (rest : list byte) :
  0 <= t < 256 ->
  decode (S fuel) (tag t ++ rest) = decode_body (decode fuel) t rest.
Proof.
  intros Ht. cbn [decode tag app]. rewrite Z_of_byte_tag by exact Ht.
  reflexivity.
Qed.

Lemma decode_uint_be_bytes (n : nat) (z : Z) (rest : list byte) :
  0 <= z < 2 ^ (8 * Z.of_nat n) ->
  decode_uint n (be_bytes n z ++ rest) = Ok (MInt z, rest).
Proof.
  intros Hz. unfold decode_uint. rewrite read_uint_be_bytes by exact Hz.
  reflexivity.
Qed.

Lemma Ok_inj {A} (a b : A) : Ok a = Ok b -> a = b.
Proof. congruence. Qed.

Lemma decode_pack_int (z : Z) (bs : list byte) :
  pack_int z = Ok bs ->
  forall fuel rest, decode (S fuel) (bs ++ rest) = Ok (MInt z, rest).
Proof.
  unfold pack_int. ztest; cbn [andb]; intros Hpack fuel rest;
    try discriminate; apply Ok_inj in Hpack; subst bs;
    rewrite <- ?app_assoc; rewrite decode_tag by lia;
    unfold decode_body; ztest;
    first [ reflexivity
          | repeat f_equal; lia
          | apply decode_uint_be_bytes; pow2; lia
          | apply read_int_be_bytes; [lia | pow2; lia] ].
Qed.

Lemma pack_int_length (z : Z) (bs : list byte) :
  pack_int z = Ok bs -> (1 <= length bs)%nat.
Proof.
  unfold pack_int.
  repeat match goal with
    | |- context [if ?c then _ else _] => destruct c
    end; intros Hpack; try discriminate; apply Ok_inj in Hpack; subst bs;
    rewrite ?length_app; simpl; lia.
Qed.

Lemma decode_pack_raw (b bs : list byte) :
  pack_raw b = Ok bs ->
  (1 <= length bs)%nat
  /\ forall fuel rest, decode (S fuel) (bs ++ rest) = Ok (MRaw b, rest).
Proof.
  unfold pack_raw, raw_header. intros H.
  apply bind_Ok in H as (header & Hh & Hbs). injection Hbs as <-.
  assert (Hraw : forall rest,
            decode_raw (Z.of_nat (length b)) (b ++ rest) = Ok (MRaw b, rest)).
  { intros rest. unfold decode_raw. rewrite Nat2Z.id, take_bytes_app.
    reflexivity. }
  revert Hh.
  ztest; intros Hhead; try discriminate; apply Ok_inj in Hhead;
    subst header;
    (split; [rewrite !length_app; simpl; lia|]); intros fuel rest;
    rewrite <- !app_assoc; rewrite decode_tag by lia;
    unfold decode_body; ztest.
  - replace (160 + Z.of_nat (length b) - 160) with (Z.of_nat (length b))
      by lia. apply Hraw.
  - rewrite read_uint_be_bytes by (pow2; lia). apply Hraw.
  - rewrite read_uint_be_bytes by (pow2; lia). apply Hraw.
Qed.

Lemma decode_array_header (n : Z) (header : list byte) :
  0 <= n -> array_header n = Ok header ->
  (1 <= length header)%nat
  /\ forall fuel rest,
       decode (S fuel) (header ++ rest) =
         r ← decode_array (decode fuel) (Z.to_nat n) rest;
         Ok (MArray r.1, r.2).
Proof.
  unfold array_header. intros Hn.
  ztest; intros Hhead; try discriminate; apply Ok_inj in Hhead;
    subst header;
    (split; [rewrite ?length_app; simpl; lia|]); intros fuel rest;
    rewrite <- ?app_assoc; rewrite decode_tag by lia;
    unfold decode_body; ztest.
  - replace (144 + n - 144) with n by lia. reflexivity.
  - rewrite read_uint_be_bytes by (pow2; lia). reflexivity.
  - rewrite read_uint_be_bytes by (pow2; lia). reflexivity.
Qed.

Lemma decode_map_header (n : Z) (header : list byte) :
  0 <= n -> map_header n = Ok header ->
  (1 <= length header)%nat
  /\ forall fuel rest,
       decode (S fuel) (header ++ rest) =
         r ← decode_map (decode fuel) (Z.to_nat n) rest;
         Ok (MMap r.1, r.2).
Proof.
  unfold map_header. intros Hn.
  ztest; intros Hhead; try discriminate; apply Ok_inj in Hhead;
    subst header;
    (split; [rewrite ?length_app; simpl; lia|]); intros fuel rest;
    rewrite <- ?app_assoc; rewrite decode_tag by lia;
    unfold decode_body; ztest.
  - replace (128 + n - 128) with n by lia. reflexivity.
  - rewrite read_uint_be_bytes by (pow2; lia). reflexivity.
  - rewrite read_uint_be_bytes by (pow2; lia). reflexivity.
Qed.

(** *** The values on the wire *)

Lemma pyobj_induction (P : pyobj -> Prop) :
  P ONone -> (forall b, P (OBool b)) -> (forall z, P (OInt z)) ->
  (forall u, P (OStr u)) -> (forall b, P (OBytes b)) ->
  (forall l, Forall P l -> P (OList l)) ->
  (forall items, Forall (fun kv => P kv.1 /\ P kv.2) items ->
                 P (ODict items)) ->
  forall o, P o.
Proof.
  intros HNone HBool HInt HStr HBytes HList HDict. fix IH 1.
  intros [|b|z|u|b|l|items].
  - exact HNone.
  - apply HBool.
  - apply HInt.
  - apply HStr.
  - apply HBytes.
  - apply HList. induction l as [|x l IHl]; constructor;
      [apply IH | exact IHl].
  - apply HDict. induction items as [|[k v] items IHl]; constructor;
      [split; apply IH | exact IHl].
Qed.

Lemma decode_pack_all (l : list pyobj) :
  Forall decodes_back l ->
  forall body, pack_all packb l = Ok body ->
    exists ms, wire_all wire l = Ok ms
      /\ forall fuel rest, (length body <= fuel)%nat ->
           decode_array (decode fuel) (length l) (body ++ rest)
             = Ok (ms, rest).
Proof.
  induction 1 as [|x l Hx _ IH]; intros body Hbody.
  - apply Ok_inj in Hbody. subst body. exists []. split; reflexivity.
  - cbn [pack_all] in Hbody.
    apply bind_Ok in Hbody as (bx & Hbx & Hbody).
    apply bind_Ok in Hbody as (brest & Hrest & Hbody).
    apply Ok_inj in Hbody. subst body.
    destruct (Hx bx Hbx) as (_ & m & Hm & Hdec).
    destruct (IH brest Hrest) as (ms & Hms & Hdecs).
    exists (m :: ms). split.
    + cbn [wire_all]. rewrite Hm, Hms. reflexivity.
    + intros fuel rest Hfuel. rewrite length_app in Hfuel.
      cbn [length decode_array]. rewrite <- app_assoc.
      rewrite Hdec by lia. cbn [mbind result_bind fst snd].
      rewrite Hdecs by lia. reflexivity.
Qed.

Lemma decode_pack_items (items : list (pyobj * pyobj)) :
  Forall (fun kv => decodes_back kv.1 /\ decodes_back kv.2) items ->
  forall body, pack_items packb items = Ok body ->
    exists ms, wire_items wire items = Ok ms
      /\ forall fuel rest, (length body <= fuel)%nat ->
           decode_map (decode fuel) (length items) (body ++ rest)
             = Ok (ms, rest).
Proof.
  induction 1 as [|[k v] items [Hk Hv] _ IH]; intros body Hbody.
  - apply Ok_inj in Hbody. subst body. exists []. split; reflexivity.
  - cbn [pack_items fst snd] in Hbody.
    apply bind_Ok in Hbody as (bk & Hbk & Hbody).
    apply bind_Ok in Hbody as (bv & Hbv & Hbody).
    apply bind_Ok in Hbody as (brest & Hrest & Hbody).
    apply Ok_inj in Hbody. subst body.
    unfold decodes_back in Hk, Hv. cbn [fst snd] in Hk, Hv.
    destruct (Hk bk Hbk) as (_ & mk & Hmk & Hdeck).
    destruct (Hv bv Hbv) as (_ & mv & Hmv & Hdecv).
    destruct (IH brest Hrest) as (ms & Hms & Hdecs).
    exists ((mk, mv) :: ms). split.
    + cbn [wire_items fst snd]. rewrite Hmk, Hmv, Hms. reflexivity.
    + intros fuel rest Hfuel. rewrite !length_app in Hfuel.
      cbn [length decode_map]. rewrite <- !app_assoc.
      rewrite Hdeck by lia. cbn [mbind result_bind fst snd].
      rewrite Hdecv by lia. cbn [mbind result_bind fst snd].
      rewrite Hdecs by lia. reflexivity.
Qed.

(** Decoding inverts packing, for every object that can be packed. *)
Lemma packb_decodes_back (o : pyobj) : decodes_back o.
Proof.
  induction o as [|b|z|u|b|l IHl|items IHitems] using pyobj_induction;
    intros bs Hbs; cbn [packb] in Hbs.
  - apply Ok_inj in Hbs. subst bs. split; [simpl; lia|].
    exists MNil. split; [reflexivity|]. intros [|fuel] rest Hfuel;
      [simpl in Hfuel; lia|]. rewrite decode_tag by lia. reflexivity.
  - apply Ok_inj in Hbs. subst bs. split; [simpl; lia|].
    exists (MBool b). split; [reflexivity|]. intros [|fuel] rest Hfuel;
      [simpl in Hfuel; lia|].
    destruct b; rewrite decode_tag by lia; reflexivity.
  - split; [eapply pack_int_length, Hbs|].
    exists (MInt z). split; [reflexivity|]. intros [|fuel] rest Hfuel.
    + apply pack_int_length in Hbs. lia.
    + apply decode_pack_int, Hbs.
  - apply bind_Ok in Hbs as (b & Hb & Hbs).
    apply decode_pack_raw in Hbs as [Hlen Hdec]. split; [exact Hlen|].
    exists (MRaw b). split; [cbn [wire]; rewrite Hb; reflexivity|].
    intros [|fuel] rest Hfuel; [lia | apply Hdec].
  - apply decode_pack_raw in Hbs as [Hlen Hdec]. split; [exact Hlen|].
    exists (MRaw b). split; [reflexivity|].
    intros [|fuel] rest Hfuel; [lia | apply Hdec].
  - apply bind_Ok in Hbs as (header & Hheader & Hbs).
    apply bind_Ok in Hbs as (body & Hbody & Hbs).
    apply Ok_inj in Hbs. subst bs.
    apply decode_array_header in Hheader as [Hlen Hdec]; [|lia].
    destruct (decode_pack_all l IHl body Hbody) as (ms & Hms & Hdecs).
    split; [rewrite length_app; lia|].
    exists (MArray ms). split; [cbn [wire]; rewrite Hms; reflexivity|].
    intros [|fuel] rest Hfuel; rewrite length_app in Hfuel; [lia|].
    rewrite <- app_assoc, Hdec, Nat2Z.id, Hdecs by lia. reflexivity.
  - apply bind_Ok in Hbs as (header & Hheader & Hbs).
    apply bind_Ok in Hbs as (body & Hbody & Hbs).
    apply Ok_inj in Hbs. subst bs.
    apply decode_map_header in Hheader as [Hlen Hdec]; [|lia].
    destruct (decode_pack_items items IHitems body Hbody)
      as (ms & Hms & Hdecs).
    split; [rewrite length_app; lia|].
    exists (MMap ms). split; [cbn [wire]; rewrite Hms; reflexivity|].
    intros [|fuel] rest Hfuel; rewrite length_app in Hfuel; [lia|].
    rewrite <- app_assoc, Hdec, Nat2Z.id, Hdecs by lia. reflexivity.
Qed.

Lemma unpack_packb (o : pyobj) (bs : list byte) :
  packb o = Ok bs -> exists m, wire o = Ok m /\ unpack bs = Ok m.
Proof.
  intros Hbs. destruct (packb_decodes_back o bs Hbs) as (_ & m & Hm & Hdec).
  exists m. split; [exact Hm|]. unfold unpack.
  rewrite <- (app_nil_r bs) at 2. rewrite Hdec by lia. reflexivity.
Qed.

(** *** The normalized structure on the wire *)

Lemma wire_items_map {A} (g : A -> pyobj * pyobj)
    (h : A -> result (msg * msg)) (l : list A) :
  (forall a, h a = (k ← wire (g a).1; v ← wire (g a).2; Ok (k, v))) ->
  wire_items wire (map g l) = mapM h l.
Proof.
  intros Hgh. induction l as [|a l IH]; [reflexivity|].
  cbn [map wire_items mapM]. rewrite Hgh, IH.
  destruct (wire (g a).1) as [k|]; [|reflexivity]. cbn [mbind result_bind].
  destruct (wire (g a).2) as [v|]; reflexivity.
Qed.

Lemma wire_obj_of_value (v : pyval) : wire (obj_of_value v) = value_msg v.
Proof. destruct v; reflexivity. Qed.

Lemma wire_normalize (data : DictData) :
  wire (normalize data) = msg_of_data data.
Proof.
  unfold normalize, msg_of_data. cbn [wire].
  rewrite (wire_items_map _ table_msg); [reflexivity|].
  intros [t rows]. unfold table_msg. cbn [fst snd wire].
  rewrite (wire_items_map _ row_msg); [reflexivity|].
  intros [key rd]. unfold row_msg. cbn [fst snd wire].
  rewrite wire_obj_of_value.
  rewrite (wire_items_map _ field_msg); [reflexivity|].
  intros [c v]. unfold field_msg. cbn [fst snd].
  rewrite wire_obj_of_value. reflexivity.
Qed.

(** *** When the packer returns *)

Lemma pack_int_succeeds (z : Z) :
  - 2 ^ 63 <= z < 2 ^ 64 -> succeeds (pack_int z).
Proof.
  intros Hz. unfold pack_int. pow2.
  change (2 ^ 63) with 9223372036854775808 in Hz.
  change (2 ^ 64) with 18446744073709551616 in Hz.
  ztest; cbn [andb]; eexists; reflexivity.
Qed.

Lemma pack_raw_succeeds (b : list byte) :
  Z.of_nat (length b) < 2 ^ 32 -> succeeds (pack_raw b).
Proof.
  intros Hb. unfold pack_raw, raw_header.
  change (2 ^ 32) with 4294967296 in Hb.
  ztest; eexists; reflexivity.
Qed.

Lemma array_header_succeeds (n : Z) :
  n < 2 ^ 32 -> succeeds (array_header n).
Proof.
  intros Hn. unfold array_header. change (2 ^ 32) with 4294967296 in Hn.
  ztest; eexists; reflexivity.
Qed.

Lemma map_header_succeeds (n : Z) : n < 2 ^ 32 -> succeeds (map_header n).
Proof.
  intros Hn. unfold map_header. change (2 ^ 32) with 4294967296 in Hn.
  ztest; eexists; reflexivity.
Qed.

Lemma pack_all_succeeds (l : list pyobj) :
  Forall packs l ->
  forall ms, wire_all wire l = Ok ms -> forallb fits ms = true ->
    length ms = length l /\ succeeds (pack_all packb l).
Proof.
  induction 1 as [|x l Hx _ IH]; intros ms Hms Hfits.
  - apply Ok_inj in Hms. subst ms. split; [reflexivity|].
    eexists. reflexivity.
  - cbn [wire_all] in Hms. apply bind_Ok in Hms as (m & Hm & Hms).
    apply bind_Ok in Hms as (ms' & Hms' & Hms). apply Ok_inj in Hms.
    subst ms. cbn [forallb] in Hfits.
    apply andb_true_iff in Hfits as [Hfm Hfms].
    destruct (Hx m Hm Hfm) as [bx Hbx].
    destruct (IH ms' Hms' Hfms) as [Hlen [brest Hbrest]].
    split; [simpl; lia|]. cbn [pack_all]. rewrite Hbx, Hbrest.
    eexists. reflexivity.
Qed.

Lemma pack_items_succeeds (items : list (pyobj * pyobj)) :
  Forall (fun kv => packs kv.1 /\ packs kv.2) items ->
  forall ms, wire_items wire items = Ok ms ->
    forallb (fun kv => fits kv.1 && fits kv.2) ms = true ->
    length ms = length items /\ succeeds (pack_items packb items).
Proof.
  induction 1 as [|[k v] items [Hk Hv] _ IH]; intros ms Hms Hfits.
  - apply Ok_inj in Hms. subst ms. split; [reflexivity|].
    eexists. reflexivity.
  - unfold packs in Hk, Hv. cbn [fst snd] in Hk, Hv.
    cbn [wire_items fst snd] in Hms.
    apply bind_Ok in Hms as (mk & Hmk & Hms).
    apply bind_Ok in Hms as (mv & Hmv & Hms).
    apply bind_Ok in Hms as (ms' & Hms' & Hms). apply Ok_inj in Hms.
    subst ms. cbn [forallb fst snd] in Hfits.
    apply andb_true_iff in Hfits as [Hf Hfms].
    apply andb_true_iff in Hf as [Hfk Hfv].
    destruct (Hk mk Hmk Hfk) as [bk Hbk].
    destruct (Hv mv Hmv Hfv) as [bv Hbv].
    destruct (IH ms' Hms' Hfms) as [Hlen [brest Hbrest]].
    split; [simpl; lia|]. cbn [pack_items fst snd].
    rewrite Hbk, Hbv, Hbrest. eexists. reflexivity.
Qed.

Lemma packb_succeeds (o : pyobj) : packs o.
Proof.
  induction o as [|b|z|u|b|l IHl|items IHitems] using pyobj_induction;
    intros m Hm Hfits; cbn [wire] in Hm; cbn [packb].
  - eexists. reflexivity.
  - eexists. reflexivity.
  - apply Ok_inj in Hm. subst m. cbn [fits] in Hfits.
    apply andb_true_iff in Hfits as [Hlo Hhi].
    apply pack_int_succeeds. split; [apply Z.leb_le | apply Z.ltb_lt];
      assumption.
  - apply bind_Ok in Hm as (b & Hb & Hm). apply Ok_inj in Hm. subst m.
    rewrite Hb. cbn [mbind result_bind]. apply pack_raw_succeeds.
    apply Z.ltb_lt. exact Hfits.
  - apply Ok_inj in Hm. subst m. apply pack_raw_succeeds.
    apply Z.ltb_lt. exact Hfits.
  - apply bind_Ok in Hm as (ms & Hms & Hm). apply Ok_inj in Hm. subst m.
    cbn [fits] in Hfits. apply andb_true_iff in Hfits as [Hlen Hfits].
    destruct (pack_all_succeeds l IHl ms Hms Hfits) as [Hl [body Hbody]].
    destruct (array_header_succeeds (Z.of_nat (length l))) as [header Hh].
    { rewrite <- Hl. apply Z.ltb_lt. exact Hlen. }
    rewrite Hh, Hbody. eexists. reflexivity.
  - apply bind_Ok in Hm as (ms & Hms & Hm). apply Ok_inj in Hm. subst m.
    cbn [fits] in Hfits. apply andb_true_iff in Hfits as [Hlen Hfits].
    destruct (pack_items_succeeds items IHitems ms Hms Hfits)
      as [Hl [body Hbody]].
    destruct (map_header_succeeds (Z.of_nat (length items))) as [header Hh].
    { rewrite <- Hl. apply Z.ltb_lt. exact Hlen. }
    rewrite Hh, Hbody. eexists. reflexivity.
Qed.

(** C5. The stream that [MessagePackExporter.export] returns for a
    normalized structure, read from its start by a MessagePack decoder,
    holds one value: the map of the tables, each a map of its rows, each a
    map of its fields, with the keys and values of the structure in their
    order, integers and [None] as they are and every string as its bytes (a
    text in UTF-8).  The exporter returns whenever these values are within
    the limits of the format. *)
Theorem export_roundtrip (data : DictData) :
  (forall stream : Types.Bytes, export data = Ok stream ->
     Types.tell stream = 0%nat
     /\ exists m, msg_of_data data = Ok m
          /\ unpack (Types.getvalue stream) = Ok m)
  /\ (forall m, msg_of_data data = Ok m -> fits m = true ->
      succeeds (export data)).
Proof.
  split.
  - intros stream Hexport. unfold export in Hexport.
    apply bind_Ok in Hexport as (packed & Hpacked & Hexport).
    apply Ok_inj in Hexport. subst stream. split; [reflexivity|].
    apply unpack_packb in Hpacked as (m & Hm & Hunpack).
    rewrite wire_normalize in Hm. exists m. split; assumption.
  - intros m Hm Hfits. unfold export. rewrite <- wire_normalize in Hm.
    destruct (packb_succeeds (normalize data) m Hm Hfits) as [packed ->].
    eexists. reflexivity.
Qed.

End MsgpackProps.

(** ** A closed instance of the MessagePack exporter *)

Module MsgpackExamples.
Import Entities Msgpack MsgpackSpec MsgpackProps Samples.

Lemma export_roundtrip_witness :
  succeeds (export one_state_dict)
  /\ forall stream : Types.Bytes,
       export one_state_dict = Ok stream ->
       unpack (Types.getvalue stream) = Ok one_state_msg.
Proof.
  destruct (export_roundtrip one_state_dict)
    as [Hback Hreturns].
  split.
  - apply (Hreturns one_state_msg); vm_compute; reflexivity.
  - intros stream Hstream.
    destruct (Hback stream Hstream) as (_ & m & Hm & Hunpack).
    vm_compute in Hm. apply Ok_inj in Hm. subst m. exact Hunpack.
Defined.

End MsgpackExamples.

(** ** Reading back what [Bytes] wrote, and reading past the end *)

Module BytesProps.
Import Types TypesSpec TypesProps.

Lemma write_Ok (data : list byte) (self : Bytes) :
  fst (write data self) = Ok tt
  /\ tell (snd (write data self)) = (tell self + length data)%nat.
Proof.
  destruct self as [buf pos], data as [|d data]; simpl; auto.
Qed.

(** After a write, the buffer holds the data at the old cursor. *)
Lemma write_remaining (data : list byte) (self : Bytes) :
  remaining (mkBytes (getvalue (snd (write data self))) (tell self)) =
    data ++ drop (tell self + length data) (getvalue self).
Proof.
  destruct self as [buf pos]. unfold remaining. destruct data as [|d data].
  - simpl. rewrite Nat.add_0_r. reflexivity.
  - unfold write. cbn [snd getvalue tell].
    set (padded := buf ++ replicate (pos - length buf) Byte.x00).
    assert (Hlen : length (take pos padded) = pos).
    { rewrite length_take. unfold padded.
      rewrite length_app, length_replicate. lia. }
    rewrite drop_app_length' by (symmetry; exact Hlen). reflexivity.
Qed.

Lemma write_nonempty (data : list byte) (self : Bytes) :
  data <> [] ->
  write data self =
    (Ok tt,
     mkBytes (take (tell self)
                   (getvalue self ++
                    replicate (tell self - length (getvalue self)) Byte.x00)
              ++ data ++ drop (tell self + length data) (getvalue self))
             (tell self + length data)).
Proof. destruct data; [congruence | reflexivity]. Qed.

(** Two writes in a row are one write of the two pieces. *)
Lemma write_app (d1 d2 : list byte) (self : Bytes) :
  snd (write d2 (snd (write d1 self))) = snd (write (d1 ++ d2) self).
Proof.
  destruct (decide (d1 = [])) as [->|H1]; [reflexivity|].
  destruct (decide (d2 = [])) as [->|H2]; [rewrite app_nil_r; reflexivity|].
  assert (H12 : d1 ++ d2 <> []) by (destruct d1; [congruence | discriminate]).
  rewrite (write_nonempty d1), (write_nonempty (d1 ++ d2)) by assumption.
  cbn [snd]. rewrite (write_nonempty d2) by assumption.
  destruct self as [buf pos]. cbn [snd getvalue tell].
  set (padded := buf ++ replicate (pos - length buf) Byte.x00).
  assert (Hlen : length (take pos padded) = pos).
  { rewrite length_take. unfold padded.
    rewrite length_app, length_replicate. lia. }
  set (P := take pos padded) in *.
  set (X := drop (pos + length d1) buf).
  assert (Hfull : (pos + length d1 - length (P ++ d1 ++ X) = 0)%nat)
    by (rewrite !length_app, Hlen; lia).
  rewrite Hfull. cbn [replicate]. rewrite app_nil_r.
  f_equal; [|rewrite length_app; lia].
  rewrite (app_assoc P d1 X).
  rewrite take_app_length' by (rewrite length_app, Hlen; reflexivity).
  rewrite <- !app_assoc. do 3 f_equal.
  rewrite (app_assoc P d1 X).
  replace (pos + length d1 + length d2)%nat
    with (length (P ++ d1) + length d2)%nat
    by (rewrite length_app, Hlen; reflexivity).
  rewrite <- drop_drop, drop_app_length. unfold X.
  rewrite drop_drop, length_app. f_equal. lia.
Qed.

(** A read of as many bytes as the buffer holds at the cursor. *)
Lemma read_remaining (data rest : list byte) (self : Bytes) :
  remaining self = data ++ rest ->
  read (Z.of_nat (length data)) self = (Ok data, advanced (length data) self)
  /\ remaining (advanced (length data) self) = rest.
Proof.
  unfold remaining, read, advanced. intros Hrem.
  destruct (Z.ltb_spec (Z.of_nat (length data)) 0) as [?|_]; [lia|].
  rewrite Nat2Z.id, Hrem, take_app_length. split; [reflexivity|].
  cbn [getvalue tell]. rewrite <- drop_drop, Hrem, drop_app_length.
  reflexivity.
Qed.

Lemma write_pair (data : list byte) (self : Bytes) :
  write data self = (Ok tt, snd (write data self)).
Proof.
  destruct (write data self) as [r s] eqn:Hw. simpl.
  pose proof (write_Ok data self) as [Hr _]. rewrite Hw in Hr. simpl in Hr.
  congruence.
Qed.

Lemma advanced_advanced (a b : nat) (self : Bytes) :
  advanced a (advanced b self) = advanced (b + a) self.
Proof. unfold advanced. simpl. f_equal. lia. Qed.

(** The cursor put back where a write began, then moved over the data,
    is where the write left it. *)
Lemma advanced_written (data : list byte) (self : Bytes) :
  advanced (length data)
           (mkBytes (getvalue (snd (write data self))) (tell self))
  = snd (write data self).
Proof.
  pose proof (write_Ok data self) as [_ Htell].
  destruct (snd (write data self)) as [buf pos]. unfold advanced. simpl in *.
  congruence.
Qed.

Section Platform.

Variable native : byte_order.

Lemma pack_run (f : format) (v : pyval) (data : list byte) (self : Bytes) :
  struct_pack native f v = Ok data ->
  _pack native f v self = write data self.
Proof.
  intros Hp. unfold _pack, mbind, M_bind, lift. rewrite Hp. reflexivity.
Qed.

Lemma unpack_run (f : format) (data rest : list byte) (self : Bytes) :
  remaining self = data ++ rest ->
  _unpack native f (Z.of_nat (length data)) self =
    (struct_unpack native f data, advanced (length data) self).
Proof.
  intros Hrem. unfold _unpack, mbind, M_bind, lift.
  destruct (read_remaining data rest self Hrem) as [-> _]. reflexivity.
Qed.

(** A value written at the cursor and read from there: the reader gets it
    and stops where the writer stopped. *)
Lemma round_trip {A} (w : M unit) (r : M A) (data : list byte) (v : A)
    (self : Bytes) :
  w self = write data self ->
  (forall st rest, remaining st = data ++ rest ->
     r st = (Ok v, advanced (length data) st)) ->
  (_ ← w; _ ← seek (tell self); r) self = (Ok v, snd (w self)).
Proof.
  intros Hw Hr. unfold mbind, M_bind. rewrite Hw, (write_pair data self).
  cbn [snd]. unfold seek.
  rewrite (Hr _ _ (write_remaining data self)), advanced_written.
  reflexivity.
Qed.

Lemma readInt_at (z : Z) (rest : list byte) (st : Bytes) :
  - 2 ^ 31 <= z < 2 ^ 31 ->
  remaining st = be32 z ++ rest ->
  readInt native st = (Ok (VInt z), advanced 4 st).
Proof.
  intros Hz Hrem. unfold readInt.
  pose proof (unpack_run (Fmt_i true) (be32 z) rest st Hrem) as Hrun.
  change (Z.of_nat (length (be32 z))) with 4 in Hrun. rewrite Hrun.
  change (length (be32 z)) with 4%nat.
  unfold struct_unpack. cbn [calcsize length be32 order_of in_order].
  cbn [Z.ltb Z.eqb Z.of_nat Pos.of_succ_nat Pos.succ Pos.eqb orb negb].
  rewrite be_value_be32, signed32_wrap by exact Hz. reflexivity.
Qed.

Lemma readBoolean_at (b : bool) (rest : list byte) (st : Bytes) :
  remaining st = [byte_of_Z (if b then 1 else 0)] ++ rest ->
  readBoolean native st = (Ok b, advanced 1 st).
Proof.
  intros Hrem. unfold readBoolean, readByte. unfold mbind, M_bind.
  pose proof (unpack_run Fmt_c [byte_of_Z (if b then 1 else 0)] rest st Hrem)
    as Hrun.
  change (Z.of_nat (length [byte_of_Z (if b then 1 else 0)])) with 1 in Hrun.
  rewrite Hrun. destruct b; reflexivity.
Qed.

Lemma readString_at (b rest : list byte) (st : Bytes) :
  Z.of_nat (length b) < 2 ^ 31 ->
  remaining st = (in_order native (be32 (Z.of_nat (length b))) ++ b) ++ rest ->
  readString native st = (Ok (VBytes b), advanced (4 + length b) st).
Proof.
  intros Hb Hrem. rewrite <- app_assoc in Hrem. unfold readString.
  unfold mbind, M_bind.
  pose proof (unpack_run (Fmt_i false) _ _ st Hrem) as Hhead.
  rewrite in_order_length, be32_length in Hhead.
  change (Z.of_nat 4) with 4 in Hhead. rewrite Hhead.
  unfold struct_unpack at 1.
  rewrite in_order_length, be32_length.
  cbn [calcsize Z.ltb Z.eqb Z.of_nat Pos.of_succ_nat Pos.succ Pos.eqb orb
       negb order_of].
  rewrite in_order_involutive, be_value_be32.
  rewrite Z.mod_small by lia.
  assert (Hs : signed32 (Z.of_nat (length b)) = Z.of_nat (length b)).
  { unfold signed32. destruct (Z.ltb_spec (Z.of_nat (length b)) (2 ^ 31));
      [reflexivity | lia]. }
  rewrite Hs.
  destruct (read_remaining _ _ _ Hrem) as [_ Hrem'].
  rewrite in_order_length, be32_length in Hrem'.
  change ((4 <? 0) || negb (Z.of_nat 4 =? 4)) with false. cbv iota.
  rewrite (unpack_run (Fmt_s _) b rest _ Hrem'), advanced_advanced.
  unfold struct_unpack. cbn [calcsize].
  destruct (Z.ltb_spec (Z.of_nat (length b)) 0) as [?|_]; [lia|].
  rewrite Z.eqb_refl. reflexivity.
Qed.

Lemma writeString_bytes (b : list byte) (self : Bytes) :
  Z.of_nat (length b) < 2 ^ 31 ->
  writeString native (VBytes b) self =
    write (in_order native (be32 (Z.of_nat (length b))) ++ b) self.
Proof.
  intros Hb. unfold writeString, len, lift. unfold mbind at 1 2, M_bind.
  rewrite (pack_run (Fmt_i false) _
             (in_order native (be32 (Z.of_nat (length b))))).
  2:{ unfold struct_pack.
      destruct (Z.leb_spec (- 2 ^ 31) (Z.of_nat (length b))),
        (Z.ltb_spec (Z.of_nat (length b)) (2 ^ 31)); try lia. reflexivity. }
  rewrite (write_pair _ self).
  rewrite (pack_run (Fmt_s _) _ b).
  2:{ unfold struct_pack.
      destruct (Z.ltb_spec (Z.of_nat (length b)) 0); try lia.
      rewrite Nat2Z.id, Nat.sub_diag, firstn_all. simpl.
      rewrite app_nil_r. reflexivity. }
  rewrite (write_pair b), write_app, <- write_pair. reflexivity.
Qed.

(** X1. An integer of the signed 32-bit range written by [writeInt] at any
    cursor, in a buffer of any content, is the integer that [readInt] reads
    from that cursor, and the read stops where the write stopped. *)
Theorem writeInt_readInt (z : Z) (self : Bytes) :
  - 2 ^ 31 <= z < 2 ^ 31 ->
  (_ ← writeInt native (VInt z); _ ← seek (tell self); readInt native) self
  = (Ok (VInt z), snd (writeInt native (VInt z) self)).
Proof.
  intros Hz. apply (round_trip _ _ (be32 z)).
  - unfold writeInt. apply pack_run. unfold struct_pack.
    destruct (Z.leb_spec (- 2 ^ 31) z), (Z.ltb_spec z (2 ^ 31)); try lia.
    reflexivity.
  - intros st rest Hrem. apply (readInt_at z rest st Hz Hrem).
Qed.

(** X2. A [bytes] value shorter than [2^31] written by [writeString] at any
    cursor is the value that [readString] reads from that cursor, whatever
    the byte order of the platform, and the read stops where the write
    stopped. *)
Theorem writeString_readString (b : list byte) (self : Bytes) :
  Z.of_nat (length b) < 2 ^ 31 ->
  (_ ← writeString native (VBytes b); _ ← seek (tell self);
   readString native) self
  = (Ok (VBytes b), snd (writeString native (VBytes b) self)).
Proof.
  intros Hb.
  apply (round_trip _ _ (in_order native (be32 (Z.of_nat (length b))) ++ b)).
  - apply writeString_bytes, Hb.
  - intros st rest Hrem. rewrite (readString_at b rest st Hb Hrem).
    rewrite length_app, in_order_length, be32_length. reflexivity.
Qed.

(** X3. A boolean written by [writeBoolean] at any cursor is the boolean
    that [readBoolean] reads from that cursor, and the read stops where the
    write stopped. *)
Theorem writeBoolean_readBoolean (b : bool) (self : Bytes) :
  (_ ← writeBoolean native b; _ ← seek (tell self); readBoolean native) self
  = (Ok b, snd (writeBoolean native b self)).
Proof.
  apply (round_trip _ _ [byte_of_Z (if b then 1 else 0)]).
  - unfold writeBoolean. rewrite writeByte_cases. destruct b; reflexivity.
  - intros st rest Hrem. apply (readBoolean_at b rest st Hrem).
Qed.

Lemma unpack_cases (f : format) (n : nat) (st : Bytes) :
  calcsize f = Z.of_nat n ->
  _unpack native f (Z.of_nat n) st =
    if (n <=? length (remaining st))%nat
    then (struct_unpack native f (take n (remaining st)), advanced n st)
    else (Raise StructError, advanced (length (remaining st)) st).
Proof.
  intros Hsize. unfold _unpack, mbind, M_bind, read, lift.
  fold (remaining st).
  destruct (Z.ltb_spec (Z.of_nat n) 0) as [?|_]; [lia|].
  rewrite Nat2Z.id.
  destruct (Nat.leb_spec n (length (remaining st))) as [Hle|Hlt].
  - rewrite length_take, Nat.min_l by exact Hle. reflexivity.
  - rewrite take_ge by lia. unfold struct_unpack. rewrite Hsize.
    destruct (Z.eqb_spec (Z.of_nat (length (remaining st))) (Z.of_nat n));
      [lia|].
    rewrite orb_true_r. reflexivity.
Qed.

(** X4. [readByte], [readInt] and [readFloat] take 1, 4 and 4 bytes from
    the cursor.  When fewer are left they raise [struct.error], and the
    cursor has then moved over the bytes that were left; otherwise the
    cursor moves by the size and the bytes are read most significant
    first. *)
Theorem read_at_end (st : Bytes) :
  readByte native st =
    match remaining st with
    | b :: _ => (Ok (Z_of_byte b), advanced 1 st)
    | [] => (Raise StructError, advanced 0 st)
    end
  /\ readInt native st =
    match remaining st with
    | b1 :: b2 :: b3 :: b4 :: _ =>
        (Ok (VInt (signed32 (be_value [b1; b2; b3; b4]))), advanced 4 st)
    | short => (Raise StructError, advanced (length short) st)
    end
  /\ readFloat native st =
    match remaining st with
    | b1 :: b2 :: b3 :: b4 :: _ =>
        (Ok (VFloat (to_double (single_of_bits (be_value [b1; b2; b3; b4])))),
         advanced 4 st)
    | short => (Raise StructError, advanced (length short) st)
    end.
Proof.
  unfold readByte, readInt, readFloat, mbind, M_bind.
  change 1 with (Z.of_nat 1). change 4 with (Z.of_nat 4).
  rewrite !unpack_cases by reflexivity.
  destruct (remaining st) as [|b1 [|b2 [|b3 [|b4 rest]]]];
    repeat split; reflexivity.
Qed.

(** X5. [readString] reads a native four-byte length and then that many
    bytes.  It returns exactly when the length is not negative and that
    many bytes follow it; in every other case it raises [struct.error]
    with the cursor at the end of the data, never a shorter string. *)
Theorem readString_cases (st : Bytes) :
  readString native st =
    match remaining st with
    | b1 :: b2 :: b3 :: b4 :: rest =>
        let n := signed32 (be_value (in_order native [b1; b2; b3; b4])) in
        if (0 <=? n) && (n <=? Z.of_nat (length rest))
        then (Ok (VBytes (take (Z.to_nat n) rest)),
              advanced (4 + Z.to_nat n) st)
        else (Raise StructError, advanced (4 + length rest) st)
    | short => (Raise StructError, advanced (length short) st)
    end.
Proof.
  unfold readString, mbind, M_bind.
  change 4 with (Z.of_nat 4). rewrite unpack_cases by reflexivity.
  destruct (remaining st) as [|b1 [|b2 [|b3 [|b4 rest]]]] eqn:Hrem;
    try reflexivity.
  cbn [length Nat.leb take]. rewrite take_0.
  unfold struct_unpack at 1.
  cbn [calcsize length Z.ltb Z.eqb Z.of_nat Pos.of_succ_nat Pos.succ Pos.eqb
       orb negb order_of].
  set (n := signed32 (be_value (in_order native [b1; b2; b3; b4]))).
  cbv zeta.
  change ((4 <? 0) || negb (Z.of_nat 4 =? 4)) with false. cbv iota beta.
  assert (Hrem' : remaining (advanced 4 st) = rest).
  { unfold remaining, advanced in *. simpl.
    rewrite <- drop_drop, Hrem. reflexivity. }
  destruct (Z.leb_spec 0 n) as [Hn|Hn].
  - replace (_unpack native (Fmt_s n) n)
      with (_unpack native (Fmt_s n) (Z.of_nat (Z.to_nat n)))
      by (rewrite Z2Nat.id by exact Hn; reflexivity).
    rewrite unpack_cases by (cbn [calcsize]; lia).
    rewrite Hrem', !advanced_advanced.
    destruct (Z.leb_spec n (Z.of_nat (length rest))) as [Hle|Hgt].
    + destruct (Nat.leb_spec (Z.to_nat n) (length rest)) as [_|?]; [|lia].
      cbn [andb]. unfold struct_unpack. cbn [calcsize].
      rewrite length_take, Nat.min_l by lia. rewrite Z2Nat.id by exact Hn.
      destruct (Z.ltb_spec n 0) as [?|_]; [lia|]. rewrite Z.eqb_refl.
      reflexivity.
    + destruct (Nat.leb_spec (Z.to_nat n) (length rest)) as [?|_]; [lia|].
      reflexivity.
  - cbn [andb]. unfold _unpack, mbind, M_bind, read, lift.
    fold (remaining (advanced 4 st)). rewrite Hrem'.
    destruct (Z.ltb_spec n 0) as [_|?]; [|lia].
    unfold struct_unpack. cbn [calcsize].
    destruct (Z.ltb_spec n 0) as [_|?]; [|lia]. cbn [orb].
    change (mkBytes (getvalue (advanced 4 st))
              (tell (advanced 4 st) + length rest))
      with (advanced (length rest) (advanced 4 st)).
    rewrite advanced_advanced. reflexivity.
Qed.

End Platform.

End BytesProps.

Module BytesExamples.
Import Types TypesSpec BytesProps.

(** An integer written over the middle of a buffer and read back. *)
Lemma writeInt_readInt_witness :
  - 2 ^ 31 <= -42 < 2 ^ 31
  /\ (_ ← writeInt LittleEndian (VInt (-42)); _ ← seek 1;
      readInt LittleEndian)
       (mkBytes [Byte.x01; Byte.x02; Byte.x03; Byte.x04; Byte.x05; Byte.x06] 1)
     = (Ok (VInt (-42)),
        snd (writeInt LittleEndian (VInt (-42))
               (mkBytes [Byte.x01; Byte.x02; Byte.x03; Byte.x04; Byte.x05;
                         Byte.x06] 1))).
Proof.
  split; [lia|].
  apply (writeInt_readInt LittleEndian (-42)
           (mkBytes [Byte.x01; Byte.x02; Byte.x03; Byte.x04; Byte.x05;
                     Byte.x06] 1)).
  lia.
Defined.

(** The bytes [b"sp"] written beyond the end of a buffer and read back. *)
Lemma writeString_readString_witness :
  (_ ← writeString BigEndian (VBytes [Byte.x73; Byte.x70]); _ ← seek 3;
   readString BigEndian) (mkBytes [Byte.x01] 3)
  = (Ok (VBytes [Byte.x73; Byte.x70]),
     snd (writeString BigEndian (VBytes [Byte.x73; Byte.x70])
            (mkBytes [Byte.x01] 3))).
Proof.
  apply (writeString_readString BigEndian [Byte.x73; Byte.x70]
           (mkBytes [Byte.x01] 3)).
  simpl. lia.
Defined.

End BytesExamples.

(** ** Which rows [toDict] converts, and what it stores for them *)

Module ToDictProps.
Import Entities EntitiesSpec ToDictSpec EntitiesProps.

Lemma for_each_succeeds_inv {A S} (body : S -> A -> result S) (l : list A) :
  forall s, succeeds (for_each body l s) ->
    forall a, a ∈ l -> exists s', succeeds (body s' a).
Proof.
  induction l as [|x l IH]; intros s [s' Hs] a Hin.
  - inversion Hin.
  - simpl in Hs. apply bind_Ok in Hs as (s1 & Hx & Hrest).
    apply elem_of_cons in Hin as [->|Hin].
    + exists s, s1. exact Hx.
    + apply (IH s1); [exists s'; exact Hrest | exact Hin].
Qed.

Lemma field_conversion (fu : bool) (v : pyval) :
  (if fu && isinstance_str v then unicode v else Ok v) =
    if convertible fu v then Ok (converted fu v)
    else Raise UnicodeDecodeError.
Proof.
  destruct fu, v as [|z|s|u]; reflexivity.
Qed.

Lemma column_step_Ok (fu : bool) (row : Row) (rd rd' : RowData)
    (c : string) :
  column_step fu row rd c = Ok rd' <->
  exists v, row !! c = Some v /\ convertible fu v = true
            /\ rd' = od_set str_eqb c (converted fu v) rd.
Proof.
  unfold column_step. split.
  - intros H. apply bind_Ok in H as (v & Hv & H).
    apply key_error_Ok in Hv. rewrite field_conversion in H.
    exists v. destruct (convertible fu v); simpl in H; [|discriminate].
    inversion H. auto.
  - intros (v & Hv & Hc & ->). rewrite Hv. simpl.
    rewrite field_conversion, Hc. reflexivity.
Qed.

Lemma od_get_od_set_eq {V} (k : string) (v : V) (d : odict string V) :
  od_get str_eqb k (od_set str_eqb k v d) = Some v.
Proof.
  induction d as [|[k' v'] d IH]; simpl.
  - rewrite str_eqb_refl. reflexivity.
  - destruct (str_eqb k' k) eqn:Hk; simpl; rewrite Hk; auto.
Qed.

Lemma od_get_od_set_ne {V} (k k' : string) (v : V) (d : odict string V) :
  k <> k' -> od_get str_eqb k (od_set str_eqb k' v d) = od_get str_eqb k d.
Proof.
  intros Hne. induction d as [|[k1 v1] d IH]; simpl.
  - destruct (str_eqb k' k) eqn:Hk; [|reflexivity].
    apply str_eqb_eq in Hk. congruence.
  - destruct (str_eqb k1 k') eqn:Hk1; simpl.
    + apply str_eqb_eq in Hk1. subst k1.
      destruct (str_eqb k' k) eqn:Hk; [|reflexivity].
      apply str_eqb_eq in Hk. congruence.
    + rewrite IH. reflexivity.
Qed.

Lemma od_get_strip (c : string) (rd : RowData) :
  c <> "id" -> od_get str_eqb c (strip rd) = od_get str_eqb c rd.
Proof.
  intros Hc. induction rd as [|[k v] rd IH]; [reflexivity|].
  destruct (decide (k = "id")) as [->|Hk].
  - rewrite strip_cons_id, IH. simpl.
    destruct (str_eqb "id" c) eqn:H; [|reflexivity].
    apply str_eqb_eq in H. congruence.
  - rewrite strip_cons_other by exact Hk. simpl. rewrite IH. reflexivity.
Qed.

Lemma columns_loop_other (fu : bool) (row : Row) (c : string)
    (cols : list string) :
  forall r r' : RowData,
    c ∉ cols -> for_each (column_step fu row) cols r = Ok r' ->
    od_get str_eqb c r' = od_get str_eqb c r.
Proof.
  induction cols as [|x cols IH]; intros r r' Hx Hr.
  - inversion Hr. reflexivity.
  - simpl in Hr. apply bind_Ok in Hr as (r1 & Hs & Hr).
    apply column_step_Ok in Hs as (w & _ & _ & ->).
    apply not_elem_of_cons in Hx as [Hne Hx].
    rewrite (IH _ _ Hx Hr). apply od_get_od_set_ne. exact Hne.
Qed.

Lemma columns_loop (fu : bool) (row : Row) (cols : list string) :
  forall rd0 rd : RowData,
    NoDup cols -> (forall c, c ∈ cols -> c ∉ keys rd0) ->
    for_each (column_step fu row) cols rd0 = Ok rd ->
    keys rd = keys rd0 ++ cols
    /\ forall c, c ∈ cols ->
         exists v0, row !! c = Some v0
                    /\ od_get str_eqb c rd = Some (converted fu v0).
Proof.
  induction cols as [|c cs IH]; intros rd0 rd Hnd Hfresh Hloop.
  - simpl in Hloop. inversion Hloop; subst. rewrite app_nil_r.
    split; [reflexivity|]. intros c Hc. inversion Hc.
  - simpl in Hloop. apply bind_Ok in Hloop as (rd1 & Hstep & Hrest).
    apply column_step_Ok in Hstep as (v & Hv & _ & ->).
    apply NoDup_cons in Hnd as [Hc Hnd].
    assert (Hkeys1 : keys (od_set str_eqb c (converted fu v) rd0)
                     = keys rd0 ++ [c]).
    { apply keys_od_set_new, Hfresh. left. }
    assert (Hfresh1 : forall c', c' ∈ cs ->
              c' ∉ keys (od_set str_eqb c (converted fu v) rd0)).
    { intros c' Hc'. rewrite Hkeys1. intros Hin.
      apply elem_of_app in Hin as [Hin|Hin].
      - apply (Hfresh c'); [right; exact Hc' | exact Hin].
      - apply list_elem_of_singleton in Hin. subst c'. contradiction. }
    destruct (IH _ _ Hnd Hfresh1 Hrest) as [Hkeys Hget].
    split.
    + rewrite Hkeys, Hkeys1, <- app_assoc. reflexivity.
    + intros c' Hc'. apply elem_of_cons in Hc' as [->|Hc'].
      * exists v. split; [exact Hv|].
        rewrite (columns_loop_other _ _ _ _ _ _ Hc Hrest).
        apply od_get_od_set_eq.
      * apply Hget, Hc'.
Qed.

Lemma columns_loop_unicode (fu : bool) (row : Row) (cols : list string)
    (rd : RowData) :
  for_each (column_step fu row) cols [] = Ok rd ->
  fu = true -> Forall (fun v => isinstance_str v = false) (values rd).
Proof.
  intros Hloop ->.
  apply (for_each_invariant
           (fun r : RowData =>
              Forall (fun v => isinstance_str v = false) (values r))
           _ _) with (3 := Hloop); [|constructor].
  intros c r r' _ Hr Hstep.
  apply column_step_Ok in Hstep as (v & _ & _ & ->).
  apply od_set_Forall; [exact Hr|]. destruct v; reflexivity.
Qed.

Lemma entity_columns (e : Entity) :
  e ∈ entities -> NoDup (columns e) /\ "id" ∈ columns e.
Proof.
  intros He. unfold entities in He.
  repeat (apply elem_of_cons in He as [->|He]);
    try (split; [apply (bool_decide_unpack _); vm_compute; exact I
                | apply (bool_decide_unpack _); vm_compute; exact I]).
  inversion He.
Qed.

Lemma row_item_inv (sk fu ik : bool) (e : Entity) (row : Row)
    (k : pyval) (rd : RowData) :
  row_item sk fu ik e row = Ok (k, rd) ->
  exists (rd' : RowData) (id : pyval),
    for_each (column_step fu row) (columns e) [] = Ok rd'
    /\ od_get str_eqb "id" rd' = Some id
    /\ (if sk then str id else Ok id) = Ok k
    /\ rd = if ik then rd' else strip rd'.
Proof.
  intros Hitem.
  assert (Htrue : exists rd', row_item sk fu true e row = Ok (k, rd')
                              /\ rd = if ik then rd' else strip rd').
  { destruct ik; [eauto|]. rewrite row_item_includeKey in Hitem.
    destruct (row_item sk fu true e row) as [[k' rd']|]; [|discriminate].
    simpl in Hitem. inversion Hitem; subst. eauto. }
  destruct Htrue as (rd' & Htrue & Hrd).
  unfold row_item in Htrue.
  apply bind_Ok in Htrue as (rd0 & Hloop & Htrue).
  apply bind_Ok in Htrue as (id & Hget & Htrue).
  apply bind_Ok in Htrue as (k0 & Hkey & Htrue).
  simpl in Htrue. inversion Htrue; subst k0 rd0. clear Htrue.
  apply key_error_Ok in Hget. exists rd', id. auto.
Qed.

(** X6. For each of the six entities, the field map that [toDict] stores
    for a row has the entity's columns as keys, in schema order (without
    ['id'] unless [includeKey]), each holding the row's value for that
    column; entries of the row that are no columns are left out.  The row is
    stored under its ['id'], passed through [str] when [strKeys]; and with
    [forceUnicode] no stored value is a byte string. *)
Theorem row_item_fields (sk fu ik : bool) (e : Entity) (row : Row)
    (k : pyval) (rd : RowData) :
  e ∈ entities ->
  row_item sk fu ik e row = Ok (k, rd) ->
  keys rd = (if ik then columns e
             else filter (fun c => c <> "id") (columns e))
  /\ (forall c, c ∈ keys rd ->
        exists v0, row !! c = Some v0
                   /\ od_get str_eqb c rd = Some (converted fu v0))
  /\ (exists id0, row !! "id" = Some id0
                  /\ (if sk then str (converted fu id0)
                      else Ok (converted fu id0)) = Ok k)
  /\ (fu = true -> Forall (fun v => isinstance_str v = false) (values rd)).
Proof.
  intros He Hitem. destruct (entity_columns e He) as [Hnd Hid].
  destruct (row_item_inv _ _ _ _ _ _ _ Hitem)
    as (rd' & id & Hloop & Hget & Hkey & Hrd).
  destruct (columns_loop fu row (columns e) [] rd' Hnd) as [Hkeys Hvals];
    [intros c _ Hc; inversion Hc | exact Hloop |].
  simpl in Hkeys.
  pose proof (columns_loop_unicode fu row (columns e) rd' Hloop) as Huni.
  assert (Hkeys' : keys rd = if ik then columns e
                             else filter (fun c => c <> "id") (columns e)).
  { destruct ik; subst rd; [exact Hkeys|]. rewrite strip_keys, Hkeys.
    reflexivity. }
  split; [exact Hkeys'|]. split; [|split].
  - intros c Hc. rewrite Hkeys' in Hc. destruct ik; subst rd.
    + apply Hvals, Hc.
    + apply list_elem_of_filter in Hc as [Hne Hc].
      rewrite od_get_strip by exact Hne. apply Hvals, Hc.
  - destruct (Hvals "id" Hid) as (id0 & Hrow & Hget0).
    exists id0. split; [exact Hrow|].
    rewrite Hget in Hget0. inversion Hget0; subst id. exact Hkey.
  - intros Hfu. specialize (Huni Hfu). destruct ik; subst rd; [exact Huni|].
    unfold values, strip. apply Forall_fmap. apply Forall_fmap in Huni.
    apply Forall_forall. intros x Hx. apply list_elem_of_filter in Hx as [_ Hx].
    revert x Hx. apply Forall_forall. exact Huni.
Qed.

Lemma columns_loop_succeeds (fu : bool) (row : Row) (cols : list string)
    (rd0 : RowData) :
  succeeds (for_each (column_step fu row) cols rd0) <->
  forall c, c ∈ cols ->
    exists v, row !! c = Some v /\ convertible fu v = true.
Proof.
  split.
  - intros Hs c Hc.
    destruct (for_each_succeeds_inv _ _ _ Hs c Hc) as (r & r' & Hstep).
    apply column_step_Ok in Hstep as (v & Hv & Hcv & _). eauto.
  - intros Hall. apply for_each_succeeds. intros c r Hc.
    destruct (Hall c Hc) as (v & Hv & Hcv).
    exists (od_set str_eqb c (converted fu v) r).
    apply column_step_Ok. eauto.
Qed.

Lemma row_item_succeeds (sk fu ik : bool) (e : Entity) (row : Row) :
  e ∈ entities ->
  succeeds (row_item sk fu ik e row) <-> row_ok sk fu e row.
Proof.
  intros He. destruct (entity_columns e He) as [Hnd Hid]. split.
  - intros [[k rd] Hitem].
    assert (Hloop : succeeds (for_each (column_step fu row) (columns e) [])).
    { unfold row_item in Hitem. apply bind_Ok in Hitem as (rd0 & Hloop & _).
      exists rd0. exact Hloop. }
    split; [exact (proj1 (columns_loop_succeeds fu row (columns e) []) Hloop)|].
    intros ->.
    destruct (row_item_inv _ _ _ _ _ _ _ Hitem)
      as (rd' & id & Hloop' & Hget & Hkey & _).
    destruct (columns_loop fu row (columns e) [] rd' Hnd) as [_ Hvals];
      [intros c _ Hc; inversion Hc | exact Hloop' |].
    destruct (Hvals "id" Hid) as (id0 & Hrow & Hget0).
    rewrite Hget in Hget0. inversion Hget0; subst id.
    exists id0. split; [exact Hrow | exists k; exact Hkey].
  - intros [Hcols Hkey].
    destruct (proj2 (columns_loop_succeeds fu row (columns e) []) Hcols)
      as [rd Hloop].
    destruct (columns_loop fu row (columns e) [] rd Hnd) as [Hkeys Hvals];
      [intros c _ Hc; inversion Hc | exact Hloop |].
    simpl in Hkeys.
    destruct (Hvals "id" Hid) as (id0 & Hrow & Hget).
    assert (Hstr : succeeds (if sk then str (converted fu id0)
                             else Ok (converted fu id0))).
    { destruct sk; [|eexists; reflexivity].
      destruct (Hkey eq_refl) as (v & Hv & Hs).
      rewrite Hrow in Hv. inversion Hv; subst v. exact Hs. }
    destruct Hstr as [k Hk].
    assert (Hwf : row_wf rd).
    { split; [|rewrite Hkeys; exact Hid]. rewrite Hkeys. exact Hnd. }
    unfold row_item. rewrite Hloop. cbn [mbind result_bind].
    rewrite Hget. cbn [key_error mbind result_bind]. rewrite Hk.
    cbn [mbind result_bind].
    destruct ik; cbn [negb]; [eexists; reflexivity|].
    rewrite (od_del_strip rd Hwf). eexists. reflexivity.
Qed.

(** X7. [toDict] returns exactly when the tree holds a list of rows for each
    of the six tables and every row of every table can be converted: it has
    all the columns of its entity, with [forceUnicode] its byte strings are
    ASCII, and with [strKeys] its ['id'] is accepted by [str]. *)
Theorem toDict_succeeds_iff (sk fu ik : bool) (self : TerritorialData) :
  succeeds (toDict sk fu ik self) <->
  forall e, e ∈ entities ->
    exists rows, _dict self !! table e = Some rows
                 /\ forall row, row ∈ rows -> row_ok sk fu e row.
Proof.
  unfold toDict. split.
  - intros Hs e He.
    destruct (for_each_succeeds_inv _ _ _ Hs e He) as (d & d' & Hstep).
    unfold entity_step in Hstep.
    apply bind_Ok in Hstep as (rows & Hrows & Hstep).
    apply key_error_Ok in Hrows. exists rows. split; [exact Hrows|].
    intros row Hrow. destruct rows as [|r rows]; [inversion Hrow|].
    apply bind_Ok in Hstep as (tbl & Hloop & _).
    destruct (for_each_succeeds_inv _ _ _ (ex_intro _ tbl Hloop) row Hrow)
      as (t & t' & Hrs).
    unfold row_step in Hrs. apply bind_Ok in Hrs as (item & Hitem & _).
    apply (row_item_succeeds sk fu ik e row He). exists item. exact Hitem.
  - intros Hall. apply for_each_succeeds. intros e d He.
    destruct (Hall e He) as (rows & Hrows & Hok).
    unfold entity_step. rewrite Hrows. cbn [key_error mbind result_bind].
    destruct rows as [|r rows]; [eexists; reflexivity|].
    destruct (for_each_succeeds (row_step sk fu ik e) (r :: rows)) with (s := @nil (pyval * RowData))
      as [tbl Htbl].
    { intros row t Hrow. apply row_step_succeeds.
      apply (row_item_succeeds sk fu ik e row He), Hok, Hrow. }
    rewrite Htbl. eexists. reflexivity.
Qed.

Lemma py_eqb_refl (k : pyval) : py_eqb k k = true.
Proof.
  destruct k; simpl; try reflexivity.
  - apply Z.eqb_refl.
  - apply bool_decide_eq_true. reflexivity.
  - apply bool_decide_eq_true. reflexivity.
Qed.

Section TableFacts.

Context {V : Type}.
Implicit Types (d : odict pyval V) (k : pyval) (v : V).

Lemma od_get_od_set_py k v d :
  od_get py_eqb k (od_set py_eqb k v d) = Some v.
Proof.
  induction d as [|[k' v'] d IH]; simpl.
  - rewrite py_eqb_refl. reflexivity.
  - destruct (py_eqb k' k) eqn:Hk; simpl; rewrite Hk; auto.
Qed.

Lemma od_set_length k v d :
  (length (od_set py_eqb k v d) <= S (length d))%nat.
Proof.
  induction d as [|[k' v'] d IH]; simpl; [lia|].
  destruct (py_eqb k' k); simpl; lia.
Qed.

Lemma od_set_keys k v d :
  (exists k', k' ∈ keys (od_set py_eqb k v d) /\ py_eqb k' k = true)
  /\ forall k', k' ∈ keys d -> k' ∈ keys (od_set py_eqb k v d).
Proof.
  induction d as [|[k1 v1] d [(k0 & Hin & Hk0) IH]]; simpl.
  - split; [|intros k' Hk'; inversion Hk'].
    exists k. split; [left | apply py_eqb_refl].
  - destruct (py_eqb k1 k) eqn:Hk; simpl.
    + split; [exists k1; split; [left | exact Hk] | auto].
    + split; [exists k0; split; [right; exact Hin | exact Hk0]|].
      intros k' Hk'. apply elem_of_cons in Hk' as [->|Hk'];
        [left | right; apply IH, Hk'].
Qed.

Lemma od_set_distinct k v d :
  ForallOrdPairs (fun a b => py_eqb a b = false) (keys d) ->
  ForallOrdPairs (fun a b => py_eqb a b = false) (keys (od_set py_eqb k v d)).
Proof.
  induction d as [|[k1 v1] d IH]; simpl; intros Hd.
  - constructor; [constructor | constructor].
  - inversion Hd as [|? ? Hk1 Hrest]; subst.
    destruct (py_eqb k1 k) eqn:Hk; simpl.
    + constructor; assumption.
    + constructor; [|apply IH, Hrest].
      clear IH Hd Hrest. induction d as [|[k2 v2] d IH]; simpl.
      * constructor; [exact Hk | constructor].
      * inversion Hk1; subst. destruct (py_eqb k2 k); simpl;
          constructor; auto.
Qed.

End TableFacts.

Lemma rows_loop (sk fu ik : bool) (e : Entity) (rows : list Row) :
  forall tbl0 tbl : TableData,
    for_each (row_step sk fu ik e) rows tbl0 = Ok tbl ->
    (length tbl <= length tbl0 + length rows)%nat
    /\ (ForallOrdPairs (fun a b => py_eqb a b = false) (keys tbl0) ->
        ForallOrdPairs (fun a b => py_eqb a b = false) (keys tbl))
    /\ (forall k', k' ∈ keys tbl0 -> k' ∈ keys tbl)
    /\ (forall row, row ∈ rows ->
          exists k rd k', row_item sk fu ik e row = Ok (k, rd)
                          /\ k' ∈ keys tbl /\ py_eqb k' k = true).
Proof.
  induction rows as [|r rows IH]; intros tbl0 tbl Hloop.
  - inversion Hloop; subst. repeat split; auto; [simpl; lia|].
    intros row Hrow. inversion Hrow.
  - simpl in Hloop. apply bind_Ok in Hloop as (tbl1 & Hstep & Hrest).
    unfold row_step in Hstep.
    apply bind_Ok in Hstep as ([k rd] & Hitem & Hstep).
    simpl in Hstep. inversion Hstep; subst tbl1. clear Hstep.
    destruct (IH _ _ Hrest) as (Hlen & Hdist & Hkeep & Hrows).
    pose proof (od_set_length k rd tbl0) as Hlen1.
    destruct (od_set_keys k rd tbl0) as [(k0 & Hk0 & Heq) Hkeep1].
    split; [simpl; lia|]. split; [|split].
    + intros Hd. apply Hdist, od_set_distinct, Hd.
    + intros k' Hk'. apply Hkeep, Hkeep1, Hk'.
    + intros row Hrow. apply elem_of_cons in Hrow as [->|Hrow].
      * exists k, rd, k0. auto.
      * apply Hrows, Hrow.
Qed.

Lemma rows_loop_last (sk fu ik : bool) (e : Entity) (rows : list Row)
    (row : Row) (k : pyval) (rd : RowData) (tbl0 tbl : TableData) :
  for_each (row_step sk fu ik e) (rows ++ [row]) tbl0 = Ok tbl ->
  row_item sk fu ik e row = Ok (k, rd) ->
  od_get py_eqb k tbl = Some rd.
Proof.
  revert tbl0. induction rows as [|r rows IH]; intros tbl0 Hloop Hitem.
  - simpl in Hloop. apply bind_Ok in Hloop as (tbl1 & Hstep & Hrest).
    inversion Hrest; subst tbl1. unfold row_step in Hstep.
    rewrite Hitem in Hstep. simpl in Hstep. inversion Hstep.
    apply od_get_od_set_py.
  - simpl in Hloop. apply bind_Ok in Hloop as (tbl1 & _ & Hrest).
    apply (IH tbl1 Hrest Hitem).
Qed.

Lemma entities_loop_get (sk fu ik : bool) (self : TerritorialData)
    (es : list Entity) :
  forall d0 d : DictData,
    NoDup (map table es) ->
    for_each (entity_step sk fu ik self) es d0 = Ok d ->
    (forall name, name ∉ map table es ->
       od_get str_eqb name d = od_get str_eqb name d0)
    /\ forall e r rows, e ∈ es -> _dict self !! table e = Some (r :: rows) ->
         exists tbl, for_each (row_step sk fu ik e) (r :: rows) [] = Ok tbl
                     /\ od_get str_eqb (table e) d = Some tbl.
Proof.
  induction es as [|e es IH]; intros d0 d Hnd Hloop.
  - inversion Hloop; subst. split; [reflexivity|].
    intros e r rows He. inversion He.
  - simpl in Hloop. apply bind_Ok in Hloop as (d1 & Hstep & Hrest).
    simpl in Hnd. apply NoDup_cons in Hnd as [He Hnd].
    destruct (IH _ _ Hnd Hrest) as [Hother Hes].
    assert (Hd1 : (d1 = d0 /\ ~ exists r rows,
                     _dict self !! table e = Some (r :: rows))
                  \/ exists r rows tbl,
                       _dict self !! table e = Some (r :: rows)
                       /\ for_each (row_step sk fu ik e) (r :: rows) []
                          = Ok tbl
                       /\ d1 = od_set str_eqb (table e) tbl
                                 (od_set str_eqb (table e) [] d0)).
    { unfold entity_step in Hstep.
      apply bind_Ok in Hstep as (rows & Hrows & Hstep).
      apply key_error_Ok in Hrows. destruct rows as [|r rows].
      - left. inversion Hstep. split; [reflexivity|].
        intros (r & rows & Hr). congruence.
      - right. apply bind_Ok in Hstep as (tbl & Hloop & Hstep).
        inversion Hstep. eauto 6. }
    split.
    + intros name Hname. simpl in Hname.
      apply not_elem_of_cons in Hname as [Hne Hname].
      rewrite (Hother name Hname).
      destruct Hd1 as [[-> _]|(r & rows & tbl & _ & _ & ->)]; [reflexivity|].
      rewrite !od_get_od_set_ne by exact Hne. reflexivity.
    + intros e' r rows He' Hrows. apply elem_of_cons in He' as [->|He'].
      * destruct Hd1 as [[_ Hno]|(r' & rows' & tbl & Hrows' & Hloop & ->)].
        { exfalso. apply Hno. eauto. }
        rewrite Hrows in Hrows'. inversion Hrows'; subst r' rows'.
        exists tbl. split; [exact Hloop|].
        rewrite (Hother (table e) He). apply od_get_od_set_eq.
      * apply (Hes e' r rows He' Hrows).
Qed.

(** X8. In the result of [toDict] the table of an entity with rows never
    has more entries than the tree has rows for it, and no two of its keys
    are equal as Python compares them: rows with the same ['id'] overwrite
    one another.  The key of every row is present, and the last row of the
    table is the one stored under its key. *)
Theorem toDict_row_keys (sk fu ik : bool) (self : TerritorialData)
    (d : DictData) (e : Entity) (r : Row) (rows : list Row) :
  toDict sk fu ik self = Ok d ->
  e ∈ entities ->
  _dict self !! table e = Some (r :: rows) ->
  exists tbl : TableData,
    od_get str_eqb (table e) d = Some tbl
    /\ (length tbl <= length (r :: rows))%nat
    /\ ForallOrdPairs (fun a b => py_eqb a b = false) (keys tbl)
    /\ (forall row, row ∈ r :: rows ->
          exists k rd k', row_item sk fu ik e row = Ok (k, rd)
                          /\ k' ∈ keys tbl /\ py_eqb k' k = true)
    /\ (forall k rd,
          row_item sk fu ik e (List.last rows r) = Ok (k, rd) ->
          od_get py_eqb k tbl = Some rd).
Proof.
  intros Hd He Hrows. unfold toDict in Hd.
  destruct (entities_loop_get _ _ _ _ _ _ _ entities_tables_NoDup Hd)
    as [_ Hget].
  destruct (Hget e r rows He Hrows) as (tbl & Hloop & Htbl).
  exists tbl. split; [exact Htbl|].
  destruct (rows_loop _ _ _ _ _ _ _ Hloop) as (Hlen & Hdist & _ & Hall).
  split; [simpl in *; lia|]. split; [apply Hdist; constructor|].
  split; [exact Hall|].
  intros k rd Hitem.
  destruct (exists_last (l := r :: rows)) as (front & lst & Hsplit);
    [discriminate|].
  assert (Hlast : List.last rows r = lst).
  { transitivity (List.last (r :: rows) r);
      [destruct rows; reflexivity|].
    rewrite Hsplit. apply last_last. }
  rewrite Hlast in Hitem. rewrite Hsplit in Hloop.
  apply (rows_loop_last _ _ _ _ _ _ _ _ _ _ Hloop Hitem).
Qed.

End ToDictProps.

Module ToDictExamples.
Import Entities EntitiesSpec ToDictSpec ToDictSamples Samples ToDictProps.

(** With [forceUnicode] and without [includeKey], the row [sp_sigla] of
    [Uf] gives the single field ['nome'], as text. *)
Lemma row_item_fields_witness :
  keys [("nome", PUnicode (codes "SP"))] = ["nome"]
  /\ Forall (fun v => isinstance_str v = false)
            (values [("nome", PUnicode (codes "SP"))]).
Proof.
  destruct (row_item_fields false true false Uf sp_sigla (PInt 35)
              [("nome", PUnicode (codes "SP"))])
    as (Hkeys & _ & _ & Huni).
  - unfold entities. left.
  - vm_compute. reflexivity.
  - split; [exact Hkeys | apply Huni; reflexivity].
Defined.

(** Two rows with the ['id'] 35 give one entry, holding the second row. *)
Lemma toDict_row_keys_witness :
  exists tbl : TableData,
    od_get str_eqb "uf" same_id_dict = Some tbl
    /\ (length tbl <= 2)%nat
    /\ od_get py_eqb (PInt 35) tbl
       = Some [("id", PInt 35); ("nome", PStr "SP")].
Proof.
  destruct (toDict_row_keys false false true same_id same_id_dict Uf
              sao_paulo [sp_sigla])
    as (tbl & Hget & Hlen & _ & _ & Hlast).
  - vm_compute. reflexivity.
  - unfold entities. left.
  - vm_compute. reflexivity.
  - exists tbl. split; [exact Hget|]. split; [exact Hlen|].
    apply Hlast. vm_compute. reflexivity.
Defined.

End ToDictExamples.

(** ** Building and parsing a [TerritorialBase] *)

Module BasesProps.
Import Entities Bases BasesSpec ToDictProps.

Lemma od_get_py_Some {V} (k : pyval) (d : odict pyval V) :
  is_Some (od_get py_eqb k d) <->
  exists k', k' ∈ keys d /\ py_eqb k' k = true.
Proof.
  induction d as [|[k1 v1] d IH]; simpl.
  - split; [intros [? ?]; discriminate | intros (k' & Hk' & _); inversion Hk'].
  - destruct (py_eqb k1 k) eqn:Hk.
    + split; [intros _; exists k1; split; [left | exact Hk] | eauto].
    + rewrite IH. split.
      * intros (k' & Hin & Heq). exists k'. split; [right; exact Hin | exact Heq].
      * intros (k' & Hin & Heq). apply elem_of_cons in Hin as [->|Hin];
          [congruence | eauto].
Qed.

Lemma od_get_py_elem {V} (k : pyval) (v : V) (d : odict pyval V) :
  od_get py_eqb k d = Some v ->
  exists k', (k', v) ∈ d /\ py_eqb k' k = true.
Proof.
  induction d as [|[k1 v1] d IH]; simpl; [discriminate|].
  destruct (py_eqb k1 k) eqn:Hk.
  - intros [= ->]. exists k1. split; [left | exact Hk].
  - intros H. destruct (IH H) as (k' & Hin & Heq).
    exists k'. split; [right; exact Hin | exact Heq].
Qed.

Lemma od_set_elem {V} (k : pyval) (v : V) (d : odict pyval V) (k' : pyval)
    (v' : V) :
  (k', v') ∈ od_set py_eqb k v d ->
  (k', v') ∈ d
  \/ (v' = v /\ (k' = k \/ (k' ∈ keys d /\ py_eqb k' k = true))).
Proof.
  induction d as [|[k1 v1] d IH]; simpl.
  - intros H. apply list_elem_of_singleton in H. inversion H; subst. auto.
  - destruct (py_eqb k1 k) eqn:Hk; intros H;
      apply elem_of_cons in H as [H|H].
    + inversion H; subst. right. split; [reflexivity|]. right.
      split; [left | exact Hk].
    + left. right. exact H.
    + inversion H; subst. left. left.
    + destruct (IH H) as [Hin|(-> & [->|[Hin Heq]])].
      * left. right. exact Hin.
      * right. auto.
      * right. split; [reflexivity|]. right. split; [right; exact Hin | exact Heq].
Qed.

Lemma codes_inj (a b : string) : codes a = codes b -> a = b.
Proof.
  unfold codes. revert b. induction a as [|c a IH]; intros [|c' b]; simpl;
    try discriminate; [reflexivity|].
  intros [= Hc Hrest]. f_equal; [|apply IH, Hrest].
  unfold code_of in Hc. apply N2Z.inj in Hc.
  rewrite <- (ascii_N_embedding c), <- (ascii_N_embedding c'). congruence.
Qed.

Lemma od_get_od_set_str {V} (a b : string) (v : V) (d : odict pyval V) :
  a <> b ->
  od_get py_eqb (PStr a) (od_set py_eqb (PStr b) v d)
  = od_get py_eqb (PStr a) d.
Proof.
  intros Hne. induction d as [|[k1 v1] d IH]; simpl.
  - rewrite bool_decide_eq_false_2 by congruence. reflexivity.
  - destruct (py_eqb k1 (PStr b)) eqn:Hb; simpl.
    + destruct (py_eqb k1 (PStr a)) eqn:Ha; [|reflexivity].
      exfalso. destruct k1 as [|z|s|u]; simpl in *; try discriminate.
      * apply bool_decide_eq_true in Ha, Hb. congruence.
      * apply andb_true_iff in Ha as [_ Ha], Hb as [_ Hb].
        apply bool_decide_eq_true in Ha, Hb.
        apply Hne, codes_inj. congruence.
    + rewrite IH. reflexivity.
Qed.

Section BaseListFacts.

Variable databases : list Struct.

Lemma od_set_entries_ok (x : Struct) (d : odict pyval Struct) :
  entries_ok databases d -> x ∈ databases ->
  entries_ok databases (od_set py_eqb (PStr (pretty (year x))) x d).
Proof.
  intros Hd Hx k db Hin.
  apply od_set_elem in Hin as [Hin|(-> & [->|[Hin Heq]])].
  - apply Hd, Hin.
  - auto.
  - split; [exact Hx|].
    apply list_elem_of_fmap in Hin as ([k0 db0] & -> & Hin). simpl in *.
    destruct (Hd _ _ Hin) as [_ ->]. simpl in Heq.
    apply bool_decide_eq_true in Heq. congruence.
Qed.

Lemma fold_entries_ok (dbs : list Struct) :
  forall d, entries_ok databases d -> (forall db, db ∈ dbs -> db ∈ databases) ->
    entries_ok databases (fold_left
                  (fun d database =>
                     od_set py_eqb (PStr (pretty (year database))) database d)
                  dbs d).
Proof.
  induction dbs as [|x dbs IH]; intros d Hd Hsub; simpl; [exact Hd|].
  apply IH.
  - apply od_set_entries_ok; [exact Hd | apply Hsub; left].
  - intros db Hdb. apply Hsub. right. exact Hdb.
Qed.

Lemma base_list_entries : entries_ok databases (base_list databases).
Proof.
  apply fold_entries_ok; [|auto]. intros k db Hin. inversion Hin.
Qed.

Lemma bases_keys : bases databases ≡ₚ keys (base_list databases).
Proof.
  unfold bases. rewrite reverse_Permutation, merge_sort_Permutation.
  rewrite <- list_fmap_compose.
  rewrite (list_fmap_ext (PStr ∘ key_str) id (keys (base_list databases))).
  - rewrite list_fmap_id. reflexivity.
  - intros i k Hk. apply list_elem_of_lookup_2 in Hk.
    apply list_elem_of_fmap in Hk as ([k0 db] & -> & Hin).
    destruct (base_list_entries _ _ Hin) as [_ ->]. reflexivity.
Qed.

Lemma available_spec (y : pyval) :
  available databases y = true <-> is_Some (od_get py_eqb y (base_list databases)).
Proof.
  unfold available. rewrite od_get_py_Some, existsb_exists.
  split; intros (k & Hin & Heq); exists k; split; try exact Heq.
  - rewrite <- bases_keys. apply list_elem_of_In, Hin.
  - apply list_elem_of_In. rewrite bases_keys. exact Hin.
Qed.

Lemma fold_get (k : Z) (dbs : list Struct) :
  forall d : odict pyval Struct,
    (forall db, db ∈ dbs -> year db <> k) ->
    od_get py_eqb (PStr (pretty k))
      (fold_left
         (fun d database =>
            od_set py_eqb (PStr (pretty (year database))) database d)
         dbs d)
    = od_get py_eqb (PStr (pretty k)) d.
Proof.
  induction dbs as [|x dbs IH]; intros d Hne; simpl; [reflexivity|].
  rewrite IH by (intros db Hdb; apply Hne; right; exact Hdb).
  apply od_get_od_set_str. intros Heq. apply (inj pretty) in Heq.
  apply (Hne x); [left | congruence].
Qed.

(** X9. [TerritorialBase(year, logger)] is built exactly for the years of
    the listed databases, given as text: an integer year is refused like an
    unknown one.  The object describes a listed database, the last one of
    that year in the file; its [year] property is the text that was asked
    for, and its data are those of a fresh [TerritorialData]. *)
Theorem init_year :
  (forall z : Z, __init__ databases (PInt z) = Raise not_available)
  /\ (forall y : pyval,
        (forall db, db ∈ databases ->
           py_eqb (PStr (pretty (year db))) y = false) ->
        __init__ databases y = Raise not_available)
  /\ (forall (y : pyval) (this : TerritorialBase),
        __init__ databases y = Ok this ->
        _info this ∈ databases
        /\ py_eqb (year_of this) y = true
        /\ _data this = Entities.__init__ (_info this))
  /\ (forall (front back : list Struct) (db : Struct),
        databases = front ++ db :: back ->
        (forall db', db' ∈ back -> year db' <> year db) ->
        __init__ databases (PStr (pretty (year db)))
        = Ok (mkTerritorialBase db (Entities.__init__ db))).
Proof.
  assert (Hrefuse : forall y,
            (forall db, db ∈ databases ->
               py_eqb (PStr (pretty (year db))) y = false) ->
            __init__ databases y = Raise not_available).
  { intros y Hy. unfold __init__.
    destruct (available databases y) eqn:Hav; [|reflexivity].
    apply available_spec in Hav as [info Hget].
    apply od_get_py_elem in Hget as (k & Hin & Heq).
    destruct (base_list_entries _ _ Hin) as [Hdb ->].
    rewrite (Hy _ Hdb) in Heq. discriminate. }
  split; [intros z; apply Hrefuse; reflexivity|].
  split; [exact Hrefuse|]. split.
  - intros y this Hinit. unfold __init__ in Hinit.
    destruct (available databases y); [|discriminate]. simpl in Hinit.
    destruct (od_get py_eqb y (base_list databases)) as [info|] eqn:Hget;
      [|discriminate].
    inversion Hinit; subst this. simpl.
    apply od_get_py_elem in Hget as (k & Hin & Heq).
    destruct (base_list_entries _ _ Hin) as [Hdb ->]. auto.
  - intros front back db Hsplit Hback.
    assert (Hget : od_get py_eqb (PStr (pretty (year db)))
                     (base_list databases) = Some db).
    { unfold base_list. rewrite Hsplit, fold_left_app. simpl.
      rewrite fold_get by exact Hback. apply od_get_od_set_py. }
    unfold __init__.
    rewrite (proj2 (available_spec _) (ex_intro _ db Hget)), Hget.
    reflexivity.
Qed.

End BaseListFacts.

Section ParseFacts.

Variable FORMATS : gmap string Parser.

(** X10. [parse] reports every failure with the same exception, whatever the
    parser raised, and also when no parser is registered for the format of
    the database: in that case nothing has changed.  It returns exactly
    when the registered parser returns, and then holds the parsed data.
    Neither the description of the database, nor a file, nor the standard
    output is touched. *)
Theorem parse_failure (w : World) :
  (forall e w', parse FORMATS w = (Raise e, w') -> e = parse_failed)
  /\ (FORMATS !! format (_info (self w)) = None ->
      parse FORMATS w = (Raise parse_failed, w))
  /\ (forall w', parse FORMATS w = (Ok tt, w') <->
        exists parser data log,
          FORMATS !! format (_info (self w)) = Some parser
          /\ run parser (_data (self w)) (_logger w)
             = (Ok (_data (self w')), data, log)
          /\ w' = mkWorld (mkTerritorialBase (_info (self w))
                                             (_data (self w')))
                          log (files w) (stdout w))
  /\ _info (self (snd (parse FORMATS w))) = _info (self w)
  /\ files (snd (parse FORMATS w)) = files w
  /\ stdout (snd (parse FORMATS w)) = stdout w.
Proof.
  unfold parse.
  destruct (FORMATS !! format (_info (self w))) as [parser|] eqn:Hreg.
  - destruct (run parser (_data (self w)) (_logger w)) as [[[parsed|e0] data] log]
      eqn:Hrun.
    + split; [intros e w' [=]|]. split; [discriminate|].
      split; [|auto]. intros w'. split.
      * intros [= <-]. exists parser, data, log. simpl. auto.
      * intros (p & data' & log' & [= <-] & Hrun' & ->).
        rewrite Hrun in Hrun'. inversion Hrun'; subst. reflexivity.
    + split; [intros e w' [= <- _]; reflexivity|]. split; [discriminate|].
      split; [|auto]. intros w'. split; [discriminate|].
      intros (p & data' & log' & [= <-] & Hrun' & _).
      rewrite Hrun in Hrun'. discriminate.
  - split; [intros e w' [= <- _]; reflexivity|]. split; [reflexivity|].
    split; [|auto]. intros w'. split; [discriminate|].
    intros (p & _ & _ & [=] & _).
Qed.

End ParseFacts.

End BasesProps.

(** ** What a failed [export] leaves behind *)

Module ExportProps.
Import Entities.

Section ExportFailure.

Variable FORMATS : gmap string Exporter.
Variable utf8_decode : string -> result (list Z).
Variable writable : string -> bool.
Variable encodes : stream -> list Z -> bool.

Lemma decode_utf8_unicode (data data' : pyval) :
  decode_utf8 utf8_decode data = Ok data' -> isinstance_unicode data' = true.
Proof.
  destruct data as [|z|s|u]; simpl; try discriminate.
  - destruct (utf8_decode s); simpl; [intros [= <-]; reflexivity | discriminate].
  - destruct (is_ascii u); [intros [= <-]; reflexivity | discriminate].
Qed.

(** X11. An [export] that raises has changed neither the database object
    nor the standard output, and it has only added to the log.  The files
    are as before, with two exceptions, both for an export into a file that
    could be opened: a binary format whose exporter gave something else
    than a byte string raises [TypeError], and a text format whose text the
    encoding of the locale cannot write raises [UnicodeEncodeError]; each
    leaves the file it opened empty. *)
Theorem export_failure (format : string) (minified : bool)
    (filename : option string) (w w' : World) (e : exn) :
  export FORMATS utf8_decode writable encodes format minified filename w
    = (Raise e, w') ->
  self w' = self w
  /\ stdout w' = stdout w
  /\ _logger w `prefix_of` _logger w'
  /\ (files w' = files w
      \/ exists exporter name,
           FORMATS !! format = Some exporter
           /\ filename = Some name /\ name <> ""
           /\ let f := if decide (name = "auto")
                       then "dtb" +:+ extension exporter else name in
              writable f = true
              /\ (binary_format exporter = true /\ e = TypeError
                  /\ files w' = <[f := PStr ""]> (files w)
                  \/ binary_format exporter = false
                     /\ e = UnicodeEncodeError
                     /\ files w' = <[f := PUnicode []]> (files w))).
Proof.
  unfold export. destruct (FORMATS !! format) as [exporter|] eqn:Hreg.
  2:{ intros [= <- <-]. repeat split; auto. }
  set (msg := if minified then _ else _).
  assert (Hlog : (if minified
                  then logger INFO ("Exporting database to minified "
                                    +:+ exporter_format exporter
                                    +:+ " format...")
                  else logger INFO ("Exporting database to "
                                    +:+ exporter_format exporter
                                    +:+ " format..."))
                 = logger INFO (if minified
                                then "Exporting database to minified "
                                     +:+ exporter_format exporter
                                     +:+ " format..."
                                else "Exporting database to "
                                     +:+ exporter_format exporter
                                     +:+ " format..."))
    by (destruct minified; reflexivity).
  subst msg. rewrite Hlog. clear Hlog.
  set (m := if minified then _ else _). clearbody m.
  unfold mbind, IO_bind, logger, get_self, lift, mret, IO_ret. cbn [self _logger files stdout].
  destruct (exporter_data exporter (_data (self w)) minified) as [raw|e0].
  2:{ intros [= <- <-]. simpl. repeat split; auto. by eexists. }
  set (conv := if negb (binary_format exporter) && negb (isinstance_unicode raw) then _ else _).
  assert (Hconv : conv = fun w0 =>
            ((if negb (binary_format exporter) && negb (isinstance_unicode raw)
              then decode_utf8 utf8_decode raw else Ok raw), w0)).
  { subst conv.
    destruct (negb (binary_format exporter) && negb (isinstance_unicode raw));
      reflexivity. }
  rewrite Hconv. clear conv Hconv. cbv beta.
  destruct (if negb (binary_format exporter) && negb (isinstance_unicode raw)
            then decode_utf8 utf8_decode raw else Ok raw) as [data|e0] eqn:Hdata.
  2:{ intros [= <- <-]. simpl. repeat split; auto. by eexists. }
  cbn [self _logger files stdout].
  destruct (truthy filename) eqn:Hname.
  - destruct filename as [name|]; [|discriminate]. cbn [truthy] in Hname.
    apply negb_true_iff in Hname.
    assert (Hne : name <> "") by (intros ->; rewrite EntitiesProps.str_eqb_refl in Hname; discriminate).
    cbn [default from_option id].
    assert (Hfile : (if str_eqb name "auto"
                     then "dtb" +:+ extension exporter else name)
                    = (if decide (name = "auto")
                       then "dtb" +:+ extension exporter else name)).
    { destruct (decide (name = "auto")) as [->|Hna].
      - rewrite EntitiesProps.str_eqb_refl. reflexivity.
      - rewrite (proj2 (EntitiesProps.str_eqb_neq _ _) Hna). reflexivity. }
    rewrite Hfile. clear Hfile.
    set (f := if decide (name = "auto") then _ else name).
    unfold open_write. cbn [self _logger files stdout].
    destruct (writable f) eqn:Hw; cbn [negb].
    2:{ intros [= <- <-]. simpl. repeat split; auto.
        rewrite <- app_assoc. by eexists. }
    destruct (binary_format exporter) eqn:Hbin.
    + destruct data; intros [= <- <-]; simpl; (repeat split; auto);
        try (rewrite <- app_assoc; by eexists);
        right; exists exporter, name; auto 10.
    + assert (Huni : isinstance_unicode data = true).
      { cbn [negb andb] in Hdata.
        destruct (isinstance_unicode raw) eqn:Hraw; cbn [negb] in Hdata.
        - inversion Hdata; subst. exact Hraw.
        - apply decode_utf8_unicode in Hdata. exact Hdata. }
      destruct data as [| |s|u]; try discriminate.
      destruct (encodes TextFile u); intros [= <- <-]; simpl.
      (repeat split; auto); try (rewrite <- app_assoc; by eexists).
      right. exists exporter, name. auto 10.
  - unfold stdout_write. cbn [self _logger files stdout].
    destruct data as [| |s|u]; [| | |destruct (encodes StandardOutput u)];
      intros [= <- <-]; simpl; (repeat split; auto);
      rewrite <- app_assoc; by eexists.
Qed.

End ExportFailure.

End ExportProps.

Module ExportExamples.
Import Entities Samples ExportSamples ExportProps.

(** A text export into a file when the locale's encoding cannot write the
    text: [UnicodeEncodeError], and neither the standard output nor the
    database object has changed. *)
Lemma export_failure_witness :
  stdout (snd (export accent_registry ascii_decode any_file ascii_streams
                      "csv" false (Some "auto") world)) = []
  /\ self (snd (export accent_registry ascii_decode any_file ascii_streams
                       "csv" false (Some "auto") world)) = self world.
Proof.
  destruct (export_failure accent_registry ascii_decode any_file
              ascii_streams "csv" false (Some "auto") world
              (snd (export accent_registry ascii_decode any_file
                           ascii_streams "csv" false (Some "auto") world))
              UnicodeEncodeError)
    as (Hself & Hout & _).
  - vm_compute. reflexivity.
  - split; [exact Hout | exact Hself].
Defined.

(** The two exports that leave an empty file behind: text that the ASCII
    locale cannot write, and text given by a binary format. *)
Lemma export_empty_file :
  export accent_registry ascii_decode any_file ascii_streams "csv" false
         (Some "auto") world
    = (Raise UnicodeEncodeError,
       mkWorld (self world)
               [(INFO, "Exporting database to CSV format...");
                (DEBUG, "Done.")]
               (<["dtb.csv" := PUnicode []]> ∅) [])
  /\ export text_registry ascii_decode any_file ascii_streams "msgpack"
            false (Some "out.bin") world
     = (Raise TypeError,
        mkWorld (self world)
                [(INFO, "Exporting database to MessagePack format...");
                 (DEBUG, "Done.")]
                (<["out.bin" := PStr ""]> ∅) []).
Proof. split; vm_compute; reflexivity. Qed.

(** The same text on a standard output with the ASCII encoding:
    [UnicodeEncodeError], and nothing is written. *)
Lemma export_stdout_encoding :
  export accent_registry ascii_decode any_file ascii_streams "csv" false
         None world
    = (Raise UnicodeEncodeError,
       mkWorld (self world)
               [(INFO, "Exporting database to CSV format...");
                (DEBUG, "Done.")]
               ∅ []).
Proof. vm_compute. reflexivity. Qed.

End ExportExamples.

(** ** Python's slices as prefixes, suffixes and windows *)

Module SliceProps.
Import Python.

Section SliceFacts.

Context {A : Type}.
Implicit Type l : list A.

Lemma adjust_range (n i : Z) : 0 <= n -> 0 <= adjust n i <= n.
Proof.
  intros Hn. unfold adjust. destruct (Z.ltb_spec i 0); lia.
Qed.

Lemma len_nonneg l : 0 <= len l.
Proof. unfold len. lia. Qed.

(** [l[:k]] is a prefix and [l[k:]] the matching suffix. *)
Lemma slice_prefix (k : Z) l :
  slice None (Some k) l = take (Z.to_nat (adjust (len l) k)) l.
Proof.
  unfold slice, lower, upper. rewrite Z.sub_0_r. reflexivity.
Qed.

Lemma slice_suffix (k : Z) l :
  slice (Some k) None l = drop (Z.to_nat (adjust (len l) k)) l.
Proof.
  unfold slice, lower, upper.
  pose proof (adjust_range (len l) k (len_nonneg l)) as Hk.
  apply take_ge. rewrite length_drop. unfold len in *. lia.
Qed.

Lemma slice_prefix_suffix (k : Z) l :
  slice None (Some k) l ++ slice (Some k) None l = l.
Proof. rewrite slice_prefix, slice_suffix. apply take_drop. Qed.

(** [l[a:a + w]] for an [a] and a [w] that are not negative. *)
Lemma slice_window (a w : Z) l :
  0 <= a -> 0 <= w ->
  slice (Some a) (Some (a + w)) l = take (Z.to_nat w) (drop (Z.to_nat a) l).
Proof.
  intros Ha Hw. unfold slice, lower, upper, adjust, len.
  destruct (Z.ltb_spec a 0); [lia|]. destruct (Z.ltb_spec (a + w) 0); [lia|].
  destruct (Z.le_gt_cases a (Z.of_nat (length l))) as [Hin|Hout].
  - rewrite (Z.min_l a) by lia.
    destruct (Z.le_gt_cases (a + w) (Z.of_nat (length l))) as [Hfit|Hover].
    + rewrite Z.min_l by lia. f_equal. lia.
    + rewrite Z.min_r by lia. rewrite !take_ge; [reflexivity | |];
        rewrite length_drop; lia.
  - rewrite !Z.min_r by lia. rewrite Z.sub_diag. simpl.
    rewrite (drop_ge l (Z.to_nat a)) by lia. rewrite take_nil. reflexivity.
Qed.

Lemma del_slice_suffix (k : Z) l :
  del_slice (Some k) None l = take (Z.to_nat (adjust (len l) k)) l.
Proof.
  unfold del_slice, lower, upper.
  pose proof (adjust_range (len l) k (len_nonneg l)) as Hk.
  rewrite Z.max_r by lia. unfold len. rewrite Nat2Z.id, drop_all.
  apply app_nil_r.
Qed.

End SliceFacts.

End SliceProps.

(** ** The methods of [List] that cut a list into pieces *)

Module ListProps.
Import Python SliceProps.

Local Open Scope nat_scope.

(** The windows of width [s] that cover a list, taken one after another. *)
Lemma windows_concat {A} (s c : nat) :
  forall l : list A,
    length l <= c * s ->
    concat (map (fun i => take s (drop (i * s) l)) (seq 0 c)) = l.
Proof.
  induction c as [|c IH]; intros l Hlen.
  - destruct l; [reflexivity | simpl in Hlen; lia].
  - rewrite <- cons_seq, <- fmap_S_seq. simpl. rewrite drop_0.
    rewrite <- list_fmap_compose.
    rewrite (list_fmap_ext _ (fun i => take s (drop (i * s) (drop s l)))
               (seq 0 c) ).
    + rewrite IH by (rewrite length_drop; lia). apply take_drop.
    + intros i x _. simpl. rewrite drop_drop. do 2 f_equal; lia.
Qed.

Local Open Scope Z_scope.

Lemma range_up_length (n size : Z) :
  0 <= n -> 0 < size ->
  range_length 0 n size = (n + size - 1) / size
  /\ (n <= (n + size - 1) / size * size)
  /\ (forall i, 0 <= i < (n + size - 1) / size -> i * size < n).
Proof.
  intros Hn Hs. unfold range_length.
  destruct (Z.ltb_spec 0 size); [|lia].
  pose proof (Z.div_mod (n + size - 1) size ltac:(lia)) as Hdm.
  pose proof (Z.mod_pos_bound (n + size - 1) size Hs) as Hmod.
  destruct (Z.ltb_spec 0 n) as [Hpos|Hzero].
  - split; [|split; [nia|intros i Hi; nia]].
    rewrite Z.sub_0_r.
    replace (n + size - 1) with ((n - 1) + 1 * size) by lia.
    rewrite Z.div_add by lia. reflexivity.
  - assert (n = 0) by lia. subst n.
    rewrite Z.add_0_l, Z.div_small by lia. split; [reflexivity|].
    split; [lia | intros i Hi; lia].
Qed.

Lemma chunk_windows (size : Z) (self : list obj) :
  0 < size ->
  PyList.chunk size self
  = Return (map OList
              (map (fun i => take (Z.to_nat size)
                                  (drop (i * Z.to_nat size) self))
                   (seq 0 (Z.to_nat ((len self + size - 1) / size))))).
Proof.
  unfold PyList.chunk. intros Hs. destruct (Z.leb_spec size 0); [lia|].
  pose proof (len_nonneg self) as Hn.
  destruct (range_up_length (len self) size Hn Hs) as (Hcount & _ & _).
  f_equal. unfold range. rewrite Hcount.
  rewrite <- !list_fmap_compose. apply list_fmap_ext.
  intros i x Hx. simpl. f_equal. rewrite Z.add_0_l.
  rewrite slice_window by nia. do 2 f_equal.
  rewrite Z2Nat.inj_mul, Nat2Z.id by lia. reflexivity.
Qed.

Lemma chunk_concat (size : Z) (self pieces : list obj) :
  PyList.chunk size self = Return pieces ->
  exists parts, pieces = map OList parts /\ concat parts = self.
Proof.
  intros Hchunk. destruct (Z.le_gt_cases size 0) as [Hs|Hs].
  - unfold PyList.chunk in Hchunk.
    destruct (Z.leb_spec size 0); [discriminate | lia].
  - rewrite chunk_windows in Hchunk by lia. inversion Hchunk.
    eexists. split; [reflexivity|]. apply windows_concat.
    pose proof (len_nonneg self) as Hn.
    destruct (range_up_length (len self) size Hn ltac:(lia))
      as (_ & Hcover & _).
    assert (0 <= (len self + size - 1) / size) by (apply Z.div_pos; lia).
    unfold len in *. nia.
Qed.

(** X12. [chunk] raises [ValueError] exactly for a size that is not
    positive.  Otherwise it cuts the list into consecutive pieces, which
    put together give the list back: as many as the length divided by the
    size, rounded up, none empty, all of the given size but possibly the
    last. *)
Theorem chunk_pieces (size : Z) (self : list obj) :
  (PyList.chunk size self = Throw ValueError <-> size <= 0)
  /\ (0 < size ->
      exists pieces : list (list obj),
        PyList.chunk size self = Return (map OList pieces)
        /\ concat pieces = self
        /\ len pieces = (len self + size - 1) / size
        /\ Forall (fun piece => 0 < len piece <= size) pieces
        /\ forall (i : nat) piece,
             pieces !! i = Some piece -> (S i < length pieces)%nat ->
             len piece = size).
Proof.
  split.
  { unfold PyList.chunk.
    destruct (Z.leb_spec size 0); split; try discriminate; auto; lia. }
  intros Hs. rewrite chunk_windows by exact Hs.
  pose proof (len_nonneg self) as Hn.
  destruct (range_up_length (len self) size Hn Hs) as (_ & Hcover & Hin).
  set (c := Z.to_nat ((len self + size - 1) / size)).
  set (s := Z.to_nat size).
  assert (Hc : 0 <= (len self + size - 1) / size)
    by (apply Z.div_pos; lia).
  exists (map (fun i => take s (drop (i * s) self)) (seq 0 c)).
  split; [reflexivity|]. split; [|split; [|split]].
  - apply windows_concat. subst c s. unfold len in *. nia.
  - subst c. unfold len in *. rewrite length_map, length_seq. lia.
  - apply Forall_forall. intros piece Hp.
    apply list_elem_of_fmap in Hp as (i & -> & Hi).
    apply elem_of_seq in Hi. unfold len.
    rewrite length_take, length_drop.
    assert (Z.of_nat i * size < len self) by (apply Hin; subst c; lia).
    subst s. unfold len in *. nia.
  - intros i piece Hp Hlast. rewrite length_map, length_seq in Hlast.
    rewrite list_lookup_fmap in Hp.
    destruct (seq 0 c !! i) as [j|] eqn:Hj; [|discriminate].
    apply lookup_seq in Hj as [-> _]. simpl in Hp. inversion Hp; subst piece.
    unfold len. rewrite length_take, length_drop.
    assert (Z.of_nat (S i) * size < len self) by (apply Hin; subst c; lia).
    subst s. unfold len in *. nia.
Qed.

Lemma range_from_1 (k : nat) :
  range 1 (Z.of_nat k + 1) 1 = map Z.of_nat (seq 1 k).
Proof.
  unfold range, range_length. change (0 <? 1) with true. cbv iota.
  destruct (Z.ltb_spec 1 (Z.of_nat k + 1)) as [Hk|Hk].
  - rewrite Z.div_1_r.
    replace (Z.to_nat (Z.of_nat k + 1 - 1 - 1 + 1)) with k by lia.
    rewrite <- fmap_S_seq, <- list_fmap_compose. apply list_fmap_ext.
    intros i x _. simpl. lia.
  - assert (k = 0%nat) by lia. subst k. reflexivity.
Qed.

Lemma split_loop (q : Z) (k : nat) :
  forall acc rest : list obj,
    0 <= q -> q * Z.of_nat k <= len rest <= (q + 1) * Z.of_nat k ->
    exists groups : list (list obj),
      fst (fold_left PyList.split_step (rev (map Z.of_nat (seq 1 k)))
                     (acc, rest))
      = acc ++ map OList groups
      /\ length groups = k
      /\ concat groups = rest
      /\ Forall (fun group => q <= len group <= q + 1) groups.
Proof.
  induction k as [|k IH]; intros acc rest Hq Hlen.
  - exists []. simpl. rewrite app_nil_r. repeat split; auto.
    destruct rest; [reflexivity | unfold len in Hlen; simpl in Hlen; lia].
  - rewrite seq_S, map_app, rev_app_distr. simpl rev. simpl app.
    cbn [fold_left PyList.split_step].
    set (d := len rest / Z.of_nat (S k)).
    assert (Hd : d = q \/ d = q + 1).
    { pose proof (Z.div_mod (len rest) (Z.of_nat (S k)) ltac:(lia)) as Hdm.
      pose proof (Z.mod_pos_bound (len rest) (Z.of_nat (S k)) ltac:(lia)).
      fold d in Hdm. nia. }
    assert (Hrem : q * Z.of_nat k <= len rest - d <= (q + 1) * Z.of_nat k).
    { pose proof (Z.div_mod (len rest) (Z.of_nat (S k)) ltac:(lia)) as Hdm.
      pose proof (Z.mod_pos_bound (len rest) (Z.of_nat (S k)) ltac:(lia)).
      fold d in Hdm. nia. }
    assert (Hdle : 0 <= d <= len rest).
    { pose proof (len_nonneg rest). nia. }
    rewrite slice_prefix, slice_suffix.
    assert (Hadj : adjust (len rest) d = d).
    { unfold adjust. destruct (Z.ltb_spec d 0); lia. }
    rewrite Hadj.
    destruct (IH (acc ++ [OList (take (Z.to_nat d) rest)])
                 (drop (Z.to_nat d) rest) Hq) as (groups & Hfold & Hn & Hcat & Hall).
    { unfold len in *. rewrite length_drop. lia. }
    exists (take (Z.to_nat d) rest :: groups).
    split; [|split; [|split]].
    + rewrite Hfold, <- app_assoc. reflexivity.
    + simpl. lia.
    + simpl. rewrite Hcat. apply take_drop.
    + constructor; [|exact Hall]. unfold len in *. rewrite length_take. lia.
Qed.

Lemma split_balanced (count : Z) (self : list obj) :
  0 < count ->
  exists groups : list (list obj),
    PyList.split count self = map OList groups
    /\ length groups = Z.to_nat count
    /\ concat groups = self
    /\ Forall (fun group =>
                 len self / count <= len group <= len self / count + 1)
              groups.
Proof.
  unfold PyList.split. intros Hc.
  assert (Hr : range 1 (count + 1) 1
               = map Z.of_nat (seq 1 (Z.to_nat count))).
  { rewrite <- range_from_1. f_equal. lia. }
  rewrite Hr.
  pose proof (len_nonneg self) as Hn.
  pose proof (Z.div_mod (len self) count ltac:(lia)) as Hdm.
  pose proof (Z.mod_pos_bound (len self) count Hc) as Hmod.
  apply (split_loop (len self / count) (Z.to_nat count) [] self).
  - apply Z.div_pos; lia.
  - rewrite Z2Nat.id by lia. nia.
Qed.

(** X13. [split] cuts the list into [count] consecutive groups, which put
    together give the list back, and the groups are balanced: each has the
    length of the list divided by [count], rounded down or up.  For a
    [count] that is not positive it returns the empty list, whatever the
    list holds. *)
Theorem split_groups (count : Z) (self : list obj) :
  (count <= 0 -> PyList.split count self = [])
  /\ (0 < count ->
      exists groups : list (list obj),
        PyList.split count self = map OList groups
        /\ len groups = count
        /\ concat groups = self
        /\ Forall (fun group =>
                     len self / count <= len group <= len self / count + 1)
                  groups).
Proof.
  split.
  - unfold PyList.split. intros Hc. unfold range, range_length.
    change (0 <? 1) with true. cbv iota.
    destruct (Z.ltb_spec 1 (count + 1)); [lia | reflexivity].
  - intros Hc.
    destruct (split_balanced count self Hc)
      as (groups & Hsplit & Hlen & Hcat & Hall).
    exists groups. split; [exact Hsplit|]. split; [unfold len; lia|].
    split; [exact Hcat | exact Hall].
Qed.

Lemma rotate_at (offset : Z) (self : list obj) :
  PyList.rotate offset self =
    drop (Z.to_nat (adjust (len self) offset)) self
    ++ take (Z.to_nat (adjust (len self) offset)) self.
Proof.
  unfold PyList.rotate. rewrite slice_prefix, slice_suffix. reflexivity.
Qed.

Lemma drop_take_swap {A} (p : nat) (l : list A) :
  (p <= length l)%nat ->
  drop (length l - p) (drop p l ++ take p l) ++
  take (length l - p) (drop p l ++ take p l) = l.
Proof.
  intros Hp.
  rewrite drop_app_length', take_app_length' by (rewrite length_drop; lia).
  apply take_drop.
Qed.

(** X14. [rotate] moves the first [offset] items of the list behind the
    others (the last [-offset] items before the others for a negative
    offset): the result holds the same items.  Rotating back by the
    opposite offset gives the list again, as long as the offset is not
    beyond the length; an offset beyond the length does not wrap around, it
    leaves the list as it is. *)
Theorem rotate_list (offset : Z) (self : list obj) :
  PyList.rotate offset self ≡ₚ self
  /\ (0 <= offset <= len self ->
      PyList.rotate offset self
      = drop (Z.to_nat offset) self ++ take (Z.to_nat offset) self)
  /\ (- len self <= offset <= len self ->
      PyList.rotate (- offset) (PyList.rotate offset self) = self)
  /\ (len self <= Z.abs offset -> PyList.rotate offset self = self).
Proof.
  pose proof (len_nonneg self) as Hn.
  pose proof (adjust_range (len self) offset Hn) as Hp.
  split; [|split; [|split]].
  - rewrite rotate_at, Permutation_app_comm, take_drop. reflexivity.
  - intros Hoff. rewrite rotate_at. unfold adjust.
    destruct (Z.ltb_spec offset 0); [lia|]. rewrite Z.min_l by lia.
    reflexivity.
  - intros Hoff. rewrite (rotate_at (- offset)), (rotate_at offset).
    set (p := Z.to_nat (adjust (len self) offset)).
    assert (Hlen : len (drop p self ++ take p self) = len self).
    { unfold len. rewrite length_app, length_drop, length_take.
      subst p. unfold len in *. lia. }
    rewrite Hlen.
    destruct (Z.eq_dec offset 0) as [->|Hnz].
    + assert (H0 : adjust (len self) 0 = 0)
        by (unfold adjust; simpl; lia).
      subst p. change (- 0) with 0. rewrite H0. change (Z.to_nat 0) with 0%nat.
      rewrite !drop_0, !take_0, !app_nil_r. reflexivity.
    + assert (Hq : Z.to_nat (adjust (len self) (- offset))
                   = (length self - p)%nat).
      { subst p. unfold adjust, len in *.
        destruct (Z.ltb_spec offset 0), (Z.ltb_spec (- offset) 0); lia. }
      rewrite Hq. apply drop_take_swap. subst p. unfold len in *. lia.
  - intros Hbig. rewrite rotate_at. unfold adjust, len in *.
    destruct (Z.ltb_spec offset 0).
    + rewrite Z.max_r by lia. simpl. rewrite drop_0. apply app_nil_r.
    + rewrite Z.min_r by lia. rewrite Nat2Z.id, drop_all, firstn_all.
      reflexivity.
Qed.

Lemma take_nonneg (count : Z) (self : list obj) :
  0 <= count -> PyList.take count self = take (Z.to_nat count) self.
Proof.
  intros Hc. unfold PyList.take. destruct (Z.leb_spec 0 count); [|lia].
  rewrite slice_prefix. unfold adjust, len.
  destruct (Z.ltb_spec count 0); [lia|].
  destruct (Z.le_gt_cases count (Z.of_nat (length self))).
  - rewrite Z.min_l by lia. reflexivity.
  - rewrite Z.min_r by lia. rewrite !take_ge by lia. reflexivity.
Qed.

Lemma take_negative (count : Z) (self : list obj) :
  count < 0 ->
  PyList.take count self = drop (length self - Z.to_nat (- count)) self.
Proof.
  intros Hc. unfold PyList.take. destruct (Z.leb_spec 0 count); [lia|].
  rewrite slice_suffix. unfold adjust, len.
  destruct (Z.ltb_spec count 0); [|lia]. f_equal. lia.
Qed.

(** X15. [take] gives the first [count] items of the list, or its last
    [-count] items for a negative [count], and the whole list when it has
    no more than that; the items before a position and the items from it on
    are the list. *)
Theorem take_items (count : Z) (self : list obj) :
  (0 <= count -> PyList.take count self = take (Z.to_nat count) self)
  /\ (count < 0 ->
      PyList.take count self
      = drop (length self - Z.to_nat (- count)) self)
  /\ len (PyList.take count self) = Z.min (Z.abs count) (len self)
  /\ (0 <= count <= len self ->
      PyList.take count self ++ PyList.take (count - len self) self = self).
Proof.
  pose proof (len_nonneg self) as Hn.
  split; [apply take_nonneg|]. split; [apply take_negative|]. split.
  - destruct (Z.le_gt_cases 0 count) as [Hc|Hc].
    + rewrite take_nonneg by exact Hc. unfold len. rewrite length_take. lia.
    + rewrite take_negative by exact Hc. unfold len. rewrite length_drop.
      lia.
  - intros Hc. rewrite (take_nonneg count) by lia.
    destruct (Z.eq_dec count (len self)) as [Heq|Hne].
    + rewrite Heq, Z.sub_diag, take_nonneg by lia. unfold len.
      rewrite Nat2Z.id, firstn_all. simpl. apply app_nil_r.
    + rewrite take_negative by lia.
      replace (length self - Z.to_nat (- (count - len self)))%nat
        with (Z.to_nat count) by (unfold len in *; lia).
      apply take_drop.
Qed.

Lemma adjust_mono (n i j : Z) :
  0 <= n -> i <= j -> j < 0 \/ 0 <= i -> adjust n i <= adjust n j.
Proof.
  intros Hn Hij Hside. unfold adjust.
  destruct (Z.ltb_spec i 0), (Z.ltb_spec j 0); lia.
Qed.

Lemma splice_sized (index s : Z) (self : list obj) :
  s <> 0 ->
  PyList.splice index (Some s) self
  = (take (Z.to_nat (adjust (len self) (index + s))
           - Z.to_nat (adjust (len self) index))
          (drop (Z.to_nat (adjust (len self) index)) self),
     take (Z.to_nat (adjust (len self) index)) self
     ++ drop (Nat.max (Z.to_nat (adjust (len self) index))
                      (Z.to_nat (adjust (len self) (index + s)))) self).
Proof.
  intros Hs. unfold PyList.splice.
  destruct (Z.eqb_spec s 0); [contradiction|]. cbn [negb].
  unfold slice, del_slice, lower, upper.
  pose proof (adjust_range (len self) index (len_nonneg self)).
  pose proof (adjust_range (len self) (index + s) (len_nonneg self)).
  rewrite Z2Nat.inj_sub, Z2Nat.inj_max by lia. reflexivity.
Qed.

Lemma splice_tail (index : Z) (size : option Z) (self : list obj) :
  size = None \/ size = Some 0 ->
  PyList.splice index size self
  = (drop (Z.to_nat (adjust (len self) index)) self,
     take (Z.to_nat (adjust (len self) index)) self).
Proof.
  intros [->| ->]; unfold PyList.splice; simpl;
    rewrite slice_suffix, del_slice_suffix; reflexivity.
Qed.

(** X16. [splice] returns the slice it removes: put back at the place of
    [index], it restores the list.  Without a size, and also with the size
    [0], everything from [index] on is removed.  A positive size removes
    that many items from an [index] counted from the start; from an [index]
    counted from the end it removes nothing when the items asked for are
    exactly the last ones.  A negative size removes nothing, unless the
    index is counted from the start and the size reaches before it. *)
Theorem splice_removed (index : Z) (size : option Z) (self : list obj) :
  let p := Z.to_nat (adjust (len self) index) in
  let removed := (PyList.splice index size self).1 in
  let rest := (PyList.splice index size self).2 in
  take p rest ++ removed ++ drop p rest = self
  /\ (size = None \/ size = Some 0 ->
      removed = drop p self /\ rest = take p self)
  /\ (forall s, size = Some s -> 0 < s -> 0 <= index ->
      removed = take (Z.to_nat s) (drop p self)
      /\ rest = take p self ++ drop (p + Z.to_nat s) self)
  /\ (forall s, size = Some s -> index < 0 -> index + s = 0 ->
      removed = [] /\ rest = self)
  /\ (forall s, size = Some s -> s < 0 -> index < 0 \/ 0 <= index + s ->
      removed = [] /\ rest = self).
Proof.
  pose proof (len_nonneg self) as Hn.
  pose proof (adjust_range (len self) index Hn) as Hp.
  cbv zeta. set (p := Z.to_nat (adjust (len self) index)).
  assert (Hpl : (p <= length self)%nat) by (subst p; unfold len in *; lia).
  split; [|split; [|split; [|split]]].
  - destruct (decide (size = None \/ size = Some 0)) as [Hsz|Hsz].
    + rewrite (splice_tail index size self Hsz). simpl. fold p.
      rewrite (take_ge (take p self)), (drop_ge (take p self))
        by (rewrite length_take; lia).
      rewrite app_nil_r. apply take_drop.
    + destruct size as [s|]; [|exfalso; auto].
      assert (s <> 0) by (intros ->; auto).
      rewrite (splice_sized index s) by assumption. simpl. fold p.
      set (q := Z.to_nat (adjust (len self) (index + s))).
      rewrite take_app_length', drop_app_length'
        by (rewrite length_take; lia).
      rewrite <- (take_drop p self) at 4. f_equal.
      rewrite <- (take_drop (q - p) (drop p self)) at 2. f_equal.
      rewrite drop_drop. f_equal. lia.
  - intros Hsz. rewrite (splice_tail index size self Hsz). auto.
  - intros s -> Hs Hi. rewrite (splice_sized index s) by lia. simpl. fold p.
    set (q := Z.to_nat (adjust (len self) (index + s))).
    assert (Hq : q = Nat.min (p + Z.to_nat s) (length self)).
    { subst p q. unfold adjust, len in *.
      destruct (Z.ltb_spec index 0), (Z.ltb_spec (index + s) 0); lia. }
    split.
    + destruct (Nat.le_gt_cases (p + Z.to_nat s) (length self)).
      * f_equal. lia.
      * rewrite !take_ge; [reflexivity | |]; rewrite length_drop; lia.
    + f_equal. destruct (Nat.le_gt_cases (p + Z.to_nat s) (length self)).
      * f_equal. lia.
      * rewrite !drop_ge by lia. reflexivity.
  - intros s -> Hi Hs. rewrite (splice_sized index s) by lia. simpl. fold p.
    rewrite Hs.
    assert (H0 : Z.to_nat (adjust (len self) 0) = 0%nat)
      by (unfold adjust; simpl; lia).
    rewrite H0. simpl. rewrite Nat.max_0_r, take_0, take_drop. auto.
  - intros s -> Hs Hside. rewrite (splice_sized index s) by lia. simpl.
    fold p.
    pose proof (adjust_mono (len self) (index + s) index Hn ltac:(lia)
                  Hside).
    pose proof (adjust_range (len self) (index + s) Hn).
    set (q := Z.to_nat (adjust (len self) (index + s))).
    assert (q <= p)%nat by (subst p q; lia).
    replace (q - p)%nat with 0%nat by lia.
    rewrite Nat.max_l by lia. rewrite take_0, take_drop. auto.
Qed.

Lemma omap_lookup {A B} (f : A -> option B) (l : list A) (k : nat) :
  Forall (fun a => is_Some (f a)) l ->
  omap f l !! k = l !! k ≫= f.
Proof.
  intros Hall. revert k. induction Hall as [|a l [b Hb] _ IH]; intros k.
  - reflexivity.
  - simpl. rewrite Hb. destruct k; simpl; [exact (eq_sym Hb) | apply IH].
Qed.

Lemma range_lookup (start stop step : Z) (k : nat) :
  range start stop step !! k =
    if (Z.of_nat k <? range_length start stop step)
    then Some (start + Z.of_nat k * step) else None.
Proof.
  unfold range. rewrite list_lookup_fmap.
  destruct (Z.ltb_spec (Z.of_nat k) (range_length start stop step)).
  - rewrite lookup_seq_lt by lia. reflexivity.
  - rewrite lookup_seq_ge by lia. reflexivity.
Qed.

Lemma range_up_spec (start stop step i : Z) :
  0 < step -> 0 <= i ->
  (i < range_length start stop step <-> start + i * step < stop).
Proof.
  intros Hs Hi. unfold range_length. destruct (Z.ltb_spec 0 step); [|lia].
  destruct (Z.ltb_spec start stop) as [Hlt|Hge]; [|nia].
  pose proof (Z.div_mod (stop - start - 1) step ltac:(lia)) as Hdm.
  pose proof (Z.mod_pos_bound (stop - start - 1) step Hs) as Hmod.
  split; intros H'; nia.
Qed.

Lemma nth_up (step offset : Z) (self : list obj) :
  0 < step -> 0 <= offset ->
  exists items,
    PyList.nth step offset self = Return items
    /\ forall i : nat,
         items !! i = self !! (Z.to_nat offset + i * Z.to_nat step)%nat.
Proof.
  intros Hs Ho. unfold PyList.nth, slice_step.
  destruct (Z.eqb_spec step 0); [lia|].
  destruct (Z.ltb_spec step 0); [lia|].
  eexists. split; [reflexivity|]. intros i.
  pose proof (len_nonneg self) as Hn.
  set (a := adjust_step (len self) step offset).
  assert (Ha : a = Z.min offset (len self)).
  { subst a. unfold adjust_step. destruct (Z.ltb_spec offset 0); [lia|].
    destruct (Z.leb_spec (len self) offset);
      destruct (Z.ltb_spec step 0); lia. }
  rewrite omap_lookup.
  - rewrite range_lookup.
    pose proof (range_up_spec a (len self) step (Z.of_nat i) Hs
                  ltac:(lia)) as Hspec.
    destruct (Z.ltb_spec (Z.of_nat i) (range_length a (len self) step))
      as [Hin|Hout]; simpl.
    + apply Hspec in Hin. f_equal. unfold len in *. nia.
    + symmetry. apply lookup_ge_None.
      assert (~ a + Z.of_nat i * step < len self) by (rewrite <- Hspec; lia).
      unfold len in *. nia.
  - apply Forall_forall. intros j Hj.
    apply list_elem_of_lookup in Hj as [k Hk]. rewrite range_lookup in Hk.
    destruct (Z.ltb_spec (Z.of_nat k) (range_length a (len self) step))
      as [Hin|]; [|discriminate].
    inversion Hk; subst j.
    apply (range_up_spec a (len self) step (Z.of_nat k) Hs ltac:(lia))
      in Hin.
    apply lookup_lt_is_Some. unfold len in *. nia.
Qed.

(** X17. [nth] raises [ValueError] exactly for the step [0].  For a
    positive step and an offset counted from the start, the item at
    position [i] of the result is the item at position [offset + i * step]
    of the list, as far as the list reaches; the step [1] from the start
    gives the whole list. *)
Theorem nth_items (step offset : Z) (self : list obj) :
  (PyList.nth step offset self = Throw ValueError <-> step = 0)
  /\ (0 < step -> 0 <= offset ->
      exists items,
        PyList.nth step offset self = Return items
        /\ forall i : nat,
             items !! i
             = self !! (Z.to_nat offset + i * Z.to_nat step)%nat)
  /\ PyList.nth 1 0 self = Return self.
Proof.
  split; [|split; [apply nth_up|]].
  - unfold PyList.nth, slice_step. destruct (Z.eqb_spec step 0).
    + split; auto.
    + split; [discriminate | contradiction].
  - destruct (nth_up 1 0 self ltac:(lia) ltac:(lia))
      as (items & Hnth & Hitems).
    rewrite Hnth. f_equal. apply list_eq. intros i. rewrite Hitems.
    f_equal. simpl. lia.
Qed.

End ListProps.

(** ** Equality and membership of the values of a list *)

Module ObjProps.
Import Python ListSpec.

(** Induction on a value, with the property for the items of a list or a
    tuple at hand. *)
Lemma obj_induction (P : obj -> Prop) :
  P ONone ->
  (forall z, P (OInt z)) ->
  (forall s, P (OStr s)) ->
  (forall items, Forall P items -> P (OList items)) ->
  (forall items, Forall P items -> P (OTuple items)) ->
  forall v, P v.
Proof.
  intros HNone HInt HStr HList HTuple.
  fix IH 1. intros [|z|s|items|items].
  - exact HNone.
  - apply HInt.
  - apply HStr.
  - apply HList. induction items as [|x items IHitems];
      constructor; [apply IH | exact IHitems].
  - apply HTuple. induction items as [|x items IHitems];
      constructor; [apply IH | exact IHitems].
Qed.

Lemma all_eqb_eq (xs : list obj) :
  Forall (fun x => forall y, obj_eqb x y = true <-> x = y) xs ->
  forall ys,
    (fix all_eqb (xs ys : list obj) : bool :=
       match xs, ys with
       | [], [] => true
       | x :: xs', y :: ys' => obj_eqb x y && all_eqb xs' ys'
       | _, _ => false
       end) xs ys = true <-> xs = ys.
Proof.
  induction 1 as [|x xs Hx _ IH]; intros [|y ys]; try (split; [discriminate|congruence]).
  - split; reflexivity.
  - rewrite andb_true_iff, Hx, IH. split; [intros [-> ->]; reflexivity|].
    intros [= -> ->]. auto.
Qed.

Lemma obj_eqb_eq (a b : obj) : obj_eqb a b = true <-> a = b.
Proof.
  revert b. induction a as [|z|s|items IH|items IH] using obj_induction;
    intros [|z'|s'|items'|items']; simpl;
    try (split; [discriminate | congruence]).
  - split; reflexivity.
  - rewrite Z.eqb_eq. split; congruence.
  - rewrite bool_decide_eq_true. split; congruence.
  - rewrite (all_eqb_eq items IH). split; congruence.
  - rewrite (all_eqb_eq items IH). split; congruence.
Qed.

Lemma obj_eqb_refl (a : obj) : obj_eqb a a = true.
Proof. apply obj_eqb_eq. reflexivity. Qed.

Lemma obj_eqb_neq (a b : obj) : obj_eqb a b = false <-> a <> b.
Proof.
  rewrite <- obj_eqb_eq. destruct (obj_eqb a b); split; congruence.
Qed.

Lemma decide_eq_obj (x y : obj) : {x = y} + {x <> y}.
Proof.
  destruct (obj_eqb x y) eqn:H;
    [left; apply obj_eqb_eq, H | right; apply obj_eqb_neq, H].
Qed.

Lemma contains_elem_of (x : obj) (l : list obj) :
  contains x l = true <-> x ∈ l.
Proof.
  unfold contains. rewrite existsb_exists. split.
  - intros (y & Hy & Heq). apply obj_eqb_eq in Heq. subst y.
    apply list_elem_of_In, Hy.
  - intros Hx. exists x. split; [apply list_elem_of_In, Hx | apply obj_eqb_refl].
Qed.

Lemma contains_not_elem_of (x : obj) (l : list obj) :
  contains x l = false <-> x ∉ l.
Proof.
  rewrite <- contains_elem_of. destruct (contains x l); split; congruence.
Qed.

Lemma filter_elem_of (p : obj -> bool) (x : obj) (l : list obj) :
  x ∈ List.filter p l <-> x ∈ l /\ p x = true.
Proof. rewrite !list_elem_of_In. apply filter_In. Qed.

Lemma filter_sublist {A} (p : A -> bool) (l : list A) :
  sublist (List.filter p l) l.
Proof.
  induction l as [|x l IH]; simpl; [constructor|].
  destruct (p x); [apply sublist_skip | apply sublist_cons]; exact IH.
Qed.

Lemma filter_split {A} (p : A -> bool) (l : list A) :
  List.filter p l ++ List.filter (fun x => negb (p x)) l ≡ₚ l.
Proof.
  induction l as [|x l IH]; simpl; [reflexivity|].
  destruct (p x); simpl.
  - rewrite IH. reflexivity.
  - rewrite <- Permutation_middle, IH. reflexivity.
Qed.

End ObjProps.

(** ** The methods of [List] that choose items *)

Module ListItemProps.
Import Python ListSpec ObjProps.

(** X18. [difference] and [intersection] raise [ValueError] when the other
    value is no list.  Otherwise they share out the items of the list,
    repetitions included and in their order: [intersection] keeps the items
    that are in the other list, [difference] those that are not.  With the
    list itself, [difference] is empty and [intersection] the whole list. *)
Theorem difference_intersection (other : obj) (self : list obj) :
  (is_list other = false ->
   PyList.difference other self = Throw ValueError
   /\ PyList.intersection other self = Throw ValueError)
  /\ (forall o, other = OList o ->
      exists d i,
        PyList.difference other self = Return d
        /\ PyList.intersection other self = Return i
        /\ d ++ i ≡ₚ self
        /\ sublist d self /\ sublist i self
        /\ (forall x, x ∈ d <-> x ∈ self /\ x ∉ o)
        /\ (forall x, x ∈ i <-> x ∈ self /\ x ∈ o))
  /\ PyList.difference (OList self) self = Return []
  /\ PyList.intersection (OList self) self = Return self.
Proof.
  split; [|split; [|split]].
  - destruct other; simpl; try discriminate; auto.
  - intros o ->. simpl. eexists _, _.
    split; [reflexivity|]. split; [reflexivity|].
    split; [|split; [|split; [|split]]].
    + rewrite Permutation_app_comm. apply (filter_split (fun item => contains item o)).
    + apply filter_sublist.
    + apply filter_sublist.
    + intros x. rewrite filter_elem_of, negb_true_iff, contains_not_elem_of.
      reflexivity.
    + intros x. rewrite filter_elem_of, contains_elem_of. reflexivity.
  - simpl. f_equal. 
    assert (H : forall l, (forall x, x ∈ l -> x ∈ self) ->
              List.filter (fun item => negb (contains item self)) l = []).
    { induction l as [|x l IH]; intros Hsub; [reflexivity|]. simpl.
      rewrite (proj2 (contains_elem_of x self)) by (apply Hsub; left).
      simpl. apply IH. intros y Hy. apply Hsub. right. exact Hy. }
    apply H. auto.
  - simpl. f_equal.
    assert (H : forall l, (forall x, x ∈ l -> x ∈ self) ->
              List.filter (fun item => contains item self) l = l).
    { induction l as [|x l IH]; intros Hsub; [reflexivity|]. simpl.
      rewrite (proj2 (contains_elem_of x self)) by (apply Hsub; left).
      f_equal. apply IH. intros y Hy. apply Hsub. right. exact Hy. }
    apply H. auto.
Qed.

Lemma select_total (test : obj -> outcome bool) (g : obj -> bool)
    (l : list obj) :
  (forall item, item ∈ l -> test item = Return (g item)) ->
  PyList.select test l = Return (List.filter g l).
Proof.
  induction l as [|x l IH]; intros Hall; [reflexivity|]. simpl.
  rewrite (Hall x) by left. cbn [mbind outcome_bind].
  rewrite IH by (intros y Hy; apply Hall; right; exact Hy).
  cbn [mbind outcome_bind]. destruct (g x); reflexivity.
Qed.

Lemma select_raises (test : obj -> outcome bool) (before after : list obj)
    (x : obj) (e : error) :
  (forall item, item ∈ before -> exists b, test item = Return b) ->
  test x = Throw e ->
  PyList.select test (before ++ x :: after) = Throw e.
Proof.
  intros Hbefore Hx. induction before as [|y before IH]; simpl.
  - rewrite Hx. reflexivity.
  - destruct (Hbefore y) as [b Hb]; [left|]. rewrite Hb.
    cbn [mbind outcome_bind].
    rewrite IH by (intros z Hz; apply Hbefore; right; exact Hz).
    reflexivity.
Qed.

(** X19. For a predicate that returns on every item of the list,
    [partition] gives two lists that share out the items, in their order:
    the first holds the items for which the predicate gives a true value,
    the second the others; they are what [filter] and [reject] return.
    When the predicate raises on an item, so do all three, and they raise
    [ValueError] for a predicate that cannot be called. *)
Theorem partition_parts (predicate : argument) (self : list obj) :
  (callable predicate = false ->
   PyList.filter predicate self = Throw ValueError
   /\ PyList.reject predicate self = Throw ValueError
   /\ PyList.partition predicate self = Throw ValueError)
  /\ (forall f, predicate = Callable f ->
      (forall item, item ∈ self -> exists v, f item = Return v) ->
      exists passed failed,
        PyList.filter predicate self = Return passed
        /\ PyList.reject predicate self = Return failed
        /\ PyList.partition predicate self
           = Return [OList passed; OList failed]
        /\ passed ++ failed ≡ₚ self
        /\ sublist passed self /\ sublist failed self
        /\ (forall x, x ∈ passed <-> x ∈ self /\ passes f x)
        /\ (forall x, x ∈ failed <-> x ∈ self /\ fails f x))
  /\ (forall f before x after e, predicate = Callable f ->
      self = before ++ x :: after ->
      (forall item, item ∈ before -> exists v, f item = Return v) ->
      f x = Throw e ->
      PyList.filter predicate self = Throw e
      /\ PyList.reject predicate self = Throw e
      /\ PyList.partition predicate self = Throw e).
Proof.
  split; [|split].
  - destruct predicate; simpl; [discriminate | auto].
  - intros f -> Hret.
    set (g := fun item => match f item with
                          | Return v => truthy v
                          | Throw _ => false
                          end).
    assert (Hfilter : PyList.filter (Callable f) self
                      = Return (List.filter g self)).
    { apply select_total. intros item Hitem.
      destruct (Hret item Hitem) as [v Hv]. subst g. simpl. rewrite Hv.
      reflexivity. }
    assert (Hreject : PyList.reject (Callable f) self
                      = Return (List.filter (fun x => negb (g x)) self)).
    { apply select_total. intros item Hitem.
      destruct (Hret item Hitem) as [v Hv]. subst g. simpl. rewrite Hv.
      reflexivity. }
    exists (List.filter g self), (List.filter (fun x => negb (g x)) self).
    split; [exact Hfilter|]. split; [exact Hreject|].
    split; [unfold PyList.partition; rewrite Hfilter, Hreject; reflexivity|].
    split; [apply filter_split|].
    split; [apply filter_sublist|]. split; [apply filter_sublist|].
    split; intros x; rewrite filter_elem_of; split.
    + intros [Hx Hg]. split; [exact Hx|]. subst g. simpl in Hg.
      destruct (f x) as [v|] eqn:Hv; [|discriminate]. exists v. auto.
    + intros [Hx (v & Hv & Ht)]. split; [exact Hx|]. subst g. simpl.
      rewrite Hv. exact Ht.
    + intros [Hx Hg]. split; [exact Hx|]. subst g. simpl in Hg.
      destruct (Hret x Hx) as [v Hv]. rewrite Hv in Hg.
      exists v. split; [exact Hv | apply negb_true_iff, Hg].
    + intros [Hx (v & Hv & Ht)]. split; [exact Hx|]. subst g. simpl.
      rewrite Hv, Ht. reflexivity.
  - intros f before x after e -> -> Hbefore Hx.
    assert (Hfilter : PyList.filter (Callable f) (before ++ x :: after)
                      = Throw e).
    { apply select_raises; [|rewrite Hx; reflexivity].
      intros item Hitem. destruct (Hbefore item Hitem) as [v Hv].
      rewrite Hv. eexists. reflexivity. }
    assert (Hreject : PyList.reject (Callable f) (before ++ x :: after)
                      = Throw e).
    { apply select_raises; [|rewrite Hx; reflexivity].
      intros item Hitem. destruct (Hbefore item Hitem) as [v Hv].
      rewrite Hv. eexists. reflexivity. }
    split; [exact Hfilter|]. split; [exact Hreject|].
    unfold PyList.partition. rewrite Hfilter. reflexivity.
Qed.

Lemma getitem_first {A} (l : list A) :
  getitem 0 l = match l with
                | [] => Throw IndexError
                | x :: _ => Return x
                end.
Proof. destruct l; reflexivity. Qed.

Lemma getitem_last {A} (l : list A) :
  getitem (-1) l = match list.last l with
                   | Some x => Return x
                   | None => Throw IndexError
                   end.
Proof.
  unfold getitem, len. rewrite last_lookup.
  change (-1 <? 0) with true. cbv iota.
  destruct l as [|x l]; [reflexivity|].
  destruct (Z.ltb_spec (-1 + Z.of_nat (length (x :: l))) 0) as [H|H];
    [simpl in H; lia|].
  replace (Z.to_nat (-1 + Z.of_nat (length (x :: l))))
    with (Nat.pred (length (x :: l))) by (simpl; lia).
  reflexivity.
Qed.

Lemma filter_head {A} (g : A -> bool) (l : list A) (x : A) (rest : list A) :
  List.filter g l = x :: rest ->
  exists before after,
    l = before ++ x :: after /\ g x = true
    /\ Forall (fun y => g y = false) before
    /\ rest = List.filter g after.
Proof.
  induction l as [|y l IH]; simpl; [discriminate|].
  destruct (g y) eqn:Hy.
  - intros [= -> <-]. exists [], l. auto.
  - intros H. destruct (IH H) as (before & after & -> & Hx & Hb & Hr).
    exists (y :: before), after. auto.
Qed.

Lemma filter_last {A} (g : A -> bool) (l : list A) (x : A) :
  list.last (List.filter g l) = Some x ->
  exists before after,
    l = before ++ x :: after /\ g x = true
    /\ Forall (fun y => g y = false) after.
Proof.
  induction l as [|y l IH] using rev_ind; simpl; [discriminate|].
  rewrite List.filter_app. simpl. destruct (g y) eqn:Hy.
  - rewrite last_snoc. intros [= ->]. exists l, []. auto.
  - rewrite app_nil_r. intros H.
    destruct (IH H) as (before & after & -> & Hx & Ha).
    exists before, (after ++ [y]). rewrite <- app_assoc. split; [reflexivity|].
    split; [exact Hx|]. apply Forall_app. auto.
Qed.

Lemma filter_nil {A} (g : A -> bool) (l : list A) :
  Forall (fun y => g y = false) l -> List.filter g l = [].
Proof.
  induction 1 as [|y l Hy _ IH]; simpl; [reflexivity|]. rewrite Hy. exact IH.
Qed.

(** X20. Without a predicate, [first] and [last] give the first and the
    last item of the list, and raise [IndexError] on the empty list.  With
    a predicate that returns on every item they give the first and the last
    item for which it gives a true value, and raise [IndexError] when there
    is none.  The predicate is applied to every item: when it raises on
    one, [first] raises too, whatever the items before; and a predicate
    that is true but cannot be called makes both raise [ValueError]. *)
Theorem first_last (predicate : argument) (self : list obj) :
  (argument_truthy predicate = false ->
   PyList.first predicate self
   = match self with [] => Throw IndexError | x :: _ => Return x end
   /\ PyList.last predicate self
      = match list.last self with
        | Some x => Return x
        | None => Throw IndexError
        end)
  /\ (forall v, predicate = Object v -> truthy v = true ->
      PyList.first predicate self = Throw ValueError
      /\ PyList.last predicate self = Throw ValueError)
  /\ (forall f, predicate = Callable f ->
      (forall item, item ∈ self -> exists v, f item = Return v) ->
      (forall x, PyList.first predicate self = Return x ->
         exists before after,
           self = before ++ x :: after /\ passes f x
           /\ Forall (fails f) before)
      /\ (forall x, PyList.last predicate self = Return x ->
            exists before after,
              self = before ++ x :: after /\ passes f x
              /\ Forall (fails f) after)
      /\ (Forall (fails f) self ->
          PyList.first predicate self = Throw IndexError
          /\ PyList.last predicate self = Throw IndexError)
      /\ ((exists x, x ∈ self /\ passes f x) ->
          (exists x, PyList.first predicate self = Return x)
          /\ (exists x, PyList.last predicate self = Return x)))
  /\ (forall f before x after e, predicate = Callable f ->
      self = before ++ x :: after ->
      (forall item, item ∈ before -> exists v, f item = Return v) ->
      f x = Throw e ->
      PyList.first predicate self = Throw e
      /\ PyList.last predicate self = Throw e).
Proof.
  split; [|split; [|split]].
  - intros Hfalse. unfold PyList.first, PyList.last. rewrite Hfalse.
    rewrite getitem_first, getitem_last. auto.
  - intros v -> Hv. unfold PyList.first, PyList.last. simpl. rewrite Hv.
    auto.
  - intros f -> Hret.
    set (g := fun item => match f item with
                          | Return v => truthy v
                          | Throw _ => false
                          end).
    assert (Hfilter : PyList.filter (Callable f) self
                      = Return (List.filter g self)).
    { apply select_total. intros item Hitem.
      destruct (Hret item Hitem) as [v Hv]. subst g. simpl. rewrite Hv.
      reflexivity. }
    assert (Hpass : forall y, y ∈ self -> g y = true -> passes f y).
    { intros y Hy Hg. subst g. simpl in Hg.
      destruct (f y) as [v|] eqn:Hv; [|discriminate]. exists v. auto. }
    assert (Hfail : forall y, y ∈ self -> g y = false -> fails f y).
    { intros y Hy Hg. subst g. simpl in Hg.
      destruct (Hret y Hy) as [v Hv]. rewrite Hv in Hg. exists v. auto. }
    assert (Hfails_g : forall y, fails f y -> g y = false).
    { intros y (v & Hv & Ht). subst g. simpl. rewrite Hv. exact Ht. }
    assert (Hpasses_g : forall y, passes f y -> g y = true).
    { intros y (v & Hv & Ht). subst g. simpl. rewrite Hv. exact Ht. }
    assert (Hfirst : PyList.first (Callable f) self
                     = getitem 0 (List.filter g self)).
    { unfold PyList.first. simpl argument_truthy. cbv iota.
      rewrite Hfilter. reflexivity. }
    assert (Hlast : PyList.last (Callable f) self
                    = getitem (-1) (List.filter g self)).
    { unfold PyList.last. simpl argument_truthy. cbv iota.
      rewrite Hfilter. reflexivity. }
    rewrite Hfirst, Hlast, getitem_first, getitem_last.
    split; [|split; [|split]].
    + intros x Hx.
      destruct (List.filter g self) as [|y rest] eqn:Hf; [discriminate|].
      inversion Hx; subst y.
      destruct (filter_head _ _ _ _ Hf) as (before & after & Hsplit & Hgx & Hb & _).
      exists before, after. split; [exact Hsplit|]. split.
      * apply Hpass; [rewrite Hsplit; set_solver | exact Hgx].
      * apply Forall_forall. intros y Hy. apply Hfail.
        -- rewrite Hsplit. set_solver.
        -- revert y Hy. apply Forall_forall. exact Hb.
    + intros x Hx.
      destruct (list.last (List.filter g self)) as [y|] eqn:Hf; [|discriminate].
      inversion Hx; subst y.
      destruct (filter_last _ _ _ Hf) as (before & after & Hsplit & Hgx & Ha).
      exists before, after. split; [exact Hsplit|]. split.
      * apply Hpass; [rewrite Hsplit; set_solver | exact Hgx].
      * apply Forall_forall. intros y Hy. apply Hfail.
        -- rewrite Hsplit. set_solver.
        -- revert y Hy. apply Forall_forall. exact Ha.
    + intros Hall. rewrite filter_nil; [auto|].
      apply Forall_forall. intros y Hy. apply Hfails_g.
      revert y Hy. apply Forall_forall. exact Hall.
    + intros (x & Hx & Hp).
      assert (Hin : x ∈ List.filter g self).
      { apply filter_elem_of. split; [exact Hx | apply Hpasses_g, Hp]. }
      destruct (List.filter g self) as [|y rest] eqn:Hf;
        [inversion Hin|].
      split; [eauto|].
      destruct (list.last (y :: rest)) as [z|] eqn:Hz; [eauto|].
      apply last_None in Hz. discriminate.
  - intros f before x after e -> -> Hbefore Hx.
    assert (Hfilter : PyList.filter (Callable f) (before ++ x :: after)
                      = Throw e).
    { apply select_raises; [|rewrite Hx; reflexivity].
      intros item Hitem. destruct (Hbefore item Hitem) as [v Hv].
      rewrite Hv. eexists. reflexivity. }
    unfold PyList.first, PyList.last. simpl argument_truthy. cbv iota.
    rewrite Hfilter. auto.
Qed.

End ListItemProps.

(** ** [unique] and [union]: the order of a set does not show *)

Module UniqueProps.
Import Python ListSpec ObjProps.

Lemma set_items_elem_of (x : obj) (l : list obj) :
  x ∈ set_items l <-> x ∈ l.
Proof.
  induction l as [|y l IH]; simpl; [reflexivity|].
  destruct (contains y l) eqn:Hy.
  - rewrite IH. apply contains_elem_of in Hy. rewrite elem_of_cons.
    split; [auto | intros [->|H]; auto].
  - rewrite !elem_of_cons, IH. reflexivity.
Qed.

Lemma set_items_NoDup (l : list obj) : NoDup (set_items l).
Proof.
  induction l as [|y l IH]; simpl; [constructor|].
  destruct (contains y l) eqn:Hy; [exact IH|].
  constructor; [|exact IH]. rewrite set_items_elem_of.
  apply contains_not_elem_of, Hy.
Qed.

Lemma first_occurrences_elem_of (x : obj) (l : list obj) :
  x ∈ first_occurrences l <-> x ∈ l.
Proof.
  induction l as [|y l IH]; simpl; [reflexivity|].
  rewrite !elem_of_cons, filter_elem_of, IH, negb_true_iff, obj_eqb_neq.
  destruct (decide_eq_obj x y) as [->|Hne]; tauto.
Qed.

Lemma filter_NoDup (p : obj -> bool) (l : list obj) :
  NoDup l -> NoDup (List.filter p l).
Proof.
  intros Hnd. exact (sublist_NoDup _ _ Hnd (filter_sublist p l)).
Qed.

Lemma first_occurrences_NoDup (l : list obj) : NoDup (first_occurrences l).
Proof.
  induction l as [|y l IH]; simpl; constructor.
  - rewrite filter_elem_of, negb_true_iff, obj_eqb_neq. tauto.
  - apply filter_NoDup, IH.
Qed.

Lemma first_occurrences_sublist (l : list obj) :
  sublist (first_occurrences l) l.
Proof.
  induction l as [|y l IH]; simpl; [constructor|].
  apply sublist_skip. etransitivity; [apply filter_sublist | exact IH].
Qed.

Lemma set_items_first_occurrences (l : list obj) :
  set_items l ≡ₚ first_occurrences l.
Proof.
  apply NoDup_Permutation;
    [apply set_items_NoDup | apply first_occurrences_NoDup |].
  intros x. rewrite set_items_elem_of, first_occurrences_elem_of.
  reflexivity.
Qed.

(** Insertion sort gives a sorted rearrangement. *)
Lemma insert_by_Permutation (key : obj -> nat) (x : obj) (l : list obj) :
  insert_by key x l ≡ₚ x :: l.
Proof.
  induction l as [|y l IH]; simpl; [reflexivity|].
  destruct (key x <? key y)%nat; [reflexivity|].
  rewrite IH. apply Permutation_swap.
Qed.

Lemma sorted_by_Permutation (key : obj -> nat) (l : list obj) :
  sorted_by key l ≡ₚ l.
Proof.
  induction l as [|x l IH]; simpl; [reflexivity|].
  rewrite insert_by_Permutation, IH. reflexivity.
Qed.

Lemma insert_by_sorted (key : obj -> nat) (x : obj) (l : list obj) :
  StronglySorted (fun a b => (key a <= key b)%nat) l ->
  StronglySorted (fun a b => (key a <= key b)%nat) (insert_by key x l).
Proof.
  induction 1 as [|y l Hl IH Hy]; simpl.
  - constructor; constructor.
  - destruct (Nat.ltb_spec (key x) (key y)) as [Hlt|Hge].
    + constructor; [constructor; assumption|].
      constructor; [lia|].
      apply Forall_forall. intros z Hz.
      assert (key y <= key z)%nat by (revert z Hz; apply Forall_forall, Hy).
      lia.
    + constructor; [exact IH|].
      apply Forall_forall. intros z Hz.
      apply (elem_of_Permutation_proper _ _ _ (insert_by_Permutation key x l))
        in Hz.
      apply elem_of_cons in Hz as [->|Hz]; [exact Hge|].
      revert z Hz. apply Forall_forall, Hy.
Qed.

Lemma sorted_by_sorted (key : obj -> nat) (l : list obj) :
  StronglySorted (fun a b => (key a <= key b)%nat) (sorted_by key l).
Proof.
  induction l as [|x l IH]; simpl; [constructor|].
  apply insert_by_sorted, IH.
Qed.

(** Two sorted rearrangements of the same items are equal when the items
    have different keys. *)
Lemma sorted_unique (key : obj -> nat) (l1 : list obj) :
  forall l2,
    StronglySorted (fun a b => (key a <= key b)%nat) l1 ->
    StronglySorted (fun a b => (key a <= key b)%nat) l2 ->
    l1 ≡ₚ l2 ->
    (forall a b, a ∈ l1 -> b ∈ l1 -> key a = key b -> a = b) ->
    l1 = l2.
Proof.
  induction l1 as [|x l1 IH]; intros l2 Hs1 Hs2 Hperm Hinj.
  - apply Permutation_nil_l in Hperm. congruence.
  - destruct l2 as [|y l2]; [apply Permutation_nil_r in Hperm; discriminate|].
    inversion Hs1 as [|? ? Hs1' Hx]; subst.
    inversion Hs2 as [|? ? Hs2' Hy]; subst.
    assert (Hxy : x = y).
    { assert (Hyin : y ∈ x :: l1) by (rewrite Hperm; left).
      assert (Hxin : x ∈ y :: l2) by (rewrite <- Hperm; left).
      apply Hinj; [left | exact Hyin |].
      apply Nat.le_antisymm.
      - apply elem_of_cons in Hyin as [Heq|Hyin]; [rewrite Heq; lia|].
        exact (proj1 (Forall_forall _ _) Hx y Hyin).
      - apply elem_of_cons in Hxin as [Heq|Hxin]; [rewrite Heq; lia|].
        exact (proj1 (Forall_forall _ _) Hy x Hxin). }
    subst y. f_equal. apply Permutation_cons_inv in Hperm.
    apply IH; try assumption.
    intros a b Ha Hb. apply Hinj; right; assumption.
Qed.

Lemma index_inj (l : list obj) (a b : obj) :
  a ∈ l -> b ∈ l -> index a l = index b l -> a = b.
Proof.
  induction l as [|y l IH]; intros Ha Hb; [inversion Ha|]. simpl.
  destruct (obj_eqb y a) eqn:Hya, (obj_eqb y b) eqn:Hyb; try discriminate.
  - apply obj_eqb_eq in Hya, Hyb. congruence.
  - intros [= Heq]. apply obj_eqb_neq in Hya, Hyb.
    apply elem_of_cons in Ha as [->|Ha]; [congruence|].
    apply elem_of_cons in Hb as [->|Hb]; [congruence|].
    apply IH; assumption.
Qed.

Lemma first_occurrences_sorted (l : list obj) :
  StronglySorted (fun a b => (index a l <= index b l)%nat)
                 (first_occurrences l).
Proof.
  induction l as [|x l IH]; simpl; [constructor|].
  constructor.
  - assert (Hmono : forall l0,
              StronglySorted (fun a b => (index a l <= index b l)%nat) l0 ->
              StronglySorted
                (fun a b => ((if obj_eqb x a then 0 else S (index a l))
                             <= (if obj_eqb x b then 0 else S (index b l)))%nat)
                (List.filter (fun y => negb (obj_eqb y x)) l0)).
    { induction 1 as [|y l0 Hl0 IH0 Hy]; simpl; [constructor|].
      destruct (obj_eqb y x) eqn:Hyx; simpl; [exact IH0|].
      constructor; [exact IH0|].
      apply Forall_forall. intros z Hz.
      apply filter_elem_of in Hz as [Hz Hzx].
      apply negb_true_iff in Hzx.
      pose proof (proj1 (Forall_forall _ _) Hy z Hz) as Hle. simpl in Hle.
      apply obj_eqb_neq in Hyx, Hzx.
      rewrite (proj2 (obj_eqb_neq x y)), (proj2 (obj_eqb_neq x z))
        by congruence.
      lia. }
    apply Hmono, IH.
  - apply Forall_forall. intros z _. rewrite obj_eqb_refl. lia.
Qed.

Lemma first_occurrences_app (l o : list obj) :
  first_occurrences (l ++ o)
  = first_occurrences l
    ++ List.filter (fun y => negb (contains y l)) (first_occurrences o).
Proof.
  induction l as [|x l IH]; simpl.
  - symmetry. induction (first_occurrences o) as [|y t IHt];
      simpl; [reflexivity | f_equal; exact IHt].
  - f_equal. rewrite IH, List.filter_app. f_equal. clear IH.
    induction (first_occurrences o) as [|y t IHt]; simpl; [reflexivity|].
    destruct (contains y l) eqn:Hyl; simpl.
    + rewrite orb_true_r. simpl. exact IHt.
    + rewrite orb_false_r.
      destruct (obj_eqb y x) eqn:Hyx; simpl; [exact IHt | f_equal; exact IHt].
Qed.

(** X21. [unique] raises [TypeError] when an item has no hash; otherwise
    it gives the items of the list without their later repetitions, in the
    order of the list, and this whatever the order in which the set of the
    items is iterated.  [union] raises [ValueError] when the other value
    is no list; otherwise it gives the distinct items of the list, followed
    by the distinct items of the other list that the list does not hold. *)
Theorem unique_order (self : list obj) :
  (forallb hashable self = false -> PyList.unique self = Throw TypeError)
  /\ (forallb hashable self = true ->
      PyList.unique self = Return (first_occurrences self))
  /\ (forall items, items ≡ₚ set_items self ->
      sorted_by (fun item => index item self) items
      = first_occurrences self)
  /\ NoDup (first_occurrences self)
  /\ sublist (first_occurrences self) self
  /\ (forall x, x ∈ first_occurrences self <-> x ∈ self)
  /\ (forall other, is_list other = false ->
      PyList.union other self = Throw ValueError)
  /\ (forall o, forallb hashable (self ++ o) = true ->
      PyList.union (OList o) self
      = Return (first_occurrences self
                ++ List.filter (fun y => negb (contains y self))
                               (first_occurrences o))).
Proof.
  assert (Horder : forall l items, items ≡ₚ set_items l ->
            sorted_by (fun item => index item l) items
            = first_occurrences l).
  { intros l items Hitems.
    apply (sorted_unique (fun item => index item l)).
    - apply sorted_by_sorted.
    - apply first_occurrences_sorted.
    - rewrite sorted_by_Permutation, Hitems.
      apply set_items_first_occurrences.
    - intros a b Ha Hb.
      rewrite sorted_by_Permutation, Hitems, set_items_elem_of in Ha, Hb.
      apply index_inj; assumption. }
  assert (Hunique : forall l, forallb hashable l = true ->
            PyList.unique l = Return (first_occurrences l)).
  { intros l Hl. unfold PyList.unique. rewrite Hl. f_equal.
    apply Horder. reflexivity. }
  split; [intros H; unfold PyList.unique; rewrite H; reflexivity|].
  split; [apply Hunique|]. split; [apply Horder|].
  split; [apply first_occurrences_NoDup|].
  split; [apply first_occurrences_sublist|].
  split; [intros x; apply first_occurrences_elem_of|]. split.
  - intros other Hother. destruct other; simpl; try reflexivity.
    discriminate.
  - intros o Hall. simpl. rewrite (Hunique _ Hall), first_occurrences_app.
    reflexivity.
Qed.

End UniqueProps.

(** ** Lists of lists: [flatten] and [transpose] *)

Module NestedProps.
Import Python ListSpec ObjProps ListProps UniqueProps.

Lemma flatten_item_atoms (v : obj) :
  Forall (fun x => is_atom x = true) (PyList.flatten_item v).
Proof.
  induction v as [|z|s|items IH|items IH] using obj_induction; simpl;
    try (repeat constructor).
  - induction IH as [|x items Hx _ IHitems]; simpl; [constructor|].
    apply Forall_app. auto.
  - induction IH as [|x items Hx _ IHitems]; simpl; [constructor|].
    apply Forall_app. auto.
Qed.

Lemma flatten_atoms (l : list obj) :
  Forall (fun x => is_atom x = true) l -> PyList.flatten l = l.
Proof.
  unfold PyList.flatten. induction 1 as [|x l Hx _ IH]; simpl; [reflexivity|].
  rewrite IH. destruct x; try discriminate; reflexivity.
Qed.

Lemma flatten_app (l1 l2 : list obj) :
  PyList.flatten (l1 ++ l2) = PyList.flatten l1 ++ PyList.flatten l2.
Proof. unfold PyList.flatten. apply flat_map_app. Qed.

Lemma flatten_lists (pieces : list (list obj)) :
  PyList.flatten (map OList pieces) = PyList.flatten (concat pieces).
Proof.
  induction pieces as [|p pieces IH]; [reflexivity|].
  simpl concat. rewrite flatten_app, <- IH. reflexivity.
Qed.

(** X22. On lists built from [None], integers, strings, lists and
    tuples, the values of the model, [flatten] opens the lists and the
    tuples at every depth and leaves [None], the integers and the strings
    as they are: no item of the result is a list or a tuple, a list
    without lists and tuples is returned unchanged, and flattening twice
    changes nothing more.  Cutting the list with [chunk] or [split]
    before does not show in the result.  Nothing is said of a list that
    holds another iterable, a dict or a set, which the code opens too. *)
Theorem flatten_flat (self : list obj) :
  Forall (fun x => is_atom x = true) (PyList.flatten self)
  /\ (Forall (fun x => is_atom x = true) self -> PyList.flatten self = self)
  /\ PyList.flatten (PyList.flatten self) = PyList.flatten self
  /\ (forall items,
        PyList.flatten [OList items] = PyList.flatten items
        /\ PyList.flatten [OTuple items] = PyList.flatten items)
  /\ (forall size pieces,
        PyList.chunk size self = Return pieces ->
        PyList.flatten pieces = PyList.flatten self)
  /\ (forall count, 0 < count ->
        PyList.flatten (PyList.split count self) = PyList.flatten self).
Proof.
  assert (Hflat : Forall (fun x => is_atom x = true) (PyList.flatten self)).
  { unfold PyList.flatten. induction self as [|x l IH]; simpl; [constructor|].
    apply Forall_app. split; [apply flatten_item_atoms | exact IH]. }
  split; [exact Hflat|]. split; [apply flatten_atoms|].
  split; [apply flatten_atoms, Hflat|]. split; [|split].
  - intros items. unfold PyList.flatten. simpl. rewrite !app_nil_r. auto.
  - intros size pieces Hchunk.
    destruct (chunk_concat size self pieces Hchunk) as (parts & -> & Hcat).
    rewrite flatten_lists, Hcat. reflexivity.
  - intros count Hc.
    destruct (split_balanced count self Hc) as (gs & Hgs & _ & Hcat & _).
    rewrite Hgs, flatten_lists, Hcat. reflexivity.
Qed.

Lemma set_items_one (xs : list obj) :
  length (set_items xs) = 1%nat <->
  exists x, xs <> [] /\ Forall (fun y => y = x) xs.
Proof.
  pose proof (set_items_NoDup xs) as Hnd.
  pose proof (fun x => set_items_elem_of x xs) as Hel.
  split.
  - intros Hlen. destruct (set_items xs) as [|x [|? ?]] eqn:Hs;
      try discriminate.
    exists x. split.
    + intros ->. discriminate.
    + apply Forall_forall. intros y Hy. apply Hel in Hy.
      apply list_elem_of_singleton in Hy. exact Hy.
  - intros (x & Hne & Hall).
    destruct (set_items xs) as [|a [|b rest]] eqn:Hs.
    + destruct xs as [|y xs]; [contradiction|].
      assert (Hy : y ∈ @nil obj) by (apply Hel; left). inversion Hy.
    + reflexivity.
    + exfalso.
      assert (Ha : a = x).
      { apply (proj1 (Forall_forall _ _) Hall), Hel. left. }
      assert (Hb : b = x).
      { apply (proj1 (Forall_forall _ _) Hall), Hel. right. left. }
      subst a b. inversion Hnd as [|? ? Hnotin _]; subst.
      apply Hnotin. left.
Qed.

Lemma min_lengths (n : nat) (rows : list (list obj)) :
  Forall (fun row => length row = n) rows ->
  fold_right Nat.min n (map length rows) = n.
Proof.
  induction 1 as [|row rows Hrow _ IH]; simpl; [reflexivity|].
  rewrite IH, Hrow. apply Nat.min_id.
Qed.

Lemma zip_star_square (n : nat) (rows : list (list obj)) :
  rows <> [] -> Forall (fun row => length row = n) rows ->
  zip_star rows
  = map (fun i => OTuple (omap (fun r => r !! i) rows)) (seq 0 n).
Proof.
  intros Hne Hall. destruct rows as [|row rows]; [contradiction|].
  unfold zip_star. inversion Hall as [|? ? Hrow Hrows]; subst.
  rewrite (min_lengths (length row) rows Hrows). reflexivity.
Qed.

Lemma transpose_inv (self t : list obj) :
  PyList.transpose self = Return t <->
  self <> []
  /\ Forall (fun item => is_list item = true) self
  /\ exists n,
       Forall (fun item => length (PyList.items_of item) = n) self
       /\ t = map (fun i => OTuple (omap (fun r => r !! i)
                                         (map PyList.items_of self)))
                  (seq 0 n).
Proof.
  unfold PyList.transpose.
  destruct (forallb is_list self) eqn:Hlists; cbn [negb].
  2:{ split; [discriminate|]. intros (_ & Hall & _).
      assert (Htrue : forallb is_list self = true); [|congruence].
      apply forallb_forall. intros x Hx. apply list_elem_of_In in Hx.
      exact (proj1 (Forall_forall _ _) Hall x Hx). }
  assert (Hall : Forall (fun item => is_list item = true) self).
  { apply Forall_forall. intros x Hx.
    apply (proj1 (forallb_forall _ _) Hlists), list_elem_of_In, Hx. }
  set (lens := map (fun item => OInt (len (PyList.items_of item))) self).
  assert (Hone : length (set_items lens) = 1%nat <->
                 self <> []
                 /\ exists n, Forall (fun item => length (PyList.items_of item) = n)
                                     self).
  { rewrite set_items_one. subst lens. split.
    - intros (x & Hne & Hx). split; [intros ->; contradiction|].
      destruct self as [|first rest]; [contradiction|].
      exists (length (PyList.items_of first)).
      apply Forall_fmap in Hx. apply Forall_forall. intros item Hitem.
      pose proof (proj1 (Forall_forall _ _) Hx item Hitem) as Hi.
      pose proof (proj1 (Forall_forall _ _) Hx first ltac:(left)) as Hf.
      simpl in Hi, Hf. rewrite <- Hf in Hi. inversion Hi as [Hlen].
      unfold len in Hlen. lia.
    - intros (Hne & n & Hn). exists (OInt (Z.of_nat n)). split.
      + destruct self; [contradiction | discriminate].
      + apply Forall_fmap, Forall_forall. intros item Hitem. simpl.
        unfold len.
        rewrite (proj1 (Forall_forall _ _) Hn item Hitem). reflexivity. }
  destruct (Nat.eqb_spec (length (set_items lens)) 1) as [Heq|Hneq];
    cbn [negb].
  - apply Hone in Heq as (Hne & n & Hn). split.
    + intros [= <-]. split; [exact Hne|]. split; [exact Hall|].
      exists n. split; [exact Hn|].
      apply zip_star_square.
      * destruct self; [contradiction | discriminate].
      * apply Forall_fmap. exact Hn.
    + intros (_ & _ & m & Hm & ->). f_equal.
      assert (m = n).
      { destruct self as [|first rest]; [contradiction|].
        inversion Hm; inversion Hn; subst. congruence. }
      subst m. apply zip_star_square.
      * destruct self; [contradiction | discriminate].
      * apply Forall_fmap. exact Hn.
  - split; [discriminate|]. intros (Hne & _ & n & Hn & _).
    exfalso. apply Hneq, Hone. eauto.
Qed.

(** X23. [transpose] returns exactly for a list that is not empty and
    holds lists of one length; every other case is a [ValueError].  The
    result has one tuple for each position of the inner lists, as long as
    the list, and the item [i] of its tuple [j] is the item [j] of the
    inner list [i].  As the result holds tuples, transposing it again
    always raises [ValueError]. *)
Theorem transpose_table (self : list obj) :
  (forall e, PyList.transpose self = Throw e -> e = ValueError)
  /\ ((exists t, PyList.transpose self = Return t) <->
      self <> []
      /\ Forall (fun item => is_list item = true) self
      /\ exists n, Forall (fun item => length (PyList.items_of item) = n) self)
  /\ (forall t, PyList.transpose self = Return t ->
      Forall (fun column => exists items,
                column = OTuple items /\ length items = length self) t
      /\ (forall i j : nat,
            t !! j ≫= (fun column => PyList.items_of column !! i)
            = self !! i ≫= (fun row => PyList.items_of row !! j))
      /\ PyList.transpose t = Throw ValueError).
Proof.
  split; [|split].
  - intros e. unfold PyList.transpose.
    destruct (negb (forallb is_list self)); [congruence|].
    destruct (negb _); [congruence | discriminate].
  - split.
    + intros [t Ht]. apply transpose_inv in Ht as (Hne & Hall & n & Hn & _).
      eauto.
    + intros (Hne & Hall & n & Hn). eexists. apply transpose_inv. eauto.
  - intros t Ht. apply transpose_inv in Ht as (Hne & Hall & n & Hn & ->).
    assert (Hrows : forall j, (j < n)%nat ->
              Forall (fun r : list obj => is_Some (r !! j))
                     (map PyList.items_of self)).
    { intros j Hj. apply Forall_fmap, Forall_forall. intros item Hitem.
      simpl. apply lookup_lt_is_Some.
      rewrite (proj1 (Forall_forall _ _) Hn item Hitem). exact Hj. }
    split; [|split].
    + apply Forall_fmap, Forall_forall. intros j Hj.
      apply elem_of_seq in Hj. simpl. eexists. split; [reflexivity|].
      assert (Hlen : forall rows : list (list obj),
                Forall (fun r => is_Some (r !! j)) rows ->
                length (omap (fun r => r !! j) rows) = length rows).
      { induction 1 as [|r rows [x Hx] _ IH]; simpl; [reflexivity|].
        rewrite Hx. simpl. f_equal. exact IH. }
      rewrite Hlen by (apply Hrows; lia). apply length_map.
    + intros i j. rewrite list_lookup_fmap.
      destruct (Nat.lt_ge_cases j n) as [Hj|Hj].
      * rewrite lookup_seq_lt by exact Hj. simpl.
        rewrite omap_lookup by (apply Hrows, Hj).
        rewrite list_lookup_fmap. destruct (self !! i); reflexivity.
      * rewrite lookup_seq_ge by exact Hj. simpl.
        destruct (self !! i) as [row|] eqn:Hrow; [|reflexivity]. simpl.
        symmetry. apply lookup_ge_None.
        apply list_elem_of_lookup_2 in Hrow.
        rewrite (proj1 (Forall_forall _ _) Hn row Hrow). exact Hj.
    + unfold PyList.transpose. destruct n as [|n]; [reflexivity|].
      reflexivity.
Qed.

End NestedProps.

(** ** The methods of [String] *)

Module StringProps.
Import Python SliceProps StringSpec.

Lemma swap_lookup {A} (q i : nat) (s : list A) :
  (q <= length s)%nat -> (i < length s)%nat ->
  (drop q s ++ take q s) !! i
  = s !! Z.to_nat ((Z.of_nat i + Z.of_nat q) mod Z.of_nat (length s)).
Proof.
  intros Hq Hi.
  destruct (Nat.lt_ge_cases i (length s - q)) as [Hlt|Hge].
  - rewrite lookup_app_l by (rewrite length_drop; lia).
    rewrite lookup_drop. f_equal.
    rewrite Z.mod_small by lia. lia.
  - rewrite lookup_app_r by (rewrite length_drop; lia).
    rewrite length_drop, lookup_take_lt by lia. f_equal.
    replace (Z.of_nat i + Z.of_nat q)
      with ((Z.of_nat i + Z.of_nat q - Z.of_nat (length s))
            + 1 * Z.of_nat (length s)) by lia.
    rewrite Z.mod_add by lia. rewrite Z.mod_small by lia. lia.
Qed.

Lemma list_eq_below {A} (l1 l2 : list A) :
  length l1 = length l2 ->
  (forall i : nat, (i < length l2)%nat -> l1 !! i = l2 !! i) ->
  l1 = l2.
Proof.
  intros Hlen Hlookup. apply list_eq. intros i.
  destruct (Nat.lt_ge_cases i (length l2)) as [Hi|Hi]; [apply Hlookup, Hi|].
  rewrite !(proj2 (lookup_ge_None _ _)) by lia. reflexivity.
Qed.

Lemma rotate_swap (shift : Z) (self : list Z) :
  exists q : nat,
    PyString.rotate shift self = drop q self ++ take q self
    /\ (q <= length self)%nat
    /\ (self <> [] -> (Z.of_nat q + shift) mod len self = 0).
Proof.
  unfold PyString.rotate.
  set (shift' := if (len self <? Z.abs shift) && (0 <? len self)
                 then shift mod len self else shift).
  rewrite slice_prefix, slice_suffix.
  pose proof (len_nonneg self) as Hn.
  pose proof (adjust_range (len self) (- shift') Hn) as Hq.
  exists (Z.to_nat (adjust (len self) (- shift'))).
  split; [reflexivity|]. split; [unfold len in *; lia|].
  intros Hne.
  assert (Hpos : 0 < len self).
  { destruct self; [contradiction | unfold len; simpl; lia]. }
  rewrite Z2Nat.id by lia.
  assert (Hbound : Z.abs shift' <= len self /\ (shift' - shift) mod len self = 0).
  { subst shift'. destruct (Z.ltb_spec (len self) (Z.abs shift)) as [Hbig|Hsmall];
      destruct (Z.ltb_spec 0 (len self)); try lia; cbn [andb].
    - pose proof (Z.mod_pos_bound shift (len self) Hpos). split; [lia|].
      rewrite Zminus_mod_idemp_l, Z.sub_diag. apply Z.mod_0_l. lia.
    - split; [lia|]. rewrite Z.sub_diag. apply Z.mod_0_l. lia. }
  destruct Hbound as [Habs Hcong].
  assert (Hadj : (adjust (len self) (- shift') + shift') mod len self = 0).
  { unfold adjust. destruct (Z.ltb_spec (- shift') 0).
    - rewrite Z.max_l by lia.
      replace (- shift' + len self + shift') with (0 + 1 * len self) by lia.
      rewrite Z.mod_add by lia. apply Z.mod_0_l. lia.
    - rewrite Z.min_l by lia.
      replace (- shift' + shift') with 0 by lia. apply Z.mod_0_l. lia. }
  replace (adjust (len self) (- shift') + shift)
    with ((adjust (len self) (- shift') + shift') - (shift' - shift)) by lia.
  rewrite Zminus_mod, Hadj, Hcong. apply Z.mod_0_l. lia.
Qed.

Lemma rotate_length (shift : Z) (self : list Z) :
  length (PyString.rotate shift self) = length self.
Proof.
  destruct (rotate_swap shift self) as (q & -> & Hq & _).
  rewrite length_app, length_drop, length_take. lia.
Qed.

Lemma rotate_lookup (shift : Z) (self : list Z) (i : nat) :
  (i < length self)%nat ->
  PyString.rotate shift self !! i
  = self !! Z.to_nat ((Z.of_nat i - shift) mod len self).
Proof.
  intros Hi. destruct (rotate_swap shift self) as (q & -> & Hq & Hcong).
  rewrite swap_lookup by lia. do 2 f_equal. fold (len self).
  assert (Hne : self <> []) by (intros ->; simpl in Hi; lia).
  specialize (Hcong Hne).
  assert (Hpos : 0 < len self) by (unfold len; lia).
  replace (Z.of_nat i + Z.of_nat q)
    with ((Z.of_nat i - shift) + (Z.of_nat q + shift)) by lia.
  rewrite Zplus_mod, Hcong, Z.add_0_r, Z.mod_mod by lia. reflexivity.
Qed.

(** X24. [String.rotate] turns the string around by [shift] places to the
    right, for every [shift], positive, negative or beyond the length: the
    character at position [i] of the result is the one at position
    [i - shift] modulo the length.  So rotating by a multiple of the
    length changes nothing, rotating twice is rotating by the sum, and
    rotating by the opposite shift gives the string back. *)
Theorem rotate_string (shift : Z) (self : list Z) :
  length (PyString.rotate shift self) = length self
  /\ (forall i : nat, (i < length self)%nat ->
        PyString.rotate shift self !! i
        = self !! Z.to_nat ((Z.of_nat i - shift) mod len self))
  /\ (forall k, PyString.rotate (k * len self) self = self)
  /\ (forall other,
        PyString.rotate other (PyString.rotate shift self)
        = PyString.rotate (other + shift) self)
  /\ PyString.rotate (- shift) (PyString.rotate shift self) = self.
Proof.
  assert (Hcompose : forall a b s,
            PyString.rotate a (PyString.rotate b s)
            = PyString.rotate (a + b) s).
  { intros a b s. apply list_eq_below; [rewrite !rotate_length; reflexivity|].
    intros i Hi. rewrite rotate_length in Hi.
    rewrite rotate_lookup by (rewrite rotate_length; exact Hi).
    assert (Hpos : 0 < len s) by (unfold len; lia).
    assert (Hlen : len (PyString.rotate b s) = len s)
      by (unfold len; rewrite rotate_length; reflexivity).
    rewrite Hlen.
    pose proof (Z.mod_pos_bound (Z.of_nat i - a) (len s) Hpos) as Hj.
    rewrite rotate_lookup by (unfold len in *; lia).
    rewrite Z2Nat.id by lia. rewrite Zminus_mod_idemp_l.
    rewrite (rotate_lookup (a + b)) by exact Hi.
    replace (Z.of_nat i - a - b) with (Z.of_nat i - (a + b)) by lia.
    reflexivity. }
  assert (Hmultiple : forall k s, PyString.rotate (k * len s) s = s).
  { intros k s. apply list_eq_below; [apply rotate_length|].
    intros i Hi. rewrite rotate_lookup by exact Hi.
    assert (Hpos : 0 < len s) by (unfold len; lia).
    replace (Z.of_nat i - k * len s) with (Z.of_nat i + (- k) * len s)
      by lia.
    rewrite Z.mod_add, Z.mod_small by (unfold len in *; lia).
    rewrite Nat2Z.id. reflexivity. }
  split; [apply rotate_length|]. split; [apply rotate_lookup|].
  split; [intros k; apply Hmultiple|]. split; [intros other; apply Hcompose|].
  rewrite Hcompose. replace (- shift + shift) with (0 * len self) by lia.
  apply Hmultiple.
Qed.

Lemma reverse_items (self : list Z) :
  PyString.reverse self = Return (reverse self).
Proof.
  unfold PyString.reverse, slice_step.
  change (-1 =? 0) with false. change (-1 <? 0) with true. cbv iota zeta.
  f_equal. apply list_eq_below.
  - rewrite length_reverse.
    assert (Hall : Forall (fun i => is_Some (self !! Z.to_nat i))
                          (range (len self - 1) (-1) (-1))).
    { apply Forall_forall. intros j Hj.
      apply list_elem_of_fmap in Hj as (i & -> & Hi).
      apply elem_of_seq in Hi. apply lookup_lt_is_Some.
      unfold range_length in Hi. change (0 <? -1) with false in Hi.
      cbv iota in Hi. unfold len in *.
      destruct (Z.ltb_spec (-1) (Z.of_nat (length self) - 1)); [|lia].
      change (- -1) with 1 in Hi. rewrite Z.div_1_r in Hi. lia. }
    assert (Hlen : forall (f : Z -> option Z) l,
              Forall (fun i => is_Some (f i)) l ->
              length (omap f l) = length l).
    { induction 1 as [|x l [y Hy] _ IH]; simpl; [reflexivity|].
      rewrite Hy. simpl. f_equal. exact IH. }
    rewrite Hlen by exact Hall. unfold range. rewrite length_map, length_seq.
    unfold range_length. change (0 <? -1) with false. cbv iota.
    unfold len. destruct (Z.ltb_spec (-1) (Z.of_nat (length self) - 1)).
    + change (- -1) with 1. rewrite Z.div_1_r. lia.
    + lia.
  - intros i Hi. rewrite length_reverse in Hi.
    rewrite reverse_lookup by exact Hi.
    rewrite ListProps.omap_lookup.
    + rewrite ListProps.range_lookup. unfold range_length.
      change (0 <? -1) with false. cbv iota. unfold len.
      destruct (Z.ltb_spec (-1) (Z.of_nat (length self) - 1)); [|lia].
      change (- -1) with 1. rewrite Z.div_1_r.
      destruct (Z.ltb_spec (Z.of_nat i)
                  (Z.of_nat (length self) - 1 - -1 - 1 + 1)); [|lia].
      simpl. f_equal. lia.
    + apply Forall_forall. intros j Hj.
      apply list_elem_of_fmap in Hj as (k & -> & Hk).
      apply elem_of_seq in Hk. apply lookup_lt_is_Some.
      unfold range_length in Hk. change (0 <? -1) with false in Hk.
      cbv iota in Hk. unfold len in *.
      destruct (Z.ltb_spec (-1) (Z.of_nat (length self) - 1)); [|lia].
      change (- -1) with 1 in Hk. rewrite Z.div_1_r in Hk. lia.
Qed.

(** X25. [reverse] gives the characters of the string in the opposite
    order, and reversing twice gives the string back.  [repeat] gives the
    empty string for a number of times that is not positive, and otherwise
    that many copies one after another; reversing the copies is copying
    the reversed string. *)
Theorem reverse_repeat (times : Z) (self : list Z) :
  PyString.reverse self = Return (reverse self)
  /\ (PyString.reverse self ≫= PyString.reverse) = Return self
  /\ (times <= 0 -> PyString.repeat times self = [])
  /\ len (PyString.repeat times self) = Z.max times 0 * len self
  /\ (0 <= times ->
      PyString.repeat (times + 1) self
      = self ++ PyString.repeat times self)
  /\ PyString.reverse (PyString.repeat times self)
     = Return (PyString.repeat times (reverse self)).
Proof.
  split; [apply reverse_items|]. split; [|split; [|split; [|split]]].
  - rewrite reverse_items. simpl. rewrite reverse_items, reverse_involutive.
    reflexivity.
  - intros Ht. unfold PyString.repeat.
    replace (Z.to_nat times) with 0%nat by lia. reflexivity.
  - unfold PyString.repeat, len.
    assert (Hlen : forall n : nat,
              length (concat (replicate n self)) = (n * length self)%nat).
    { induction n as [|n IH]; simpl; [reflexivity|].
      rewrite length_app, IH. reflexivity. }
    rewrite Hlen, Nat2Z.inj_mul. f_equal. lia.
  - intros Ht. unfold PyString.repeat.
    replace (Z.to_nat (times + 1)) with (S (Z.to_nat times)) by lia.
    reflexivity.
  - rewrite reverse_items. f_equal. unfold PyString.repeat.
    generalize (Z.to_nat times) as n. intros n.
    induction n as [|n IH]; [reflexivity|].
    rewrite replicate_S at 1. simpl concat at 1. rewrite reverse_app, IH.
    clear IH. induction n as [|n IH]; simpl.
    + rewrite app_nil_r. reflexivity.
    + rewrite <- app_assoc, IH. reflexivity.
Qed.

Lemma startswith_app (sep s : list Z) :
  PyString.startswith sep s = true <-> exists rest, s = sep ++ rest.
Proof.
  revert s. induction sep as [|a sep IH]; intros s; simpl.
  - split; [intros _; exists s; reflexivity | reflexivity].
  - destruct s as [|b s].
    + split; [discriminate | intros [rest Hrest]; discriminate].
    + rewrite andb_true_iff, Z.eqb_eq, IH. split.
      * intros [-> [rest ->]]. exists rest. reflexivity.
      * intros [rest [= -> ->]]. eauto.
Qed.

Lemma split_from_skip (sep : list Z) (skip : nat) :
  forall piece s,
    PyString.split_from sep skip piece s
    = PyString.split_from sep 0 piece (drop skip s).
Proof.
  induction skip as [|skip IH]; intros piece s; [rewrite drop_0; reflexivity|].
  destruct s as [|c s]; [reflexivity|]. simpl. apply IH.
Qed.

Lemma split_from_none (sep : list Z) (s : list Z) :
  forall piece,
    (forall k, (k < length s)%nat -> ~ occurs_at sep s k) ->
    PyString.split_from sep 0 piece s = [piece ++ s].
Proof.
  unfold occurs_at.
  induction s as [|c s IH]; intros piece Hnone; simpl.
  - rewrite app_nil_r. reflexivity.
  - destruct (PyString.startswith sep (c :: s)) eqn:Hc.
    + exfalso. apply (Hnone 0%nat); [simpl; lia | exact Hc].
    + rewrite IH.
      * rewrite <- app_assoc. reflexivity.
      * intros k Hk. apply (Hnone (S k)). simpl. lia.
Qed.

Lemma split_from_cut (sep a rest : list Z) :
  sep <> [] ->
  forall piece,
    (forall k, (k < length a)%nat -> ~ occurs_at sep (a ++ sep ++ rest) k) ->
    PyString.split_from sep 0 piece (a ++ sep ++ rest)
    = (piece ++ a) :: PyString.split_from sep 0 [] rest.
Proof.
  unfold occurs_at. intros Hsep.
  induction a as [|c a IH]; intros piece Hnone.
  - rewrite app_nil_r. simpl app.
    destruct sep as [|c sep]; [contradiction|].
    cbn [PyString.split_from app].
    assert (Hstart : PyString.startswith (c :: sep) (c :: sep ++ rest) = true).
    { apply startswith_app. exists rest. reflexivity. }
    rewrite Hstart. f_equal. rewrite split_from_skip. f_equal.
    simpl. rewrite Nat.sub_0_r, drop_app_length. reflexivity.
  - cbn [app PyString.split_from].
    destruct (PyString.startswith sep (c :: a ++ sep ++ rest)) eqn:Hc.
    + exfalso. apply (Hnone 0%nat); [simpl; lia | exact Hc].
    + rewrite IH.
      * rewrite <- app_assoc. reflexivity.
      * intros k Hk. apply (Hnone (S k)). simpl. lia.
Qed.

Lemma first_occurrence (sep s : list Z) :
  (forall k, (k < length s)%nat -> ~ occurs_at sep s k)
  \/ exists a rest,
       s = a ++ sep ++ rest
       /\ forall k, (k < length a)%nat -> ~ occurs_at sep s k.
Proof.
  unfold occurs_at. induction s as [|c s IH].
  - left. intros k Hk. simpl in Hk. lia.
  - destruct (PyString.startswith sep (c :: s)) eqn:Hc.
    + right. apply startswith_app in Hc as [rest Hrest].
      exists [], rest. split; [exact Hrest|]. intros k Hk. simpl in Hk. lia.
    + destruct IH as [Hnone|(a & rest & -> & Hfirst)].
      * left. intros [|k] Hk; simpl; [congruence|].
        apply Hnone. simpl in Hk. lia.
      * right. exists (c :: a), rest. split; [reflexivity|].
        intros [|k] Hk; simpl; [congruence|].
        apply Hfirst. simpl in Hk. lia.
Qed.

Lemma split_nonempty (sep : list Z) (skip : nat) (piece s : list Z) :
  PyString.split_from sep skip piece s <> [].
Proof.
  revert skip piece. induction s as [|c s IH]; intros skip piece; simpl;
    [discriminate|].
  destruct skip; [|apply IH].
  destruct (PyString.startswith sep (c :: s)); [discriminate | apply IH].
Qed.

Lemma split_join (sep : list Z) :
  sep <> [] ->
  forall s, join sep (PyString.str_split sep s) = s.
Proof.
  intros Hsep s. unfold PyString.str_split.
  induction s as [s IH] using (induction_ltof1 _ (@length Z)).
  unfold ltof in IH.
  destruct (first_occurrence sep s) as [Hnone|(a & rest & -> & Hfirst)].
  - rewrite split_from_none by exact Hnone. reflexivity.
  - rewrite split_from_cut by assumption. simpl app.
    pose proof (split_nonempty sep 0 [] rest) as Hne.
    destruct (PyString.split_from sep 0 [] rest) as [|p ps] eqn:Hsplit;
      [contradiction|].
    change (join sep (a :: p :: ps)) with (a ++ sep ++ join sep (p :: ps)).
    rewrite <- Hsplit, IH; [reflexivity|].
    rewrite !length_app. destruct sep; [contradiction | simpl; lia].
Qed.

Lemma split_last_suffix (sep : list Z) :
  sep <> [] ->
  forall s, exists front,
    s = front ++ List.last (PyString.str_split sep s) [].
Proof.
  intros Hsep s. unfold PyString.str_split.
  induction s as [s IH] using (induction_ltof1 _ (@length Z)).
  unfold ltof in IH.
  destruct (first_occurrence sep s) as [Hnone|(a & rest & -> & Hfirst)].
  - rewrite split_from_none by exact Hnone. exists []. reflexivity.
  - rewrite split_from_cut by assumption. simpl app.
    pose proof (split_nonempty sep 0 [] rest) as Hne.
    destruct (IH rest) as [front Hfront].
    { rewrite !length_app. destruct sep; [contradiction | simpl; lia]. }
    destruct (PyString.split_from sep 0 [] rest) as [|p ps] eqn:Hsplit;
      [contradiction|].
    exists (a ++ sep ++ front).
    change (List.last (a :: p :: ps) []) with (List.last (p :: ps) []).
    rewrite <- !app_assoc. do 2 f_equal. exact Hfront.
Qed.

(** X26. With an empty [search], or one that does not occur in the string,
    [before] and [after] give the whole string.  Otherwise [before] gives
    what stands before the first occurrence of [search], in which [search]
    does not occur, and [after] gives an end of the string: what [after]
    gives for the rest behind that occurrence.  The pieces that the cuts
    leave, joined by [search], are the string. *)
Theorem before_after (search self : list Z) :
  (search = [] ->
   PyString.before search self = self /\ PyString.after search self = self)
  /\ (search <> [] ->
      (forall k, ~ occurs_at search self k) ->
      PyString.before search self = self
      /\ PyString.after search self = self)
  /\ (search <> [] ->
      forall a rest,
        self = a ++ search ++ rest ->
        (forall k, (k < length a)%nat -> ~ occurs_at search self k) ->
        PyString.before search self = a
        /\ PyString.after search self = PyString.after search rest)
  /\ (search <> [] ->
      (forall k, ~ occurs_at search (PyString.before search self) k)
      /\ (exists front, self = front ++ PyString.after search self)
      /\ join search (PyString.str_split search self) = self).
Proof.
  split; [intros ->; auto|].
  assert (Hcut : search <> [] -> forall a rest,
            self = a ++ search ++ rest ->
            (forall k, (k < length a)%nat -> ~ occurs_at search self k) ->
            PyString.before search self = a
            /\ PyString.after search self = PyString.after search rest).
  { intros Hne a rest -> Hfirst.
    destruct search as [|c sep]; [contradiction|].
    unfold PyString.before, PyString.after, PyString.str_split.
    rewrite split_from_cut by (assumption || discriminate). simpl app.
    split; [reflexivity|].
    pose proof (split_nonempty (c :: sep) 0 [] rest) as Hsplit.
    destruct (PyString.split_from (c :: sep) 0 [] rest); [contradiction|].
    reflexivity. }
  assert (Hwhole : search <> [] ->
            (forall k, (k < length self)%nat -> ~ occurs_at search self k) ->
            PyString.before search self = self
            /\ PyString.after search self = self).
  { intros Hne Hnone. destruct search as [|c sep]; [contradiction|].
    unfold PyString.before, PyString.after, PyString.str_split.
    rewrite split_from_none by exact Hnone. auto. }
  split; [intros Hne Hnone; apply Hwhole; auto|].
  split; [exact Hcut|].
  intros Hne. split; [|split].
  - destruct (first_occurrence search self)
      as [Hnone|(a & rest & Hself & Hfirst)].
    + destruct (Hwhole Hne Hnone) as [-> _]. intros k Hk.
      destruct (Nat.lt_ge_cases k (length self)) as [Hlt|Hge];
        [exact (Hnone k Hlt Hk)|].
      unfold occurs_at in Hk. rewrite drop_ge in Hk by exact Hge.
      destruct search; [contradiction | discriminate].
    + destruct (Hcut Hne a rest Hself Hfirst) as [-> _]. intros k Hk.
      unfold occurs_at in *.
      destruct (Nat.lt_ge_cases k (length a)) as [Hlt|Hge].
      * apply (Hfirst k Hlt). rewrite Hself.
        apply startswith_app in Hk as [tail Htail].
        apply startswith_app. exists (tail ++ search ++ rest).
        rewrite drop_app_le by lia. rewrite Htail, <- app_assoc.
        reflexivity.
      * rewrite drop_ge in Hk by exact Hge.
        destruct search; [contradiction | discriminate].
  - destruct search as [|c sep]; [contradiction|].
    apply (split_last_suffix (c :: sep)). discriminate.
  - apply split_join, Hne.
Qed.

End StringProps.

(** ** Attribute access to a [Map] *)

Module MapProps.
Import Python PyMap.

Section AttributeFacts.

Variable defined : string -> bool.

(** X27. Setting an attribute of a [Map] stores the value under that key,
    and deleting an attribute that the mapping holds removes the key, for
    every name.  Reading is different for the names that the class
    defines ([items], [keys], ...): there normal lookup gives the attribute
    of the class, whatever the mapping holds, so that a value set under
    such a name is not read back as an attribute, and reading one that the
    mapping does not hold does not raise.  For every other name a value
    that was set is read back, and reading a name that the mapping does
    not hold, or that has been deleted, raises [AttributeError] with the
    name.  Deleting a name that the mapping does not hold raises
    [AttributeError] and changes nothing, also for a name of the class.
    Setting or deleting one attribute leaves the reading of the others as
    it was, and deleting a newly set attribute restores the mapping. *)
Theorem map_attributes (key : string) (value : obj) (self : gmap string obj) :
  __setattr__ key value self !! key = Some value
  /\ getattr defined key (__setattr__ key value self)
     = (if defined key then Return (ClassAttribute key)
        else Return (Item value))
  /\ (forall other, other <> key ->
        getattr defined other (__setattr__ key value self)
        = getattr defined other self
        /\ getattr defined other (__delattr__ key self).2
           = getattr defined other self)
  /\ (self !! key = None ->
      getattr defined key self
      = (if defined key then Return (ClassAttribute key)
         else Throw (AttributeError key))
      /\ __delattr__ key self = (Throw (AttributeError key), self))
  /\ (is_Some (self !! key) ->
      __delattr__ key self = (Return tt, delete key self))
  /\ getattr defined key (__delattr__ key self).2
     = (if defined key then Return (ClassAttribute key)
        else Throw (AttributeError key))
  /\ (__delattr__ key (__setattr__ key value self)).1 = Return tt
  /\ (self !! key = None ->
      (__delattr__ key (__setattr__ key value self)).2 = self).
Proof.
  unfold getattr, __getattr__, __setattr__, __delattr__.
  split; [apply lookup_insert_eq|].
  split; [rewrite lookup_insert_eq; destruct (defined key); reflexivity|].
  split; [|split; [|split; [|split; [|split]]]].
  - intros other Hother. rewrite lookup_insert_ne by congruence.
    split; [reflexivity|].
    destruct (self !! key); simpl; [|reflexivity].
    rewrite lookup_delete_ne by congruence. reflexivity.
  - intros Hnone. rewrite Hnone. auto.
  - intros [v Hv]. rewrite Hv. reflexivity.
  - destruct (defined key); [reflexivity|].
    destruct (self !! key) eqn:Hkey; simpl.
    + rewrite lookup_delete_eq. reflexivity.
    + rewrite Hkey. reflexivity.
  - rewrite lookup_insert_eq. reflexivity.
  - intros Hnone. rewrite lookup_insert_eq. simpl.
    rewrite delete_insert_eq. apply delete_id, Hnone.
Qed.

End AttributeFacts.

(** With [items] among the names of the class: a value set as
    [self.items] is in the mapping, and [self.items] still is the method
    of [dict]; [self.nome] is read back. *)
Lemma map_class_attribute :
  let defined := fun key : string => bool_decide (key ∈ ["items"; "keys"]) in
  let self : gmap string obj :=
    __setattr__ "nome" (OStr "Acre") (__setattr__ "items" (OInt 1) ∅) in
  getattr defined "items" self = Return (ClassAttribute "items")
  /\ self !! "items" = Some (OInt 1)
  /\ getattr defined "nome" self = Return (Item (OStr "Acre"))
  /\ getattr defined "keys" self = Return (ClassAttribute "keys")
  /\ getattr defined "sigla" self = Throw (AttributeError "sigla").
Proof. repeat split; vm_compute; reflexivity. Qed.

End MapProps.

(** ** What the XML encoder accepts *)

Module XmlAcceptProps.
Import Entities EntitiesProps Xml XmlSpec XmlProps.

(** X28. The XML tree is built exactly when [lxml] accepts the name of the
    dataset, the names of the tables and of the fields, which are text and
    may hold any character that XML can carry, and every field value,
    which has to be [None] or a string; the name of a table, which goes
    into a comment, may not contain ['--'].  One integer among the values
    makes the encoder raise. *)
Theorem build_accepted (dataset_name : list Z) (data : DictData) :
  succeeds (build dataset_name data) <->
  xml_compatible dataset_name = true /\ Forall table_accepted data.
Proof.
  split.
  - intros [database Hbuild].
    apply build_cases in Hbuild as (Hname & Hall & _). auto.
  - intros [Hname Hall]. eexists.
    apply build_cases. split; [exact Hname|]. split; [exact Hall|].
    reflexivity.
Qed.

End XmlAcceptProps.

(** ** Closed instances of the list and string methods *)

Module ListExamples.
Import Python Entities.

Lemma chunk_five :
  PyList.chunk 2 [OInt 1; OInt 2; OInt 3; OInt 4; OInt 5]
  = Return [OList [OInt 1; OInt 2]; OList [OInt 3; OInt 4]; OList [OInt 5]].
Proof. vm_compute. reflexivity. Qed.

Lemma split_five :
  PyList.split 3 [OInt 1; OInt 2; OInt 3; OInt 4; OInt 5]
  = [OList [OInt 1]; OList [OInt 2; OInt 3]; OList [OInt 4; OInt 5]].
Proof. vm_compute. reflexivity. Qed.

(** An offset beyond the length does not turn the list. *)
Lemma rotate_beyond :
  PyList.rotate 4 [OInt 1; OInt 2; OInt 3] = [OInt 1; OInt 2; OInt 3]
  /\ PyList.rotate 1 [OInt 1; OInt 2; OInt 3] = [OInt 2; OInt 3; OInt 1].
Proof. split; vm_compute; reflexivity. Qed.

(** The last item cannot be spliced off with a negative index and a
    size. *)
Lemma splice_last :
  PyList.splice (-1) (Some 1) [OInt 1; OInt 2; OInt 3]
  = ([], [OInt 1; OInt 2; OInt 3])
  /\ PyList.splice (-1) None [OInt 1; OInt 2; OInt 3]
     = ([OInt 3], [OInt 1; OInt 2]).
Proof. split; vm_compute; reflexivity. Qed.

Lemma unique_order_kept :
  PyList.unique [OInt 3; OInt 1; OInt 3; OInt 2; OInt 1]
  = Return [OInt 3; OInt 1; OInt 2]
  /\ PyList.unique [OList [OInt 1]] = Throw TypeError.
Proof. split; vm_compute; reflexivity. Qed.

Lemma transpose_twice :
  PyList.transpose [OList [OInt 1; OInt 2]; OList [OInt 3; OInt 4]]
  = Return [OTuple [OInt 1; OInt 3]; OTuple [OInt 2; OInt 4]]
  /\ PyList.transpose [OTuple [OInt 1; OInt 3]; OTuple [OInt 2; OInt 4]]
     = Throw ValueError.
Proof. split; vm_compute; reflexivity. Qed.

(** ["hello"] turned by two places, and by seven. *)
Lemma rotate_hello :
  PyString.rotate 2 (codes "hello") = codes "lohel"
  /\ PyString.rotate 7 (codes "hello") = codes "lohel"
  /\ PyString.rotate (-2) (codes "lohel") = codes "hello".
Proof. repeat split; vm_compute; reflexivity. Qed.

Lemma before_after_path :
  PyString.before (codes "/") (codes "a/b/c") = codes "a"
  /\ PyString.after (codes "/") (codes "a/b/c") = codes "c"
  /\ PyString.after (codes "aa") (codes "aaa") = codes "a".
Proof. repeat split; vm_compute; reflexivity. Qed.

End ListExamples.
